(** * Dirichlet parameter store (inferactively/distributions/dirichlet.py)

    A shallow embedding of the [Dirichlet] class and of the part of the
    array library it calls.  Numbers are IEEE binary64 values (Rocq's
    primitive floats); arrays live in a heap of objects so that aliasing and
    in-place updates are visible; every method is a computation in a small
    state-and-exception monad. *)

From Stdlib Require Import ZArith List Bool String Lia Floats Uint63.
From stdpp Require Import base list.
Import ListNotations.

Local Open Scope nat_scope.

(** ** Binary64 constants *)

Module F64.

(** [np.exp(-16)], the binary64 value [1.1253517471925912e-07]. *)
Definition exp_m16 : float := 0x1.e355bbaee85cbp-24%float.

(** Conversion of a Python [int] that is a length to a float. *)
Definition of_nat (n : nat) : float :=
  PrimFloat.of_uint63 (Uint63.of_Z (Z.of_nat n)).

End F64.

(** ** The array library: n-dimensional float64 arrays

    An array is its shape and its entries in row-major order.  Only the
    operations the class calls are modelled. *)

Record ndarray := Nd { shape : list nat; data : list float }.

Definition size_of (s : list nat) : nat := fold_right Nat.mul 1 s.
Definition ndim (a : ndarray) : nat := length (shape a).

(** The entries fill the shape. *)
Definition nd_ok (a : ndarray) : bool := length (data a) =? size_of (shape a).

(** [np.zeros(shape)] *)
Definition np_zeros (s : list nat) : ndarray := Nd s (replicate (size_of s) 0%float).

(** [np.expand_dims(a, axis=1)] and [a[:, np.newaxis]]: a new axis of length
    1 in second position; the entries are those of [a]. *)
Definition expand_dims (a : ndarray) : ndarray :=
  Nd (firstn 1 (shape a) ++ 1 :: skipn 1 (shape a)) (data a).

(** A unary ufunc ([np.log], [x + c], ...) applied entry by entry. *)
Definition nd_map (g : float -> float) (a : ndarray) : ndarray :=
  Nd (shape a) (map g (data a)).

(** The [i]-th block of [c] consecutive entries: row [i] of an array whose
    rows have [c] entries. *)
Definition row (c : nat) (d : list float) (i : nat) : list float :=
  firstn c (skipn (i * c) d).

(** Column [j] of [d0] rows of [c] entries each. *)
Definition column (c d0 : nat) (d : list float) (j : nat) : list float :=
  map (fun i => nth (i * c + j) d 0%float) (seq 0 d0).

(** *** Broadcasting of a binary ufunc *)

Definition pad_shape (r : nat) (s : list nat) : list nat :=
  replicate (r - length s) 1 ++ s.

(** The common shape of two shapes of the same length: in each position the
    lengths agree or one of them is 1. *)
Fixpoint broadcast_shapes (sa sb : list nat) : option (list nat) :=
  match sa, sb with
  | [], [] => Some []
  | x :: sa', y :: sb' =>
      match broadcast_shapes sa' sb' with
      | Some s =>
          if x =? y then Some (x :: s)
          else if x =? 1 then Some (y :: s)
          else if y =? 1 then Some (x :: s)
          else None
      | None => None
      end
  | _, _ => None
  end.

(** The entries of [f a b] for two arrays of broadcastable shapes [sa] and
    [sb] (same length): an axis of length 1 is read at index 0 throughout. *)
Fixpoint broadcast_data (f : float -> float -> float) (sa sb : list nat)
    (da db : list float) : list float :=
  match sa, sb with
  | x :: sa', y :: sb' =>
      flat_map
        (fun i => broadcast_data f sa' sb'
                    (row (size_of sa') da (if x =? 1 then 0 else i))
                    (row (size_of sb') db (if y =? 1 then 0 else i)))
        (seq 0 (if x =? 1 then y else x))
  | _, _ =>
      match da, db with
      | x :: _, y :: _ => [f x y]
      | _, _ => []
      end
  end.

(** Exceptions.  [ValueError] carries the message; [OutOfModel] marks a use
    of the array library on objects that this development does not describe
    (an object array nested in another one, a scalar stored in an object
    array, a dangling reference); no statement below draws a conclusion from
    it. *)
Inductive exn :=
| ValueError (msg : string)
| TypeError
| IndexError
| AxisError
| AttributeError
| OutOfModel.

Definition broadcast_error : exn :=
  ValueError "operands could not be broadcast together".

Definition np_binop (f : float -> float -> float) (a b : ndarray)
    : exn + ndarray :=
  let r := Nat.max (ndim a) (ndim b) in
  let sa := pad_shape r (shape a) in
  let sb := pad_shape r (shape b) in
  match broadcast_shapes sa sb with
  | Some s => inr (Nd s (broadcast_data f sa sb (data a) (data b)))
  | None => inl broadcast_error
  end.

(** A Python or NumPy scalar as an operand: a 0-dimensional array. *)
Definition scalar (x : float) : ndarray := Nd [] [x].

(** [a.shape[0]] *)
Definition shape0 (a : ndarray) : exn + nat :=
  match shape a with
  | d0 :: _ => inr d0
  | [] => inl IndexError
  end.

(** [a[np.isnan(a)] = u] on an array nobody else refers to. *)
Definition fill_nan (u : float) (a : ndarray) : ndarray :=
  nd_map (fun x => if is_nan x then u else x) a.

(** [(a == 0.0).any()] *)
Definition any_zero (a : ndarray) : bool :=
  existsb (fun x => (x =? 0)%float) (data a).

(** ** Objects, the heap and Python values *)

(** References are heap indices. *)
Abbreviation loc := nat (only parsing).

(** An [np.ndarray] object: a numeric array of dtype float64, or a
    one-dimensional array of dtype object whose cells refer to other objects
    ([None]: the cell holds Python's [None], as after [np.empty]). *)
Inductive obj :=
| ONum (a : ndarray)
| OObj (cells : list (option loc)).

(** A [Dirichlet] instance: its two attributes.  Both are bound once, by the
    constructor; [values] is a reference to an array object. *)
Record Dirichlet := mkDirichlet { IS_AOA : bool; values : loc }.

#[local] Unset Elimination Schemes.
Inductive pyval :=
| PyNone
| PyInt (z : Z)
| PyFloat (x : float)
| PyList (l : list pyval)
| PyArr (l : loc)
| PyStore (d : Dirichlet)
| PyOther.
#[local] Set Elimination Schemes.

Definition is_none (v : pyval) : bool :=
  match v with PyNone => true | _ => false end.
Definition is_list (v : pyval) : bool :=
  match v with PyList _ => true | _ => false end.

(** [np.zeros(dims)] for a Python list [dims]: every dimension must be an
    [int], and none may be negative. *)
Fixpoint ints_of (ds : list pyval) : option (list Z) :=
  match ds with
  | [] => Some []
  | PyInt z :: ds' => option_map (cons z) (ints_of ds')
  | _ :: _ => None
  end.

Definition shape_of_dims (ds : list pyval) : exn + list nat :=
  match ints_of ds with
  | None => inl TypeError
  | Some zs =>
      if existsb (fun z => (z <? 0)%Z) zs
      then inl (ValueError "negative dimensions are not allowed")
      else inr (map Z.to_nat zs)
  end.

Definition np_zeros_dims (ds : list pyval) : exn + ndarray :=
  match shape_of_dims ds with
  | inr s => inr (np_zeros s)
  | inl e => inl e
  end.

(** The program state: the heap of array objects and the warnings issued so
    far. *)
Record state := St { heap : list obj; warnings : list string }.

(** ** The monad of methods: state and exceptions *)

Definition M (A : Type) : Type := state -> (exn + A) * state.

Definition ret {A} (a : A) : M A := fun st => (inr a, st).
Definition raise {A} (e : exn) : M A := fun st => (inl e, st).
Definition bind {A B} (m : M A) (k : A -> M B) : M B :=
  fun st =>
    match m st with
    | (inr a, st') => k a st'
    | (inl e, st') => (inl e, st')
    end.

Notation "x <- m ;; k" := (bind m (fun x => k))
  (at level 100, m at next level, right associativity).
Notation "m ;;; k" := (bind m (fun _ => k))
  (at level 100, right associativity).

Definition lift {A} (r : exn + A) : M A :=
  match r with inr a => ret a | inl e => raise e end.

(** A new object; its reference is the next free location. *)
Definition alloc (o : obj) : M loc :=
  fun st => (inr (length (heap st)), St (heap st ++ [o]) (warnings st)).

Definition read (l : loc) : M obj :=
  fun st =>
    match heap st !! l with
    | Some o => (inr o, st)
    | None => (inl OutOfModel, st)
    end.

(** In-place update of the object at [l]. *)
Definition write (l : loc) (o : obj) : M unit :=
  fun st => (inr tt, St (<[l := o]> (heap st)) (warnings st)).

(** [warnings.warn(msg)] *)
Definition warn (msg : string) : M unit :=
  fun st => (inr tt, St (heap st) (warnings st ++ [msg])).

Definition read_num (l : loc) : M ndarray :=
  o <- read l ;;
  match o with ONum a => ret a | OObj _ => raise OutOfModel end.

Definition read_obj (l : loc) : M (list (option loc)) :=
  o <- read l ;;
  match o with OObj cells => ret cells | ONum _ => raise OutOfModel end.

(** [arr[i]] for an object array and an index in range. *)
Definition get_cell (l : loc) (i : nat) : M (option loc) :=
  cells <- read_obj l ;;
  match cells !! i with
  | Some c => ret c
  | None => raise IndexError
  end.

(** [arr[i] = c] for an object array: the reference is stored. *)
Definition set_cell (l : loc) (i : nat) (c : option loc) : M unit :=
  cells <- read_obj l ;;
  if i <? length cells then write l (OObj (<[i := c]> cells))
  else raise IndexError.

(** The numeric array a cell refers to; [e] is what Python raises when the
    cell holds [None]. *)
Definition cell_array (e : exn) (c : option loc) : M ndarray :=
  match c with
  | Some l => read_num l
  | None => raise e
  end.

(** [np.empty(n, dtype=object)] *)
Definition np_empty_obj (n : nat) : M loc := alloc (OObj (replicate n None)).

(** [for x in xs: body] *)
Fixpoint for_each {A} (xs : list A) (body : A -> M unit) : M unit :=
  match xs with
  | [] => ret tt
  | x :: xs' => body x ;;; for_each xs' body
  end.

(** ** Indexing of numeric arrays

    A key is a tuple of integers, one per leading axis ([a[i]] is the tuple
    of length one); negative indices count from the end. *)

Definition norm_index (d : nat) (i : Z) : option nat :=
  if ((0 <=? i) && (i <? Z.of_nat d))%Z then Some (Z.to_nat i)
  else if ((- Z.of_nat d <=? i) && (i <? 0))%Z then Some (Z.to_nat (i + Z.of_nat d))
  else None.

(** Offset of the selected block and its shape; [None]: an index is out of
    range or there are more indices than axes. *)
Fixpoint locate (s : list nat) (key : list Z) : option (nat * list nat) :=
  match key, s with
  | [], _ => Some (0, s)
  | _ :: _, [] => None
  | i :: key', d :: s' =>
      match norm_index d i, locate s' key' with
      | Some n, Some (off, rest) => Some (n * size_of s' + off, rest)
      | _, _ => None
      end
  end.

(** [a[key]]: a scalar when every axis is indexed, a sub-array otherwise. *)
Definition np_getitem (a : ndarray) (key : list Z) : exn + (float + ndarray) :=
  match locate (shape a) key with
  | None => inl IndexError
  | Some (off, []) => inr (inl (nth off (data a) 0%float))
  | Some (off, rest) =>
      inr (inr (Nd rest (firstn (size_of rest) (skipn off (data a)))))
  end.

Fixpoint strip_ones (n : nat) (s : list nat) : list nat :=
  match n, s with
  | S n', 1 :: s' => strip_ones n' s'
  | _, _ => s
  end.

(** [a[key] = v]: [v] is broadcast to the selected block and written over
    it. *)
Definition np_setitem (a : ndarray) (key : list Z) (v : ndarray)
    : exn + ndarray :=
  match locate (shape a) key with
  | None => inl IndexError
  | Some (off, rest) =>
      let sv := strip_ones (ndim v - length rest) (shape v) in
      let svp := pad_shape (length rest) sv in
      if bool_decide (broadcast_shapes rest svp = Some rest) then
        let n := size_of rest in
        let block := firstn n (skipn off (data a)) in
        inr (Nd (shape a)
               (firstn off (data a)
                ++ broadcast_data (fun _ y => y) rest svp block (data v)
                ++ skipn (off + n) (data a)))
      else inl (ValueError "could not broadcast input array")
  end.

(** ** The class *)

Section Methods.

(** The array library's float64 reduction [np.sum] of the entries of one
    column (its order of additions is the library's), and [np.log]. *)
Variable fsum : list float -> float.
Variable np_log : float -> float.

(** [np.sum(a, axis=0)] *)
Definition np_sum0 (a : ndarray) : exn + ndarray :=
  match shape a with
  | [] => inl AxisError
  | d0 :: rest =>
      inr (Nd rest (map (fun j => fsum (column (size_of rest) d0 (data a) j))
                        (seq 0 (size_of rest))))
  end.

(** [construct_values]: [self.IS_AOA] is [False] on entry. *)
Definition construct_values (values : pyval) : M Dirichlet :=
  match values with
  | PyArr v =>
      o <- read v ;;
      match o with
      | OObj cells =>
          (* values.dtype == "object" *)
          sv <- np_empty_obj (length cells) ;;
          for_each (seq 0 (length cells)) (fun i =>
            c <- get_cell v i ;;
            array <- cell_array AttributeError c ;;
            (if ndim array =? 1 then
               e <- alloc (ONum (expand_dims array)) ;;
               set_cell v i (Some e)
             else ret tt) ;;;
            c' <- get_cell v i ;;
            a' <- cell_array AttributeError c' ;;
            f <- alloc (ONum a') ;;
            set_cell sv i (Some f)) ;;;
          ret (mkDirichlet true sv)
      | ONum a =>
          v' <- (if ndim a =? 1 then alloc (ONum (expand_dims a)) else ret v) ;;
          a' <- read_num v' ;;
          sv <- alloc (ONum a') ;;
          ret (mkDirichlet false sv)
      end
  | _ => raise (ValueError ":values: must be a :numpy.ndarray:")
  end.

(** [np.zeros([d, 1])] for a list [[d]], [np.zeros(ds)] otherwise. *)
Definition zeros_of_list (ds : list pyval) : exn + ndarray :=
  match ds with
  | [d] => np_zeros_dims [d; PyInt 1]
  | _ => np_zeros_dims ds
  end.

(** [construct_dims]: [self.IS_AOA] is [False] on entry. *)
Definition construct_dims (dims : pyval) : M Dirichlet :=
  match dims with
  | PyList els =>
      if existsb is_list els then
        if negb (forallb is_list els) then
          raise (ValueError ":list: of :dims: must only contains :lists:")
        else
          sv <- np_empty_obj (length els) ;;
          for_each (seq 0 (length els)) (fun i =>
            match els !! i with
            | Some (PyList di) =>
                z <- lift (zeros_of_list di) ;;
                lz <- alloc (ONum z) ;;
                set_cell sv i (Some lz)
            | _ => raise OutOfModel
            end) ;;;
          ret (mkDirichlet true sv)
      else
        z <- lift (zeros_of_list els) ;;
        l <- alloc (ONum z) ;;
        ret (mkDirichlet false l)
  | PyInt n =>
      z <- lift (np_zeros_dims [PyInt n; PyInt 1]) ;;
      l <- alloc (ONum z) ;;
      ret (mkDirichlet false l)
  | _ => raise (ValueError ":dims: must be either :list: or :int:")
  end.

(** [Dirichlet(dims=..., values=...)] *)
Definition __init__ (dims values : pyval) : M Dirichlet :=
  if negb (is_none values) && negb (is_none dims) then
    raise (ValueError "please provide _either_ :dims: or :values:, not both")
  else if is_none values && is_none dims then
    l <- alloc (ONum (np_zeros [1; 1])) ;;
    ret (mkDirichlet false l)
  else if negb (is_none values) then construct_values values
  else construct_dims dims.

(** The column normalisation of one array: the quotient by the column sums,
    with every NaN quotient replaced by [1 / shape[0]]. *)
Definition normalize_array (a : ndarray) : exn + ndarray :=
  match np_sum0 a with
  | inl e => inl e
  | inr column_sums =>
      match np_binop PrimFloat.div a column_sums with
      | inl e => inl e
      | inr q =>
          match shape0 q with
          | inl e => inl e
          | inr n => inr (fill_nan (1 / F64.of_nat n)%float q)
          end
      end
  end.

Definition normalize (self : Dirichlet) : M loc :=
  if IS_AOA self then
    cells <- read_obj (values self) ;;
    normed <- np_empty_obj (length cells) ;;
    for_each (seq 0 (length cells)) (fun i =>
      c <- get_cell (values self) i ;;
      array_i <- cell_array TypeError c ;;
      r <- lift (normalize_array array_i) ;;
      l <- alloc (ONum r) ;;
      set_cell normed i (Some l)) ;;;
    ret normed
  else
    a <- read_num (values self) ;;
    _ <- alloc (ONum (np_zeros (shape a))) ;;
    r <- lift (normalize_array a) ;;
    alloc (ONum r).

(** [self.values += np.exp(-16)]: in place on a numeric array; on an object
    array every cell is rebound to the new array [cell + np.exp(-16)]. *)
Definition remove_zeros (self : Dirichlet) : M unit :=
  let l := values self in
  o <- read l ;;
  match o with
  | ONum a => write l (ONum (nd_map (fun x => x + F64.exp_m16)%float a))
  | OObj cells =>
      for_each (seq 0 (length cells)) (fun i =>
        c <- get_cell l i ;;
        a <- cell_array TypeError c ;;
        r <- alloc (ONum (nd_map (fun x => x + F64.exp_m16)%float a)) ;;
        set_cell l i (Some r))
  end.

Definition __getitem__ (self : Dirichlet) (key : list Z) : M pyval :=
  o <- read (values self) ;;
  match o with
  | ONum a =>
      match np_getitem a key with
      | inl e => raise e
      | inr (inl x) => ret (PyFloat x)
      | inr (inr sub) =>
          v <- alloc (ONum sub) ;;
          v' <- (if ndim sub =? 1 then alloc (ONum (expand_dims sub)) else ret v) ;;
          d <- __init__ PyNone (PyArr v') ;;
          ret (PyStore d)
      end
  | OObj cells =>
      match key with
      | [i] =>
          match norm_index (length cells) i with
          | None => raise IndexError
          | Some n =>
              c <- get_cell (values self) n ;;
              match c with
              | None => ret PyNone
              | Some l =>
                  b <- read_num l ;;
                  v' <- (if ndim b =? 1 then alloc (ONum (expand_dims b)) else ret l) ;;
                  d <- __init__ PyNone (PyArr v') ;;
                  ret (PyStore d)
              end
          end
      | [] => raise OutOfModel
      | _ :: _ :: _ => raise IndexError
      end
  end.

Definition __setitem__ (self : Dirichlet) (idx : list Z) (value : pyval) : M unit :=
  let value := match value with PyStore d => PyArr (values d) | _ => value end in
  o <- read (values self) ;;
  match o with
  | ONum a =>
      v <- match value with
           | PyFloat x => ret (scalar x)
           | PyArr l => read_num l
           | _ => raise OutOfModel
           end ;;
      a' <- lift (np_setitem a idx v) ;;
      write (values self) (ONum a')
  | OObj cells =>
      match idx with
      | [i] =>
          match norm_index (length cells) i with
          | None => raise IndexError
          | Some n =>
              match value with
              | PyArr l => set_cell (values self) n (Some l)
              | PyNone => set_cell (values self) n None
              | _ => raise OutOfModel
              end
          end
      | [] => raise OutOfModel
      | _ :: _ :: _ => raise IndexError
      end
  end.

(** [norm - avg] for the floored array [A] of [wnorm]. *)
Definition wnorm_array (A : ndarray) : M loc :=
  s <- lift (np_sum0 A) ;;
  norm <- lift (np_binop PrimFloat.div (scalar 1) s) ;;
  avg <- lift (np_binop PrimFloat.div (scalar 1) A) ;;
  wA <- lift (np_binop PrimFloat.sub norm avg) ;;
  alloc (ONum wA).

Definition wnorm (self : Dirichlet) (return_numpy : bool) : M pyval :=
  if IS_AOA self then
    cells <- read_obj (values self) ;;
    wA <- np_empty_obj (length cells) ;;
    for_each (seq 0 (length cells)) (fun i =>
      si <- __getitem__ self [Z.of_nat i] ;;
      v <- match si with
           | PyStore d => ret (values d)
           | _ => raise AttributeError
           end ;;
      A <- __init__ PyNone (PyArr v) ;;
      remove_zeros A ;;;
      A <- read_num (values A) ;;
      w <- wnorm_array A ;;
      set_cell wA i (Some w)) ;;;
    if return_numpy then ret (PyArr wA)
    else d <- __init__ PyNone (PyArr wA) ;; ret (PyStore d)
  else
    A <- __init__ PyNone (PyArr (values self)) ;;
    remove_zeros A ;;;
    A <- read_num (values A) ;;
    wA <- wnorm_array A ;;
    if return_numpy then ret (PyArr wA)
    else d <- __init__ PyNone (PyArr wA) ;; ret (PyStore d).

(** The loop of [contains_zeros] over the cells, with its early [return]. *)
Fixpoint any_cell_zero (l : loc) (idx : list nat) : M bool :=
  match idx with
  | [] => ret false
  | i :: idx' =>
      c <- get_cell l i ;;
      a <- cell_array AttributeError c ;;
      if any_zero a then ret true else any_cell_zero l idx'
  end.

Definition contains_zeros (self : Dirichlet) : M bool :=
  if negb (IS_AOA self) then
    a <- read_num (values self) ;;
    ret (any_zero a)
  else
    cells <- read_obj (values self) ;;
    any_cell_zero (values self) (seq 0 (length cells)).

Definition log_warning : string :=
  "You have called :log: on a Dirichlet that contains zeros.                      We have removed zeros.".

Definition log (self : Dirichlet) (return_numpy : bool) : M pyval :=
  z <- contains_zeros self ;;
  (if z then remove_zeros self ;;; warn log_warning else ret tt) ;;;
  log_values <-
    (if negb (IS_AOA self) then
       a <- read_num (values self) ;;
       v <- alloc (ONum a) ;;
       a' <- read_num v ;;
       alloc (ONum (nd_map np_log a'))
     else
       cells <- read_obj (values self) ;;
       lv <- np_empty_obj (length cells) ;;
       for_each (seq 0 (length cells)) (fun i =>
         c <- get_cell (values self) i ;;
         a <- cell_array TypeError c ;;
         v <- alloc (ONum a) ;;
         a' <- read_num v ;;
         r <- alloc (ONum (nd_map np_log a')) ;;
         set_cell lv i (Some r)) ;;;
       ret lv) ;;
  if return_numpy then ret (PyArr log_values)
  else d <- __init__ PyNone (PyArr log_values) ;; ret (PyStore d).

(** *** Arithmetic operators

    [np_arith f l other] is [arr (op) other] for the array object at [l]:
    the ufunc of [f] with broadcasting.  NumPy returns a scalar, not an
    array, when both operands are 0-dimensional; on object arrays the
    operator is applied cell by cell. *)

Definition cell_binop (f : float -> float -> float) (a b : ndarray) : M loc :=
  r <- lift (np_binop f a b) ;;
  if (ndim a =? 0) && (ndim b =? 0) then raise OutOfModel
  else alloc (ONum r).

Definition np_arith (f : float -> float -> float) (l : loc) (other : pyval)
    : M pyval :=
  o <- read l ;;
  match o with
  | ONum a =>
      b <- match other with
           | PyFloat x => ret (scalar x)
           | PyArr l2 => read_num l2
           | _ => raise OutOfModel
           end ;;
      r <- lift (np_binop f a b) ;;
      if (ndim a =? 0) && (ndim b =? 0) then ret (PyFloat (hd 0%float (data r)))
      else lr <- alloc (ONum r) ;; ret (PyArr lr)
  | OObj cells =>
      match other with
      | PyFloat x =>
          out <- np_empty_obj (length cells) ;;
          for_each (seq 0 (length cells)) (fun i =>
            c <- get_cell l i ;;
            a <- cell_array TypeError c ;;
            r <- cell_binop f a (scalar x) ;;
            set_cell out i (Some r)) ;;;
          ret (PyArr out)
      | PyArr l2 =>
          cells2 <- read_obj l2 ;;
          let n1 := length cells in
          let n2 := length cells2 in
          n <- (if n1 =? n2 then ret n1
                else if n1 =? 1 then ret n2
                else if n2 =? 1 then ret n1
                else raise broadcast_error) ;;
          out <- np_empty_obj n ;;
          for_each (seq 0 n) (fun i =>
            c1 <- get_cell l (if n1 =? 1 then 0 else i) ;;
            a <- cell_array TypeError c1 ;;
            c2 <- get_cell l2 (if n2 =? 1 then 0 else i) ;;
            b <- cell_array TypeError c2 ;;
            r <- cell_binop f a b ;;
            set_cell out i (Some r)) ;;;
          ret (PyArr out)
      | _ => raise OutOfModel
      end
  end.

Definition __add__ (self : Dirichlet) (other : pyval) : M Dirichlet :=
  match other with
  | PyStore o =>
      v <- np_arith PrimFloat.add (values self) (PyArr (values o)) ;;
      __init__ PyNone v
  | _ =>
      v <- np_arith PrimFloat.add (values self) other ;;
      __init__ PyNone v
  end.

Definition __radd__ (self : Dirichlet) (other : pyval) : M Dirichlet :=
  match other with
  | PyStore o =>
      v <- np_arith PrimFloat.add (values self) (PyArr (values o)) ;;
      __init__ PyNone v
  | _ =>
      v <- np_arith PrimFloat.add (values self) other ;;
      __init__ PyNone v
  end.

Definition __sub__ (self : Dirichlet) (other : pyval) : M Dirichlet :=
  match other with
  | PyStore o =>
      v <- np_arith PrimFloat.sub (values self) (PyArr (values o)) ;;
      __init__ PyNone v
  | _ =>
      v <- np_arith PrimFloat.sub (values self) other ;;
      __init__ PyNone v
  end.

Definition __rsub__ (self : Dirichlet) (other : pyval) : M Dirichlet :=
  match other with
  | PyStore o =>
      v <- np_arith PrimFloat.sub (values self) (PyArr (values o)) ;;
      __init__ PyNone v
  | _ =>
      v <- np_arith PrimFloat.sub (values self) other ;;
      __init__ PyNone v
  end.

Definition __mul__ (self : Dirichlet) (other : pyval) : M Dirichlet :=
  match other with
  | PyStore o =>
      v <- np_arith PrimFloat.mul (values self) (PyArr (values o)) ;;
      __init__ PyNone v
  | _ =>
      v <- np_arith PrimFloat.mul (values self) other ;;
      __init__ PyNone v
  end.

Definition __rmul__ (self : Dirichlet) (other : pyval) : M Dirichlet :=
  match other with
  | PyStore o =>
      v <- np_arith PrimFloat.mul (values self) (PyArr (values o)) ;;
      __init__ PyNone v
  | _ =>
      v <- np_arith PrimFloat.mul (values self) other ;;
      __init__ PyNone v
  end.

End Methods.

(** A sequential reduction, as an instance of the library's [np.sum] for the
    examples below. *)
Definition seq_sum (l : list float) : float :=
  match l with
  | [] => 0%float
  | x :: r => fold_left PrimFloat.add r x
  end.

(** ** What a reference denotes

    The tensor(s) an array object holds: one array, or the arrays its cells
    refer to. *)
Inductive tensors :=
| Dense (a : ndarray)
| Ragged (els : list ndarray).

Definition num_at (h : list obj) (l : loc) : option ndarray :=
  match h !! l with
  | Some (ONum a) => Some a
  | _ => None
  end.

Fixpoint cells_at (h : list obj) (cells : list (option loc))
    : option (list ndarray) :=
  match cells with
  | [] => Some []
  | Some l :: cells' =>
      match num_at h l, cells_at h cells' with
      | Some a, Some r => Some (a :: r)
      | _, _ => None
      end
  | None :: _ => None
  end.

Definition tensors_at (h : list obj) (l : loc) : option tensors :=
  match h !! l with
  | Some (ONum a) => Some (Dense a)
  | Some (OObj cells) => option_map Ragged (cells_at h cells)
  | None => None
  end.

(** The tensors of a store, when its tag agrees with the kind of array its
    [values] refer to. *)
Definition store_at (h : list obj) (d : Dirichlet) : option tensors :=
  match tensors_at h (values d), IS_AOA d with
  | Some (Dense a), false => Some (Dense a)
  | Some (Ragged els), true => Some (Ragged els)
  | _, _ => None
  end.

Definition tensors_map (g : ndarray -> ndarray) (t : tensors) : tensors :=
  match t with
  | Dense a => Dense (g a)
  | Ragged els => Ragged (map g els)
  end.

(** ** Vocabulary of the specifications *)

(** Rank promotion: a trailing axis of length 1 for an array of rank 1. *)
Definition promote (a : ndarray) : ndarray :=
  if ndim a =? 1 then expand_dims a else a.

(** The data-model invariant of a stored tensor: its entries fill its shape
    and it has at least two axes. *)
Definition tensor_ok (a : ndarray) : bool := nd_ok a && (2 <=? ndim a).

Definition tensors_ok (t : tensors) : bool :=
  match t with
  | Dense a => tensor_ok a
  | Ragged els => forallb tensor_ok els
  end.

Definition num_in (h : list obj) (l : loc) (a : ndarray) : Prop :=
  num_at h l = Some a.

(** [st'] is [st] with new objects on top: every object of [st] is as it
    was, and no warning has been issued. *)
Definition extends (st st' : state) : Prop :=
  heap st `prefix_of` heap st' /\ warnings st' = warnings st.

(** The objects of [h] other than [l] are as they were in [h']. *)
Definition same_except (l : loc) (h h' : list obj) : Prop :=
  length h <= length h' /\
  forall l', l' < length h -> l' <> l -> h' !! l' = h !! l'.

(** The object array at [out] while a loop assigns its cells in order: the
    first [k] cells refer to the first [k] arrays of [results], the others
    are those of [base]. *)
Definition filled (h : list obj) (out : loc) (base : list (option loc))
    (results : list ndarray) (k : nat) : Prop :=
  exists locs,
    h !! out = Some (OObj (map Some locs ++ skipn k base)) /\
    Forall2 (num_in h) locs (firstn k results).

(** Total correctness of a computation from a state: it returns normally and
    the result and final state satisfy [Q]. *)
Definition wp {A} (m : M A) (st : state) (Q : A -> state -> Prop) : Prop :=
  match m st with
  | (inr a, st') => Q a st'
  | (inl _, _) => False
  end.

(** *** Rows, columns and entries of a tensor

    Axis 0 indexes the rows; the remaining axes, flattened, index the
    columns. *)

Definition nrows (a : ndarray) : nat := hd 0 (shape a).
Definition ncols (a : ndarray) : nat := size_of (tl (shape a)).

(** The entry in row [i] and column [j]. *)
Definition entry (a : ndarray) (i j : nat) : float :=
  nth (i * ncols a + j) (data a) 0%float.

(** The sum of column [j], as the array library computes it. *)
Definition col_sum (fsum : list float -> float) (a : ndarray) (j : nat) : float :=
  fsum (column (ncols a) (nrows a) (data a) j).

(** Two values of the same representation whose tensors are related one by
    one. *)
Definition tensors_rel (R : ndarray -> ndarray -> Prop) (t t' : tensors) : Prop :=
  match t, t' with
  | Dense a, Dense r => R a r
  | Ragged els, Ragged rs => Forall2 R els rs
  | _, _ => False
  end.

Definition tensors_all (P : ndarray -> Prop) (t : tensors) : Prop :=
  match t with
  | Dense a => P a
  | Ragged els => Forall P els
  end.

(** [r] is the column normalisation of [a]: every entry is its quotient by
    the sum of its column, except that a quotient that is a NaN is replaced
    by [1 / nrows]. *)
Definition normalized_of (fsum : list float -> float) (a r : ndarray) : Prop :=
  shape r = shape a /\ nd_ok r = true /\
  forall i j, i < nrows a -> j < ncols a ->
    entry r i j =
      (let q := (entry a i j / col_sum fsum a j)%float in
       if is_nan q then (1 / F64.of_nat (nrows a))%float else q).

Definition no_nan (a : ndarray) : Prop :=
  Forall (fun x => is_nan x = false) (data a).

(** The floor of [remove_zeros]: [np.exp(-16)] added to every entry. *)
Definition floored (a : ndarray) : ndarray :=
  nd_map (fun x => x + F64.exp_m16)%float a.



(** The array object a returned value refers to. *)
Definition ref_of (v : pyval) : option loc :=
  match v with
  | PyArr l => Some l
  | PyStore d => Some (values d)
  | _ => None
  end.

(** The reference is to an object that did not exist in [st]. *)
Definition fresh_in (st : state) (v : pyval) : Prop :=
  exists l, ref_of v = Some l /\ length (heap st) <= l.

(** What construction from an object array has done to the first [k] slots
    of that array ([cells] before, [cells'] after): a slot whose element had
    rank 1 refers to an array object that did not exist before ([n0] is the
    size of the heap then); any other slot is untouched. *)
Definition slots_promoted (n0 : nat) (els : list ndarray)
    (cells cells' : list (option loc)) (k : nat) : Prop :=
  forall i a, i < k -> els !! i = Some a ->
    if ndim a =? 1 then exists e, cells' !! i = Some (Some e) /\ n0 <= e
    else cells' !! i = cells !! i.

(** Some stored entry compares equal to [0.0]. *)
Definition tensors_any_zero (t : tensors) : bool :=
  match t with
  | Dense a => any_zero a
  | Ragged els => existsb any_zero els
  end.


(** *** Arithmetic: what the operators are meant to compute *)

Inductive operator := Add | Sub | Mul.

Definition op_fun (o : operator) : float -> float -> float :=
  match o with
  | Add => PrimFloat.add
  | Sub => PrimFloat.sub
  | Mul => PrimFloat.mul
  end.

Definition op_method (o : operator) : Dirichlet -> pyval -> M Dirichlet :=
  match o with
  | Add => __add__
  | Sub => __sub__
  | Mul => __mul__
  end.

Definition op_reflected (o : operator) : Dirichlet -> pyval -> M Dirichlet :=
  match o with
  | Add => __radd__
  | Sub => __rsub__
  | Mul => __rmul__
  end.







(** *** Indexing: what a key selects and what an assignment leaves *)

(** [values[key]] for the tensors of a store: an entry or a sub-array of a
    dense tensor; element [i] of a ragged collection. *)
Definition item_of (t : tensors) (key : list Z) : option (float + ndarray) :=
  match t with
  | Dense a =>
      match np_getitem a key with
      | inr r => Some r
      | inl _ => None
      end
  | Ragged els =>
      match key with
      | [i] =>
          match norm_index (length els) i with
          | Some k => option_map inr (els !! k)
          | None => None
          end
      | _ => None
      end
  end.


(** The array a right-hand side of an indexed assignment stands for: a
    store is unwrapped to its values, a Python float is a scalar (for a
    dense receiver). *)
Definition rhs_at (h : list obj) (receiver : tensors) (value : pyval)
    : option ndarray :=
  match value with
  | PyStore d => num_at h (values d)
  | PyArr l => num_at h l
  | PyFloat x =>
      match receiver with
      | Dense _ => Some (scalar x)
      | Ragged _ => None
      end
  | _ => None
  end.


(** What a read hands back for a selected item: the number itself, or the
    sub-tensor, rank-promoted, in a store. *)
Definition read_result (h : list obj) (item : float + ndarray) (v : pyval) : Prop :=
  match item with
  | inl x => v = PyFloat x
  | inr sub =>
      exists d, v = PyStore d /\ store_at h d = Some (Dense (promote sub))
  end.

(** *** Construction from dimensions, as the specification words it

    An integer [n] gives a dense zero tensor of shape [(n, 1)]; a flat list
    of integers gives the dense zero tensor of that shape when it has more
    than one entry, and of shape [(d, 1)] for the list [[d]]; a list of
    lists gives a ragged collection with one zero tensor per inner list, by
    the rule for flat lists.  Dimensions are non-negative. *)

Definition dims_shape (zs : list Z) : option (list nat) :=
  if forallb (fun z => (0 <=? z)%Z) zs then
    match zs with
    | [] => None
    | [d] => Some [Z.to_nat d; 1]
    | _ :: _ :: _ => Some (map Z.to_nat zs)
    end
  else None.

Definition flat_zeros (ds : list pyval) : option ndarray :=
  match ints_of ds with
  | Some zs => option_map np_zeros (dims_shape zs)
  | None => None
  end.

Fixpoint ragged_zeros (els : list pyval) : option (list ndarray) :=
  match els with
  | [] => Some []
  | PyList di :: els' =>
      match flat_zeros di, ragged_zeros els' with
      | Some z, Some zs => Some (z :: zs)
      | _, _ => None
      end
  | _ :: _ => None
  end.

Definition dims_tensors (dims : pyval) : option tensors :=
  match dims with
  | PyInt n => option_map (fun s => Dense (np_zeros s)) (dims_shape [n])
  | PyList els =>
      match ints_of els with
      | Some _ => option_map Dense (flat_zeros els)
      | None => option_map Ragged (ragged_zeros els)
      end
  | _ => None
  end.

(** [r] is [a] after [remove_zeros]: the same shape, every entry shifted by
    [np.exp(-16)], and exactly [np.exp(-16)] where the entry was zero. *)
Definition floored_of (a r : ndarray) : Prop :=
  shape r = shape a /\ length (data r) = length (data a) /\
  forall k x, data a !! k = Some x ->
    data r !! k = Some (x + F64.exp_m16)%float /\
    ((x =? 0)%float = true -> data r !! k = Some F64.exp_m16).



(** *** A float64 logarithm for the examples

    Argument reduction [x = m * 2^e] with [m] near 1 and the series of
    [atanh]; special
    values as IEEE 754 and NumPy give them.  It stands for [np.log] where an
    example needs numbers; the theorems are about any [np_log]. *)







(** ** Example states *)

(** One dense store over [[0, 2], [4, 0]]. *)
Definition ex_dense : state := St [ONum (Nd [2; 2] [0; 2; 4; 0]%float)] [].
Definition ex_dense_store : Dirichlet := mkDirichlet false 0.



(** A ragged store with elements [[0], [1]] and [[2, 0]]. *)
Definition ex_ragged : state :=
  St [ONum (Nd [2; 1] [0; 1]%float); ONum (Nd [1; 2] [2; 0]%float);
      OObj [Some 0; Some 1]] [].
Definition ex_ragged_store : Dirichlet := mkDirichlet true 2.

(** Two dense stores, over [[1, 2], [3, 4]] and [[10, 20], [30, 40]], and
    the array [[7, 8]] of rank 1. *)
Definition ex_pair : state :=
  St [ONum (Nd [2; 2] [1; 2; 3; 4]%float);
      ONum (Nd [2; 2] [10; 20; 30; 40]%float);
      ONum (Nd [2] [7; 8]%float)] [].
Definition ex_left : Dirichlet := mkDirichlet false 0.
Definition ex_right : Dirichlet := mkDirichlet false 1.

(** A caller's object array over the arrays [[1, 2]] (rank 1) and
    [[3], [4]] (rank 2). *)
Definition ex_collection : state :=
  St [ONum (Nd [2] [1; 2]%float); ONum (Nd [2; 1] [3; 4]%float);
      OObj [Some 0; Some 1]] [].

(** ** Further methods of the class *)

(** [np.copy(arr)]: a new array object with the same contents.  For an
    object array the copy is shallow: its cells refer to the objects the
    cells of [arr] refer to. *)
Definition np_copy (l : loc) : M loc := o <- read l ;; alloc o.

(** [copy] *)
Definition copy (self : Dirichlet) : M Dirichlet :=
  values' <- np_copy (values self) ;;
  __init__ PyNone (PyArr values').

(** [arr.shape]: an object array has one axis, of the length of the
    array. *)
Definition np_shape (o : obj) : list nat :=
  match o with
  | ONum a => shape a
  | OObj cells => [length cells]
  end.

(** The properties [ndim] and [shape] of the class. *)
Module Property.

Definition shape (self : Dirichlet) : M (list nat) :=
  o <- read (values self) ;; ret (np_shape o).

Definition ndim (self : Dirichlet) : M nat :=
  o <- read (values self) ;; ret (length (np_shape o)).

End Property.

(** ** Further vocabulary *)

(** The arrays a store holds. *)
Definition arrays_of (t : tensors) : list ndarray :=
  match t with
  | Dense a => [a]
  | Ragged els => els
  end.

(** The shape the array [self.values] reports for the tensors [t]. *)
Definition reported_shape (t : tensors) : list nat :=
  match t with
  | Dense a => shape a
  | Ragged els => [length els]
  end.

(** A key addresses a block of an array of shape [s]: it has no more
    indices than [s] has axes, and the index [i] of an axis of length [d]
    satisfies [-d <= i < d]. *)
Fixpoint key_in_range (s : list nat) (key : list Z) : bool :=
  match key, s with
  | [], _ => true
  | _ :: _, [] => false
  | i :: key', d :: s' =>
      ((- Z.of_nat d <=? i) && (i <? Z.of_nat d))%Z && key_in_range s' key'
  end.

(** Two shapes of the same rank that cannot be broadcast together: on some
    axis the lengths differ and neither is 1. *)
Definition shapes_clash (sa sb : list nat) : Prop :=
  exists k x y, sa !! k = Some x /\ sb !! k = Some y /\
    x <> y /\ x <> 1 /\ y <> 1.

(** Two operands of the same representation that cannot be combined: dense
    tensors of equal rank whose shapes clash, or ragged collections of
    different lengths, neither of which is 1. *)
Definition operands_clash (t1 t2 : tensors) : Prop :=
  match t1, t2 with
  | Dense a, Dense b => ndim a = ndim b /\ shapes_clash (shape a) (shape b)
  | Ragged l1, Ragged l2 =>
      length l1 <> length l2 /\ length l1 <> 1 /\ length l2 <> 1
  | _, _ => False
  end.

(** Partial correctness of a computation from a state: if it returns
    normally, the result and final state satisfy [Q]. *)
Definition wlp {A} (m : M A) (st : state) (Q : A -> state -> Prop) : Prop :=
  match m st with
  | (inr a, st') => Q a st'
  | (inl _, _) => True
  end.

(** The shape [np.zeros] is called with for a flat list of dimensions. *)
Definition zeros_shape (zs : list Z) : list Z :=
  match zs with
  | [d] => [d; 1%Z]
  | _ => zs
  end.

(** The object array at [out] while a constructor fills it: its first [k]
    cells refer to numeric arrays, none of rank 1, and its other [n - k]
    cells are still empty. *)
Definition building (h : list obj) (out : loc) (n k : nat) : Prop :=
  exists locs els,
    h !! out = Some (OObj (map Some locs ++ replicate (n - k) None)) /\
    length locs = k /\
    Forall2 (num_in h) locs els /\
    Forall (fun a => ndim a <> 1) els.

(** A store is well formed in a heap: its tag agrees with the kind of its
    array of values, every cell of a ragged store refers to a numeric
    array, and no tensor has rank 1. *)
Definition store_wf (h : list obj) (d : Dirichlet) : Prop :=
  exists t, store_at h d = Some t /\
    Forall (fun a => ndim a <> 1) (arrays_of t).

(** ** Further example states *)

(** A ragged store over [[0], [1]] and [[2, 0]] and a dense store over
    [[1, 2], [3, 4]]. *)
Definition ex_mixed : state :=
  St [ONum (Nd [2; 1] [0; 1]%float); ONum (Nd [1; 2] [2; 0]%float);
      OObj [Some 0; Some 1]; ONum (Nd [2; 2] [1; 2; 3; 4]%float)] [].
Definition ex_mixed_ragged : Dirichlet := mkDirichlet true 2.
Definition ex_mixed_dense : Dirichlet := mkDirichlet false 3.


(** Two dense stores of shapes [(2, 2)] and [(3, 2)]. *)
Definition ex_clash : state :=
  St [ONum (Nd [2; 2] [1; 2; 3; 4]%float);
      ONum (Nd [3; 2] [1; 2; 3; 4; 5; 6]%float)] [].

(** The state [ex_mixed] with a ragged store over the single element
    [[1, 2], [3, 4]]. *)
Definition ex_single : state :=
  St (heap ex_mixed ++ [OObj [Some 3]]) [].

(** A computation with a frame [K]: if it returns, the result and the final
    state satisfy [Q]; if it raises, the final state satisfies [K]. *)
Definition wfr {A} (K : state -> Prop) (m : M A) (st : state)
    (Q : A -> state -> Prop) : Prop :=
  match m st with
  | (inr a, st') => Q a st'
  | (inl _, st') => K st'
  end.

(** A caller's object array over the array [[1, 2]] (rank 1) and
    [None]. *)
Definition ex_partial : state :=
  St [ONum (Nd [2] [1; 2]%float); OObj [Some 0; None]] [].


(** ** Binary64 facts used by the development *)

Module F64Facts.

Lemma SFcompare_refl_finite s m e :
  SFcompare (S754_finite s m e) (S754_finite s m e) = Some Eq.
Proof.
  assert (H : Pos.compare_cont Eq m m = Eq) by apply Pos.compare_refl.
  unfold SFcompare. rewrite Z.compare_refl, H. by destruct s.
Qed.

Lemma is_nan_spec (x : float) :
  is_nan x = true <-> Prim2SF x = S754_nan.
Proof.
  unfold is_nan. rewrite FloatAxioms.eqb_spec. unfold SFeqb.
  destruct (Prim2SF x) as [s|s| |s m e] eqn:E.
  - by destruct s.
  - by destruct s.
  - done.
  - rewrite SFcompare_refl_finite. done.
Qed.

Lemma is_nan_false_spec (x : float) :
  is_nan x = false <-> Prim2SF x <> S754_nan.
Proof.
  rewrite <- is_nan_spec. destruct (is_nan x); split; congruence.
Qed.

(** The only floats that compare equal to [0.0] are the two zeros. *)
Lemma eqb_zero_inv (x : float) :
  (x =? 0)%float = true -> x = 0%float \/ x = (-0)%float.
Proof.
  rewrite FloatAxioms.eqb_spec. intros H.
  assert (Hz : exists s, Prim2SF x = S754_zero s).
  { change (Prim2SF 0) with (S754_zero false) in H.
    unfold SFeqb in H.
    destruct (Prim2SF x) as [s|s| |s m e]; simpl in H.
    - by exists s.
    - by destruct s.
    - done.
    - by destruct s. }
  destruct Hz as [s Hs].
  rewrite <- (SF2Prim_Prim2SF x), Hs.
  destruct s; [right | left]; reflexivity.
Qed.

Lemma add_zero_exp_m16 (x : float) :
  (x =? 0)%float = true -> (x + F64.exp_m16)%float = F64.exp_m16.
Proof.
  intros H. destruct (eqb_zero_inv x H) as [-> | ->]; reflexivity.
Qed.

Lemma div_zero_zero_nan (x y : float) :
  (x =? 0)%float = true -> (y =? 0)%float = true ->
  is_nan (x / y)%float = true.
Proof.
  intros Hx Hy.
  destruct (eqb_zero_inv x Hx) as [-> | ->];
    destruct (eqb_zero_inv y Hy) as [-> | ->]; reflexivity.
Qed.

(** *** Rounding never produces a NaN from a non-negative mantissa *)

Lemma shr_1_nonneg mrs : (0 <= shr_m mrs)%Z -> (0 <= shr_m (shr_1 mrs))%Z.
Proof.
  destruct mrs as [m r s]. simpl. intros H.
  destruct m as [|p|p]; simpl; [lia | | lia].
  destruct p; simpl; lia.
Qed.

Lemma iter_shr_1_nonneg p mrs :
  (0 <= shr_m mrs)%Z -> (0 <= shr_m (SpecFloat.iter_pos shr_1 p mrs))%Z.
Proof.
  revert mrs. induction p as [p IH|p IH|]; intros mrs H; simpl.
  - apply IH, IH, shr_1_nonneg, H.
  - apply IH, IH, H.
  - apply shr_1_nonneg, H.
Qed.

Lemma shr_fexp_nonneg prec emax m e l :
  (0 <= m)%Z -> (0 <= shr_m (fst (shr_fexp prec emax m e l)))%Z.
Proof.
  intros H. unfold shr_fexp, shr.
  assert (H0 : (0 <= shr_m (shr_record_of_loc m l))%Z).
  { destruct l as [|c]; [done | by destruct c]. }
  destruct (fexp prec emax (Zdigits2 m + e) - e)%Z; simpl; try done.
  by apply iter_shr_1_nonneg.
Qed.

Lemma round_nearest_even_nonneg m l :
  (0 <= m)%Z -> (0 <= round_nearest_even m l)%Z.
Proof.
  intros H. destruct l as [|c]; simpl; [done |].
  destruct c; [destruct (Z.even m) | |]; lia.
Qed.

Lemma binary_round_aux_not_nan prec emax sx m e l :
  (0 <= m)%Z -> binary_round_aux prec emax sx m e l <> S754_nan.
Proof.
  intros H. unfold binary_round_aux.
  pose proof (shr_fexp_nonneg prec emax m e l H) as H1.
  destruct (shr_fexp prec emax m e l) as [mrs' e'] eqn:E1. simpl in H1.
  pose proof (shr_fexp_nonneg prec emax _ e' loc_Exact
    (round_nearest_even_nonneg _ (loc_of_shr_record mrs') H1)) as H2.
  destruct (shr_fexp prec emax (round_nearest_even _ _) e' loc_Exact)
    as [mrs'' e''] eqn:E2. simpl in H2.
  destruct (shr_m mrs'') as [|p|p]; [done | | lia].
  by destruct (_ <=? _)%Z.
Qed.

Lemma SFdiv_core_nonneg prec emax m1 e1 m2 e2 :
  (0 <= fst (fst (SFdiv_core_binary prec emax (Zpos m1) e1 (Zpos m2) e2)))%Z.
Proof.
  unfold SFdiv_core_binary.
  set (s := (e1 - e2 - _)%Z).
  set (m' := match s with Z0 => Zpos m1 | Zpos _ => Z.shiftl (Zpos m1) s
                     | Zneg _ => 0%Z end).
  assert (Hm : (0 <= m')%Z).
  { unfold m'. destruct s; try lia. apply Z.shiftl_nonneg. lia. }
  pose proof (Z_div_mod m' (Zpos m2) eq_refl) as Hd.
  destruct (Z.div_eucl m' (Zpos m2)) as [q r]. simpl.
  destruct Hd as [Hq Hr]. nia.
Qed.

(** A quotient is a NaN only in the IEEE cases: a NaN operand, [0/0] or
    [inf/inf]. *)
Lemma SFdiv_finite_not_nan sx mx ex y :
  y <> S754_nan -> SF64div (S754_finite sx mx ex) y <> S754_nan.
Proof.
  intros Hy. unfold SF64div, SFdiv.
  destruct y as [s|s| |s m e]; try done.
  pose proof (SFdiv_core_nonneg prec emax mx ex m e) as H.
  destruct (SFdiv_core_binary prec emax (Zpos mx) ex (Zpos m) e) as [[mz ez] lz].
  simpl in H. by apply binary_round_aux_not_nan.
Qed.

Lemma of_uint63_not_nan n : is_nan (PrimFloat.of_uint63 n) = false.
Proof.
  apply is_nan_false_spec. rewrite FloatAxioms.of_uint63_spec.
  unfold binary_normalize.
  pose proof (Uint63.to_Z_bounded n) as Hb.
  destruct (Uint63.to_Z n) as [|p|p]; [done | | lia].
  unfold binary_round.
  destruct (shl_align _ _ _) as [mz ez].
  by apply binary_round_aux_not_nan.
Qed.

(** [np.divide(1.0, n)] for a length [n] is never a NaN. *)
Lemma uniform_not_nan (n : nat) : is_nan (1 / F64.of_nat n)%float = false.
Proof.
  apply is_nan_false_spec. rewrite FloatAxioms.div_spec.
  change (Prim2SF 1) with (S754_finite false 4503599627370496 (-52)).
  apply SFdiv_finite_not_nan, is_nan_false_spec, of_uint63_not_nan.
Qed.

End F64Facts.

(** ** Lemmas on the array library *)

Section ArrayLemmas.

Implicit Types (d da db : list float) (s : list nat).

Lemma row_length c d i : (i + 1) * c <= length d -> length (row c d i) = c.
Proof.
  intros H. unfold row. rewrite length_take, length_drop. lia.
Qed.

Lemma row_0 c d : length d = c -> row c d 0 = d.
Proof.
  intros H. unfold row. simpl. rewrite <- H. apply firstn_all.
Qed.

Lemma row_S c d i : row c d (S i) = row c (skipn c d) i.
Proof.
  unfold row. rewrite drop_drop. done.
Qed.

Lemma row_lookup c d i j : j < c -> row c d i !! j = d !! (i * c + j).
Proof.
  intros H. unfold row. by rewrite lookup_take_lt, lookup_drop.
Qed.

Lemma flat_map_seq_S {A} (g : nat -> list A) n :
  flat_map g (seq 0 (S n)) = g 0 ++ flat_map (fun i => g (S i)) (seq 0 n).
Proof.
  simpl. f_equal. rewrite <- seq_shift. rewrite flat_map_concat_map, map_map.
  by rewrite <- flat_map_concat_map.
Qed.

Lemma flat_map_seq_ext {A} (g h : nat -> list A) n :
  (forall i, i < n -> g i = h i) ->
  flat_map g (seq 0 n) = flat_map h (seq 0 n).
Proof.
  intros H. rewrite !flat_map_concat_map. f_equal.
  apply map_ext_in. intros i Hi. apply H. apply in_seq in Hi. lia.
Qed.

Lemma length_flat_map_uniform {A} (g : nat -> list A) c n :
  (forall i, i < n -> length (g i) = c) ->
  length (flat_map g (seq 0 n)) = n * c.
Proof.
  revert g. induction n as [|n IH]; intros g H; [done|].
  rewrite flat_map_seq_S, length_app, H by lia.
  rewrite IH; [lia|]. intros i Hi. apply H. lia.
Qed.

Lemma lookup_flat_map_uniform {A} (g : nat -> list A) c n i j :
  (forall i, i < n -> length (g i) = c) -> i < n -> j < c ->
  flat_map g (seq 0 n) !! (i * c + j) = g i !! j.
Proof.
  revert g i. induction n as [|n IH]; intros g i H Hi Hj; [lia|].
  rewrite flat_map_seq_S. destruct i as [|i].
  - simpl. rewrite lookup_app_l; [done|]. rewrite H; lia.
  - rewrite lookup_app_r; rewrite H by lia; [|lia].
    replace (S i * c + j - c) with (i * c + j) by lia.
    apply (IH (fun i => g (S i))); [|lia|done].
    intros k Hk. apply H. lia.
Qed.

Lemma zip_with_rows (f : float -> float -> float) c n da db :
  length da = n * c -> length db = n * c ->
  flat_map (fun i => zip_with f (row c da i) (row c db i)) (seq 0 n)
  = zip_with f da db.
Proof.
  revert da db. induction n as [|n IH]; intros da db Ha Hb.
  - simpl in *. apply nil_length_inv in Ha. by subst da.
  - rewrite flat_map_seq_S.
    transitivity (zip_with f (take c da ++ drop c da) (take c db ++ drop c db));
      [|by rewrite !take_drop].
    rewrite zip_with_app by (rewrite !length_take; lia).
    f_equal. rewrite <- (IH (skipn c da) (skipn c db)).
    + apply flat_map_ext. intros i. by rewrite !row_S.
    + rewrite length_drop. lia.
    + rewrite length_drop. lia.
Qed.


(** *** Broadcasting *)

Lemma broadcast_shapes_refl s : broadcast_shapes s s = Some s.
Proof.
  induction s as [|x s IH]; [done|]. simpl. rewrite IH.
  by rewrite Nat.eqb_refl.
Qed.

(** Equal shapes: the ufunc is applied entry by entry. *)
Lemma broadcast_data_same f s da db :
  length da = size_of s -> length db = size_of s ->
  broadcast_data f s s da db = zip_with f da db.
Proof.
  revert da db. induction s as [|x s IH]; intros da db Ha Hb.
  - simpl in *. by destruct da as [|a [|? ?]], db as [|b [|? ?]].
  - simpl in Ha, Hb. cbn [broadcast_data].
    replace (if x =? 1 then x else x) with x by (by destruct (x =? 1)).
    rewrite <- (zip_with_rows f (size_of s) x da db) by done.
    apply flat_map_seq_ext. intros i Hi.
    replace (if x =? 1 then 0 else i) with i.
    2:{ destruct (Nat.eqb_spec x 1); lia. }
    apply IH; apply row_length; nia.
Qed.






Lemma nd_ok_spec a : nd_ok a = true <-> length (data a) = size_of (shape a).
Proof. unfold nd_ok. apply Nat.eqb_eq. Qed.

Lemma pad_shape_same s : pad_shape (length s) s = s.
Proof. unfold pad_shape. by rewrite Nat.sub_diag. Qed.




(** An array against one row: the row is reused for every leading index. *)
Lemma np_binop_rows_r f a b n0 rest :
  shape a = n0 :: rest -> shape b = rest ->
  nd_ok a = true -> nd_ok b = true ->
  np_binop f a b
  = inr (Nd (n0 :: rest)
           (flat_map (fun i => zip_with f (row (size_of rest) (data a) i) (data b))
                     (seq 0 n0))).
Proof.
  intros Hsa Hsb Ha%nd_ok_spec Hb%nd_ok_spec. unfold np_binop, ndim.
  rewrite Hsa, Hsb in *. simpl length.
  replace (S (length rest) `max` length rest) with (S (length rest)) by lia.
  unfold pad_shape. simpl length.
  replace (S (length rest) - length rest) with 1 by lia.
  rewrite Nat.sub_diag. simpl app. cbn [broadcast_shapes]. rewrite broadcast_shapes_refl.
  assert (Hs : (if n0 =? 1 then Some (n0 :: rest)
                else if n0 =? 1 then Some (1 :: rest)
                else if 1 =? 1 then Some (n0 :: rest) else None)
               = Some (n0 :: rest)) by (by destruct (n0 =? 1)).
  rewrite Hs. do 2 f_equal. cbn [broadcast_data]. simpl (1 =? 1). cbv iota.
  assert (Hn : (if n0 =? 1 then 1 else n0) = n0).
  { destruct (Nat.eqb_spec n0 1); lia. }
  rewrite Hn. apply flat_map_seq_ext. intros i Hi.
  replace (if n0 =? 1 then 0 else i) with i.
  2:{ destruct (Nat.eqb_spec n0 1); lia. }
  rewrite (row_0 _ (data b)) by done.
  apply broadcast_data_same; [|done]. apply row_length. simpl in Ha. nia.
Qed.


End ArrayLemmas.

(** ** Rules of the monad *)

Section Rules.

Context {A B : Type}.

Lemma wp_ret (a : A) st (Q : A -> state -> Prop) : Q a st -> wp (ret a) st Q.
Proof. done. Qed.

Lemma wp_bind (m : M A) (k : A -> M B) st (Q : B -> state -> Prop) :
  wp m st (fun a st' => wp (k a) st' Q) -> wp (bind m k) st Q.
Proof.
  unfold wp, bind. destruct (m st) as [[e|a] st']; done.
Qed.

Lemma wp_mono (m : M A) st (Q Q' : A -> state -> Prop) :
  wp m st Q -> (forall a st', Q a st' -> Q' a st') -> wp m st Q'.
Proof.
  unfold wp. destruct (m st) as [[e|a] st']; [done|]. intros H HQ. by apply HQ.
Qed.

Lemma wp_run (m : M A) st (Q : A -> state -> Prop) :
  wp m st Q -> exists a st', m st = (inr a, st') /\ Q a st'.
Proof.
  unfold wp. destruct (m st) as [[e|a] st']; [done|]. intros H. by exists a, st'.
Qed.


Lemma wp_lift (r : exn + A) a st (Q : A -> state -> Prop) :
  r = inr a -> Q a st -> wp (lift r) st Q.
Proof. by intros ->. Qed.

End Rules.

Lemma wp_alloc o st (Q : loc -> state -> Prop) :
  Q (length (heap st)) (St (heap st ++ [o]) (warnings st)) -> wp (alloc o) st Q.
Proof. done. Qed.

Lemma wp_read l o st (Q : obj -> state -> Prop) :
  heap st !! l = Some o -> Q o st -> wp (read l) st Q.
Proof. unfold wp, read. by intros ->. Qed.

Lemma wp_write l o st (Q : unit -> state -> Prop) :
  Q tt (St (<[l := o]> (heap st)) (warnings st)) -> wp (write l o) st Q.
Proof. done. Qed.


Lemma wp_read_num l a st (Q : ndarray -> state -> Prop) :
  num_at (heap st) l = Some a -> Q a st -> wp (read_num l) st Q.
Proof.
  unfold num_at. intros H HQ. apply wp_bind.
  destruct (heap st !! l) as [[b|c]|] eqn:E; try done.
  apply (wp_read _ _ _ _ E). by simplify_eq.
Qed.

Lemma wp_read_obj l cells st (Q : list (option loc) -> state -> Prop) :
  heap st !! l = Some (OObj cells) -> Q cells st -> wp (read_obj l) st Q.
Proof.
  intros H HQ. apply wp_bind. by apply (wp_read _ _ _ _ H).
Qed.

Lemma wp_get_cell l cells i c st (Q : option loc -> state -> Prop) :
  heap st !! l = Some (OObj cells) -> cells !! i = Some c ->
  Q c st -> wp (get_cell l i) st Q.
Proof.
  intros H Hc HQ. apply wp_bind. apply (wp_read_obj _ _ _ _ H).
  rewrite Hc. done.
Qed.

Lemma wp_set_cell l cells i c st (Q : unit -> state -> Prop) :
  heap st !! l = Some (OObj cells) -> i < length cells ->
  Q tt (St (<[l := OObj (<[i := c]> cells)]> (heap st)) (warnings st)) ->
  wp (set_cell l i c) st Q.
Proof.
  intros H Hi HQ. apply wp_bind. apply (wp_read_obj _ _ _ _ H).
  apply Nat.ltb_lt in Hi. rewrite Hi. by apply wp_write.
Qed.

Lemma wp_cell_array e l a st (Q : ndarray -> state -> Prop) :
  num_at (heap st) l = Some a -> Q a st -> wp (cell_array e (Some l)) st Q.
Proof. apply wp_read_num. Qed.

(** A loop with an invariant indexed by the number of iterations done. *)
Lemma wp_for_each {A} (I : nat -> state -> Prop) (xs : list A)
    (body : A -> M unit) st :
  I 0 st ->
  (forall k x st', xs !! k = Some x -> I k st' ->
     wp (body x) st' (fun _ st'' => I (S k) st'')) ->
  wp (for_each xs body) st (fun _ st' => I (length xs) st').
Proof.
  revert I st. induction xs as [|x xs IH]; intros I st H0 Hstep; [done|].
  simpl. apply wp_bind.
  eapply wp_mono; [apply (Hstep 0 x st); done|].
  intros u st' H1. simpl in H1.
  apply (IH (fun k => I (S k))); [done|].
  intros k y st'' Hy HI. by apply (Hstep (S k)).
Qed.

Lemma wp_for_range (I : nat -> state -> Prop) n (body : nat -> M unit) st :
  I 0 st ->
  (forall k st', k < n -> I k st' ->
     wp (body k) st' (fun _ st'' => I (S k) st'')) ->
  wp (for_each (seq 0 n) body) st (fun _ st' => I n st').
Proof.
  intros H0 Hstep.
  eapply wp_mono.
  - apply (wp_for_each I); [done|].
    intros k x st' Hx HI. apply lookup_seq in Hx as [-> Hk].
    by apply Hstep.
  - intros u st'. by rewrite length_seq.
Qed.

(** ** Lemmas on the heap *)

Lemma num_at_lt h l a : num_at h l = Some a -> l < length h.
Proof.
  unfold num_at. destruct (h !! l) eqn:E; [|done].
  intros _. by eapply lookup_lt_Some.
Qed.

Lemma num_at_lookup h l a : num_at h l = Some a <-> h !! l = Some (ONum a).
Proof.
  unfold num_at. destruct (h !! l) as [[b|c]|]; split; intros H; by simplify_eq.
Qed.

Lemma num_at_prefix h h' l a :
  num_at h l = Some a -> h `prefix_of` h' -> num_at h' l = Some a.
Proof.
  rewrite !num_at_lookup. intros H Hp. by eapply prefix_lookup_Some.
Qed.

Lemma num_at_app h new l a :
  num_at h l = Some a -> num_at (h ++ new) l = Some a.
Proof. intros H. eapply num_at_prefix; [done|]. by apply prefix_app_r. Qed.

Lemma num_at_alloc h a : num_at (h ++ [ONum a]) (length h) = Some a.
Proof. apply num_at_lookup. by rewrite list_lookup_middle. Qed.

Lemma lookup_alloc (h : list obj) o : (h ++ [o]) !! length h = Some o.
Proof. by rewrite list_lookup_middle. Qed.

Lemma num_at_insert_obj h l out c0 c :
  h !! out = Some (OObj c0) ->
  num_at (<[out := OObj c]> h) l = num_at h l.
Proof.
  intros H. unfold num_at. destruct (decide (out = l)) as [Heq|Hne].
  - subst l. rewrite list_lookup_insert_eq by (by eapply lookup_lt_Some).
    by rewrite H.
  - by rewrite list_lookup_insert_ne.
Qed.

Lemma prefix_insert_ge (h0 h : list obj) l o :
  h0 `prefix_of` h -> length h0 <= l -> h0 `prefix_of` <[l := o]> h.
Proof.
  intros [new ->] Hl. exists (<[l - length h0 := o]> new).
  by rewrite insert_app_r_alt.
Qed.

Lemma extends_refl st : extends st st.
Proof. by split. Qed.

Lemma extends_trans st1 st2 st3 :
  extends st1 st2 -> extends st2 st3 -> extends st1 st3.
Proof.
  intros [H1 W1] [H2 W2]. split; [by etrans|congruence].
Qed.

Lemma extends_alloc st o : extends st (St (heap st ++ [o]) (warnings st)).
Proof. split; [by apply prefix_app_r|done]. Qed.

Lemma extends_length st st' : extends st st' -> length (heap st) <= length (heap st').
Proof. intros [H _]. by apply prefix_length. Qed.

Lemma extends_lookup st st' l o :
  extends st st' -> heap st !! l = Some o -> heap st' !! l = Some o.
Proof. intros [H _] Hl. by eapply prefix_lookup_Some. Qed.

Lemma extends_num st st' l a :
  extends st st' -> num_at (heap st) l = Some a -> num_at (heap st') l = Some a.
Proof. intros [H _] Hl. by eapply num_at_prefix. Qed.

Lemma extends_app st st' :
  extends st st' -> exists new, heap st' = heap st ++ new.
Proof. by intros [[new ->] _]; exists new. Qed.

(** *** Cells and the arrays they refer to *)

Lemma cells_at_intro h locs els :
  Forall2 (num_in h) locs els -> cells_at h (map Some locs) = Some els.
Proof.
  induction 1 as [|l a locs els Hl HF IH]; [done|].
  simpl. unfold num_in in Hl. by rewrite Hl, IH.
Qed.

Lemma cells_at_elim h cells els :
  cells_at h cells = Some els ->
  exists locs, cells = map Some locs /\ Forall2 (num_in h) locs els.
Proof.
  revert els. induction cells as [|c cells IH]; intros els; simpl.
  - intros [= <-]. by exists [].
  - destruct c as [l|]; [|done].
    destruct (num_at h l) as [a|] eqn:Ea; [|done].
    destruct (cells_at h cells) as [r|] eqn:Er; [|done].
    intros [= <-]. destruct (IH r eq_refl) as (locs & -> & HF).
    exists (l :: locs). split; [done|]. by constructor.
Qed.

Lemma cells_at_Forall2 h cells els :
  cells_at h cells = Some els <->
  exists locs, cells = map Some locs /\ Forall2 (num_in h) locs els.
Proof.
  split; [apply cells_at_elim|]. intros (locs & -> & HF). by apply cells_at_intro.
Qed.

Lemma cells_at_length h cells els :
  cells_at h cells = Some els -> length cells = length els.
Proof.
  intros (locs & -> & HF)%cells_at_Forall2.
  rewrite length_map. by eapply Forall2_length.
Qed.

Lemma cells_at_lookup h cells els i :
  cells_at h cells = Some els -> i < length cells ->
  exists l a, cells !! i = Some (Some l) /\ num_at h l = Some a /\ els !! i = Some a.
Proof.
  intros (locs & -> & HF)%cells_at_Forall2 Hi. rewrite length_map in Hi.
  destruct (lookup_lt_is_Some_2 locs i Hi) as [l Hl].
  destruct (Forall2_lookup_l _ _ _ _ _ HF Hl) as (a & Ha & Hn).
  exists l, a. rewrite list_lookup_fmap, Hl. done.
Qed.

Lemma Forall2_num_in_impl h h' locs els :
  (forall l a, num_at h l = Some a -> num_at h' l = Some a) ->
  Forall2 (num_in h) locs els -> Forall2 (num_in h') locs els.
Proof. intros H HF. eapply Forall2_impl; [done|]. intros l a. apply H. Qed.

Lemma cells_at_prefix h h' cells els :
  cells_at h cells = Some els -> h `prefix_of` h' -> cells_at h' cells = Some els.
Proof.
  intros (locs & -> & HF)%cells_at_Forall2 Hp. apply cells_at_intro.
  eapply Forall2_num_in_impl; [|done]. intros l a Hl. by eapply num_at_prefix.
Qed.

Lemma tensors_at_prefix h h' l t :
  tensors_at h l = Some t -> h `prefix_of` h' -> tensors_at h' l = Some t.
Proof.
  unfold tensors_at. intros H Hp.
  destruct (h !! l) as [o|] eqn:E; [|done].
  rewrite (prefix_lookup_Some _ _ _ _ E Hp).
  destruct o as [a|cells]; [done|].
  destruct (cells_at h cells) as [els|] eqn:Ec; [|done].
  by rewrite (cells_at_prefix _ _ _ _ Ec Hp).
Qed.

Lemma store_at_prefix h h' d t :
  store_at h d = Some t -> h `prefix_of` h' -> store_at h' d = Some t.
Proof.
  unfold store_at. intros H Hp.
  destruct (tensors_at h (values d)) as [t0|] eqn:E; [|done].
  by rewrite (tensors_at_prefix _ _ _ _ E Hp).
Qed.

Lemma tensors_at_dense h l a :
  tensors_at h l = Some (Dense a) <-> num_at h l = Some a.
Proof.
  unfold tensors_at. rewrite num_at_lookup.
  destruct (h !! l) as [[b|cells]|].
  - split; intros [= ->]; done.
  - split; [|done]. by destruct (cells_at h cells).
  - done.
Qed.

Lemma tensors_at_ragged h l els :
  tensors_at h l = Some (Ragged els) <->
  exists cells, h !! l = Some (OObj cells) /\ cells_at h cells = Some els.
Proof.
  unfold tensors_at.
  destruct (h !! l) as [[b|cells]|]; split; try done.
  - by intros (? & ? & _).
  - destruct (cells_at h cells) as [r|] eqn:E; [|done]. intros [= <-]. by exists cells.
  - intros (c & [= <-] & ->). done.
  - by intros (? & ? & _).
Qed.

Lemma store_at_dense h d a :
  store_at h d = Some (Dense a) <-> IS_AOA d = false /\ num_at h (values d) = Some a.
Proof.
  unfold store_at. rewrite <- tensors_at_dense.
  destruct (tensors_at h (values d)) as [[b|els]|], (IS_AOA d);
    split; try done; try (by intros [? ?]);
    try (by intros [= ->]); try (by intros [_ [= ->]]).
Qed.

Lemma store_at_ragged h d els :
  store_at h d = Some (Ragged els) <->
  IS_AOA d = true /\ tensors_at h (values d) = Some (Ragged els).
Proof.
  unfold store_at.
  destruct (tensors_at h (values d)) as [[b|r]|], (IS_AOA d);
    split; try done; try (by intros [? ?]);
    try (by intros [= ->]); try (by intros [_ [= ->]]).
Qed.

(** *** Filling an object array *)

Lemma filled_init h out base results :
  h !! out = Some (OObj base) -> filled h out base results 0.
Proof. intros H. exists []. split; [done|]. simpl. constructor. Qed.

Lemma filled_done h out base results :
  length base = length results ->
  filled h out base results (length results) ->
  tensors_at h out = Some (Ragged results).
Proof.
  intros Hlen (locs & Hout & HF). apply tensors_at_ragged.
  rewrite <- Hlen, skipn_all, app_nil_r in Hout.
  rewrite firstn_all in HF.
  exists (map Some locs). split; [done|]. by apply cells_at_intro.
Qed.

Lemma filled_prefix h h' out base results k :
  filled h out base results k -> h `prefix_of` h' ->
  filled h' out base results k.
Proof.
  intros (locs & Hout & HF) Hp. exists locs. split.
  - by eapply prefix_lookup_Some.
  - eapply Forall2_num_in_impl; [|done]. intros l a Hl. by eapply num_at_prefix.
Qed.

(** One iteration: cell [k] is bound to an array holding [x]. *)
Lemma wp_fill_cell h out base results k r x st (Q : unit -> state -> Prop) :
  heap st = h ->
  filled h out base results k ->
  length base = length results ->
  results !! k = Some x ->
  num_at h r = Some x ->
  (forall cells,
     h !! out = Some (OObj cells) ->
     let h' := <[out := OObj (<[k := Some r]> cells)]> h in
     filled h' out base results (S k) ->
     Q tt (St h' (warnings st))) ->
  wp (set_cell out k (Some r)) st Q.
Proof.
  intros <- (locs & Hout & HF) Hlen Hk Hr HQ.
  assert (Hk' : k < length results) by (by eapply lookup_lt_Some).
  assert (Hll : length locs = k).
  { apply Forall2_length in HF. rewrite length_take in HF. lia. }
  eapply wp_set_cell; [done| |].
  { rewrite length_app, length_map, length_drop. lia. }
  apply HQ; [done|].
  exists (locs ++ [r]). split.
  - rewrite list_lookup_insert_eq by (by eapply lookup_lt_Some).
    do 2 f_equal. rewrite map_app, <- app_assoc. simpl.
    rewrite insert_app_r_alt; rewrite length_map; [|lia].
    rewrite Hll, Nat.sub_diag. f_equal.
    destruct (drop k base) as [|b rest] eqn:Ed.
    { apply (f_equal length) in Ed. rewrite length_drop in Ed. simpl in Ed. lia. }
    simpl. f_equal.
    change rest with (drop 1 (b :: rest)). rewrite <- Ed, drop_drop.
    f_equal. lia.
  - rewrite (take_S_r _ _ _ Hk). apply Forall2_app.
    + eapply Forall2_num_in_impl; [|done]. intros l a Hl.
      unfold num_in. by erewrite num_at_insert_obj.
    + constructor; [|constructor]. unfold num_in.
      by erewrite num_at_insert_obj.
Qed.

(** ** The constructor *)

Lemma promote_shape_ge2 a : 2 <= ndim a -> promote a = a.
Proof.
  unfold promote. intros H. destruct (Nat.eqb_spec (ndim a) 1); [lia|done].
Qed.


(** [Dirichlet(values=v)] for a numeric array: the store holds a copy of
    the rank-promoted array; nothing else changes. *)
Lemma wp_init_num st v a (Q : Dirichlet -> state -> Prop) :
  num_at (heap st) v = Some a ->
  (forall st' sv,
     extends st st' -> length (heap st) <= sv ->
     num_at (heap st') sv = Some (promote a) ->
     Q (mkDirichlet false sv) st') ->
  wp (__init__ PyNone (PyArr v)) st Q.
Proof.
  intros Hv HQ. unfold __init__. simpl. unfold construct_values.
  apply wp_bind. apply num_at_lookup in Hv.
  apply (wp_read _ _ _ _ Hv). simpl. unfold promote in HQ.
  apply wp_bind. destruct (ndim a =? 1).
  - apply wp_alloc. simpl. apply wp_bind.
    eapply wp_read_num; [apply num_at_alloc|].
    apply wp_bind. apply wp_alloc. simpl. apply wp_ret.
    apply HQ.
    + split; [|done]. simpl. rewrite <- app_assoc. by apply prefix_app_r.
    + rewrite length_app. lia.
    + simpl. apply num_at_alloc.
  - apply wp_ret. apply wp_bind.
    eapply wp_read_num; [by apply num_at_lookup|].
    apply wp_bind. apply wp_alloc. simpl. apply wp_ret.
    apply HQ.
    + apply extends_alloc.
    + done.
    + simpl. apply num_at_alloc.
Qed.

(** ** Column operations *)

Section Columns.

Variable fsum : list float -> float.

Lemma tensor_ok_inv a :
  tensor_ok a = true ->
  exists n0 rest, shape a = n0 :: rest /\ 1 <= length rest /\
    length (data a) = n0 * size_of rest /\ nd_ok a = true.
Proof.
  unfold tensor_ok. intros [Hok Hr%Nat.leb_le]%andb_true_iff.
  unfold ndim in Hr. destruct (shape a) as [|n0 rest] eqn:E; simpl in Hr; [lia|].
  exists n0, rest. repeat split; [lia| |done].
  apply nd_ok_spec in Hok. by rewrite Hok, E.
Qed.

Lemma entry_lookup a i j x :
  data a !! (i * ncols a + j) = Some x -> entry a i j = x.
Proof. unfold entry. apply nth_lookup_Some. Qed.

Lemma np_sum0_shape a n0 rest :
  shape a = n0 :: rest ->
  np_sum0 fsum a
  = inr (Nd rest (map (fun j => col_sum fsum a j) (seq 0 (size_of rest)))).
Proof.
  intros E. unfold np_sum0, col_sum, ncols, nrows. by rewrite E.
Qed.

(** The quotient by the column sums, entry by entry. *)
Lemma rows_r_lookup (f : float -> float -> float) a (sums : list float) n0 rest i j :
  shape a = n0 :: rest -> length (data a) = n0 * size_of rest ->
  length sums = size_of rest ->
  i < n0 -> j < size_of rest ->
  flat_map (fun i => zip_with f (row (size_of rest) (data a) i) sums) (seq 0 n0)
    !! (i * size_of rest + j)
  = Some (f (entry a i j) (nth j sums 0%float)).
Proof.
  intros E Hd Hs Hi Hj.
  rewrite (lookup_flat_map_uniform _ (size_of rest)); [|..|done|done].
  2:{ intros k Hk. rewrite length_zip_with, row_length; [lia|]. nia. }
  rewrite lookup_zip_with, row_lookup by done.
  assert (Hlt : i * size_of rest + j < length (data a)) by nia.
  destruct (lookup_lt_is_Some_2 _ _ Hlt) as [x Hx].
  assert (Hj' : j < length sums) by lia.
  destruct (lookup_lt_is_Some_2 _ _ Hj') as [y Hy].
  rewrite Hx, Hy. simpl. f_equal. f_equal.
  - symmetry. apply entry_lookup. unfold ncols. by rewrite E.
  - symmetry. by apply nth_lookup_Some.
Qed.


Lemma nth_col_sums a j c :
  j < c -> nth j (map (fun j => col_sum fsum a j) (seq 0 c)) 0%float = col_sum fsum a j.
Proof.
  intros Hj. apply nth_lookup_Some.
  rewrite list_lookup_fmap, lookup_seq_lt by done. done.
Qed.

Lemma normalize_array_spec a :
  tensor_ok a = true ->
  exists r, normalize_array fsum a = inr r /\
    normalized_of fsum a r /\ no_nan r.
Proof.
  intros (n0 & rest & E & Hrest & Hd & Hok)%tensor_ok_inv.
  unfold normalize_array. rewrite (np_sum0_shape a n0 rest E).
  set (sums := map _ _).
  assert (Hls : length sums = size_of rest).
  { unfold sums. by rewrite length_map, length_seq. }
  rewrite (np_binop_rows_r _ a (Nd rest sums) n0 rest E eq_refl Hok).
  2:{ by apply nd_ok_spec. }
  simpl. eexists. split; [done|]. split.
  - unfold normalized_of, fill_nan, nd_map. simpl. split; [done|]. split.
    + apply nd_ok_spec. simpl. rewrite length_map.
      rewrite (length_flat_map_uniform _ (size_of rest)); [done|].
      intros k Hk. rewrite length_zip_with, row_length; [lia|]. nia.
    + intros i j Hi Hj. unfold nrows, ncols in Hi, Hj |- *. rewrite E in *.
      simpl in Hi, Hj |- *.
      apply entry_lookup. unfold ncols. simpl.
      rewrite list_lookup_fmap.
      rewrite (rows_r_lookup _ a sums n0 rest i j E Hd Hls Hi Hj). simpl.
      unfold sums. rewrite nth_col_sums by done. done.
  - unfold no_nan, fill_nan, nd_map. simpl. apply List.Forall_map.
    apply Forall_true. intros y.
    destruct (is_nan y) eqn:Ey; [|done]. apply F64Facts.uniform_not_nan.
Qed.

End Columns.

(** ** normalize *)

Lemma Forall_exists_Forall2 {A B} (P : A -> Prop) (R : A -> B -> Prop) l :
  Forall P l -> (forall a, P a -> exists b, R a b) ->
  exists k, Forall2 R l k.
Proof.
  intros HF HR. induction HF as [|a l Ha HF [k IH]].
  - exists []. constructor.
  - destruct (HR a Ha) as [b Hb]. exists (b :: k). by constructor.
Qed.

Lemma tensors_ok_ragged els :
  tensors_ok (Ragged els) = true -> Forall (fun a => tensor_ok a = true) els.
Proof. simpl. intros H. apply Forall_forall. intros a Ha%list_elem_of_In.
  rewrite forallb_forall in H. by apply H. Qed.

Section Normalize.

Variable fsum : list float -> float.

Lemma wp_normalize st self t (Q : loc -> state -> Prop) :
  store_at (heap st) self = Some t -> tensors_ok t = true ->
  (forall st' l t',
     extends st st' -> length (heap st) <= l ->
     tensors_at (heap st') l = Some t' ->
     tensors_rel (normalized_of fsum) t t' ->
     tensors_all no_nan t' ->
     Q l st') ->
  wp (normalize fsum self) st Q.
Proof.
  intros Hs Hok HQ. unfold normalize. destruct t as [a|els].
  - apply store_at_dense in Hs as [-> Ha]. simpl in Hok.
    destruct (normalize_array_spec fsum a Hok) as (r & Hr & Hn & Hnan).
    apply wp_bind. apply (wp_read_num _ _ _ _ Ha).
    apply wp_bind. apply wp_alloc. simpl.
    apply wp_bind. apply (wp_lift _ _ _ _ Hr).
    apply wp_alloc. simpl. apply (HQ _ _ (Dense r)).
    + split; [|done]. simpl. rewrite <- app_assoc. by apply prefix_app_r.
    + rewrite length_app. lia.
    + simpl. apply tensors_at_dense. apply num_at_alloc.
    + done.
    + done.
  - apply store_at_ragged in Hs as [-> Ht].
    apply tensors_at_ragged in Ht as (cells & Hc & Hels).
    apply tensors_ok_ragged in Hok.
    destruct (Forall_exists_Forall2 _
      (fun a r => normalize_array fsum a = inr r /\ normalized_of fsum a r /\ no_nan r)
      els Hok (normalize_array_spec fsum)) as [rs Hrs].
    pose proof (cells_at_length _ _ _ Hels) as Hlen.
    pose proof (Forall2_length _ _ _ Hrs) as Hlen2.
    apply wp_bind. apply (wp_read_obj _ _ _ _ Hc).
    apply wp_bind. apply wp_alloc. simpl.
    set (out := length (heap st)).
    set (n := length cells).
    apply wp_bind.
    eapply wp_mono.
    { apply (wp_for_range (fun k st' =>
        heap st `prefix_of` heap st' /\ warnings st' = warnings st /\
        filled (heap st') out (replicate n None) rs k)).
      - simpl. split; [by apply prefix_app_r|]. split; [done|].
        apply filled_init. apply lookup_alloc.
      - intros k st' Hk (Hp & Hw & Hf).
        destruct (cells_at_lookup _ _ _ k Hels Hk) as (l & ak & Hck & Hl & Hak).
        destruct (Forall2_lookup_l _ _ _ _ _ Hrs Hak) as (rk & Hrk & Hnk & _).
        apply wp_bind. eapply wp_get_cell; [by eapply prefix_lookup_Some|done|].
        apply wp_bind. eapply wp_cell_array; [by eapply num_at_prefix|].
        apply wp_bind. apply (wp_lift _ _ _ _ Hnk).
        apply wp_bind. apply wp_alloc. simpl.
        eapply (wp_fill_cell _ out _ rs k); simpl; [done| | |done| |].
        + eapply filled_prefix; [done|]. by apply prefix_app_r.
        + rewrite length_replicate. unfold n. lia.
        + apply num_at_alloc.
        + intros cells0 Hc0 Hf'. split; [|done].
          apply prefix_insert_ge; [|unfold out; by apply prefix_length].
          etrans; [done|]. by apply prefix_app_r. }
    intros u st' (Hp & Hw & Hf). simpl. apply wp_ret.
    apply (HQ _ _ (Ragged rs)).
    + by split.
    + done.
    + apply (filled_done _ _ (replicate n None)).
      * rewrite length_replicate. unfold n. lia.
      * replace (length rs) with n by (unfold n; lia). done.
    + simpl. eapply Forall2_impl; [done|]. by intros a r (_ & H & _).
    + simpl. apply Forall_forall. intros r Hr.
      apply list_elem_of_lookup in Hr as [i Hi].
      destruct (Forall2_lookup_r _ _ _ _ _ Hrs Hi) as (a & _ & _ & _ & H). done.
Qed.

End Normalize.

(** ** remove_zeros *)

Lemma same_except_refl l h : same_except l h h.
Proof. by split. Qed.

Lemma same_except_app l h h' new :
  same_except l h h' -> same_except l h (h' ++ new).
Proof.
  intros [Hlen H]. split; [rewrite length_app; lia|].
  intros l' Hl' Hne. rewrite lookup_app_l by lia. by apply H.
Qed.

Lemma same_except_insert l h h' o :
  same_except l h h' -> same_except l h (<[l := o]> h').
Proof.
  intros [Hlen H]. split; [by rewrite length_insert|].
  intros l' Hl' Hne. rewrite list_lookup_insert_ne by done. by apply H.
Qed.

Lemma same_except_num l h h' c l' a :
  same_except l h h' -> h !! l = Some (OObj c) ->
  num_at h l' = Some a -> num_at h' l' = Some a.
Proof.
  intros [Hlen H] Hl Ha. pose proof (num_at_lt _ _ _ Ha) as Hlt.
  apply num_at_lookup in Ha. apply num_at_lookup.
  rewrite H; [done|done|]. intros ->. congruence.
Qed.

Lemma same_except_prefix l h0 h h' :
  same_except l h h' -> h0 `prefix_of` h -> length h0 <= l -> h0 `prefix_of` h'.
Proof.
  intros [Hlen H] Hp Hl. exists (drop (length h0) h').
  rewrite <- (take_drop (length h0) h') at 1. f_equal.
  apply list_eq. intros i. destruct (decide (i < length h0)) as [Hi|Hi].
  - rewrite lookup_take_lt by done.
    pose proof (prefix_length _ _ Hp).
    rewrite H by lia.
    destruct (lookup_lt_is_Some_2 h0 i Hi) as [o Ho].
    rewrite Ho. by eapply prefix_lookup_Some.
  - rewrite lookup_take_ge by lia. symmetry. apply lookup_ge_None. lia.
Qed.

Lemma filled_next h out base results k :
  filled h out base results k -> k <= length results ->
  exists cells, h !! out = Some (OObj cells) /\ cells !! k = base !! k.
Proof.
  intros (locs & Hout & HF) Hk. eexists. split; [done|].
  apply Forall2_length in HF. rewrite length_take in HF.
  rewrite lookup_app_r; rewrite length_map; [|lia].
  rewrite lookup_drop. f_equal. lia.
Qed.

Lemma wp_remove_zeros_dense st self a (Q : unit -> state -> Prop) :
  num_at (heap st) (values self) = Some a ->
  Q tt (St (<[values self := ONum (floored a)]> (heap st)) (warnings st)) ->
  wp (remove_zeros self) st Q.
Proof.
  intros Ha HQ. unfold remove_zeros. apply wp_bind.
  apply num_at_lookup in Ha. apply (wp_read _ _ _ _ Ha). by apply wp_write.
Qed.

Lemma wp_remove_zeros_ragged st self cells els (Q : unit -> state -> Prop) :
  heap st !! values self = Some (OObj cells) ->
  cells_at (heap st) cells = Some els ->
  (forall st',
     warnings st' = warnings st ->
     same_except (values self) (heap st) (heap st') ->
     tensors_at (heap st') (values self) = Some (Ragged (map floored els)) ->
     Q tt st') ->
  wp (remove_zeros self) st Q.
Proof.
  intros Hc Hels HQ. unfold remove_zeros. apply wp_bind.
  apply (wp_read _ _ _ _ Hc).
  pose proof (cells_at_length _ _ _ Hels) as Hlen.
  set (ls := values self) in *.
  eapply wp_mono.
  { apply (wp_for_range (fun k st' =>
      warnings st' = warnings st /\ same_except ls (heap st) (heap st') /\
      filled (heap st') ls cells (map floored els) k)).
    - split; [done|]. split; [apply same_except_refl|]. by apply filled_init.
    - intros k st' Hk (Hw & Hse & Hf).
      destruct (cells_at_lookup _ _ _ k Hels Hk) as (l & ak & Hck & Hl & Hak).
      destruct (filled_next _ _ _ _ _ Hf) as (cells' & Hc' & Hk').
      { rewrite length_map. lia. }
      apply wp_bind. eapply wp_get_cell; [done|by rewrite Hk'|].
      apply wp_bind. eapply wp_cell_array; [by eapply same_except_num|].
      apply wp_bind. apply wp_alloc. simpl.
      eapply (wp_fill_cell _ ls _ (map floored els) k); simpl; [done| | | | |].
      + eapply filled_prefix; [done|]. by apply prefix_app_r.
      + by rewrite length_map.
      + rewrite list_lookup_fmap, Hak. done.
      + apply num_at_alloc.
      + intros cells0 Hc0 Hf'. split; [done|]. split; [|done].
        by apply same_except_insert, same_except_app. }
  intros [] st' (Hw & Hse & Hf). apply HQ; [done|done|].
  apply (filled_done _ _ cells); [by rewrite length_map|].
  rewrite length_map, <- Hlen. done.
Qed.

(** ** The constructor on an object array *)

Lemma filled_insert_other h out base results k l c0 c :
  filled h out base results k -> out <> l -> h !! l = Some (OObj c0) ->
  filled (<[l := OObj c]> h) out base results k.
Proof.
  intros (locs & Hout & HF) Hne Hl. exists locs. split.
  - by rewrite list_lookup_insert_ne.
  - eapply Forall2_num_in_impl; [|done]. intros l' a Ha.
    by erewrite num_at_insert_obj.
Qed.

Lemma filled_skip h out base results k l x :
  filled h out base results k ->
  base !! k = Some (Some l) -> results !! k = Some x -> num_at h l = Some x ->
  filled h out base results (S k).
Proof.
  intros (locs & Hout & HF) Hb Hr Hl. exists (locs ++ [l]). split.
  - rewrite Hout, (drop_S _ _ _ Hb). do 2 f_equal.
    by rewrite map_app, <- app_assoc.
  - rewrite (take_S_r _ _ _ Hr). apply Forall2_app; [done|].
    by repeat constructor.
Qed.

Lemma filled_prev h out base results k x :
  filled h out base results (S k) -> results !! k = Some x ->
  exists cells l, h !! out = Some (OObj cells) /\
    cells !! k = Some (Some l) /\ num_at h l = Some x.
Proof.
  intros (locs & Hout & HF) Hr.
  rewrite (take_S_r _ _ _ Hr) in HF.
  apply Forall2_app_inv_r in HF as (locs1 & locs2 & HF1 & HF2 & ->).
  apply Forall2_cons_inv_r in HF2 as (l & locs3 & Hl & HF3 & ->).
  apply Forall2_nil_inv_r in HF3 as ->.
  exists (map Some (locs1 ++ [l]) ++ drop (S k) base), l.
  split; [done|]. split; [|done].
  apply Forall2_length in HF1. rewrite length_take in HF1.
  apply lookup_lt_Some in Hr.
  rewrite lookup_app_l by (rewrite length_map, length_app; simpl; lia).
  rewrite list_lookup_fmap, lookup_app_r by lia.
  replace (k - length locs1) with 0 by lia. done.
Qed.

Lemma same_except_insert_ge l h h' l' o :
  same_except l h h' -> length h <= l' -> same_except l h (<[l' := o]> h').
Proof.
  intros [Hlen H] Hl'. split; [by rewrite length_insert|].
  intros l0 Hl0 Hne. rewrite list_lookup_insert_ne by lia. by apply H.
Qed.

Lemma wp_init_obj st v cells els (Q : Dirichlet -> state -> Prop) :
  heap st !! v = Some (OObj cells) ->
  cells_at (heap st) cells = Some els ->
  (forall st' sv cells',
     warnings st' = warnings st ->
     same_except v (heap st) (heap st') ->
     length (heap st) <= sv ->
     heap st' !! v = Some (OObj cells') ->
     slots_promoted (length (heap st)) els cells cells' (length els) ->
     tensors_at (heap st') v = Some (Ragged (map promote els)) ->
     tensors_at (heap st') sv = Some (Ragged (map promote els)) ->
     Q (mkDirichlet true sv) st') ->
  wp (__init__ PyNone (PyArr v)) st Q.
Proof.
  intros Hv Hels HQ. unfold __init__. simpl. unfold construct_values.
  apply wp_bind. apply (wp_read _ _ _ _ Hv). simpl.
  apply wp_bind. apply wp_alloc. simpl.
  pose proof (cells_at_length _ _ _ Hels) as Hlen.
  pose proof (lookup_lt_Some _ _ _ Hv) as Hvlt.
  set (h0 := heap st). set (sv := length h0).
  set (results := map promote els).
  assert (Hlr : length results = length cells) by (unfold results; rewrite length_map; lia).
  set (Inv := fun k st' =>
    warnings st' = warnings st /\ same_except v h0 (heap st') /\
    filled (heap st') v cells results k /\
    filled (heap st') sv (replicate (length cells) None) results k /\
    exists cells', heap st' !! v = Some (OObj cells') /\
      slots_promoted (length h0) els cells cells' k).
  apply wp_bind. eapply wp_mono.
  { apply (wp_for_range Inv).
    - unfold Inv. simpl. split; [done|]. split; [by apply same_except_app, same_except_refl|].
      split; [apply filled_init; by apply lookup_app_l_Some|].
      split; [apply filled_init; apply lookup_alloc|].
      exists cells. split; [by apply lookup_app_l_Some|]. intros i a Hi. lia.
    - intros k st1 Hk (Hw & Hse & Hfv & Hfs & cells1 & Hc1 & Hsl).
      destruct (cells_at_lookup _ _ _ k Hels Hk) as (l & ak & Hck & Hl & Hak).
      assert (Hrk : results !! k = Some (promote ak)).
      { unfold results. by rewrite list_lookup_fmap, Hak. }
      destruct (filled_next _ _ _ _ _ Hfv) as (cells1' & Hc1' & Hk1); [lia|].
      assert (Hl1 : num_at (heap st1) l = Some ak) by (by eapply same_except_num).
      apply wp_bind. eapply wp_get_cell; [done|by rewrite Hk1|].
      apply wp_bind. apply (wp_cell_array _ _ _ _ _ Hl1).
      apply wp_bind.
      apply (wp_mono _ _ (fun _ st2 =>
        warnings st2 = warnings st /\ same_except v h0 (heap st2) /\
        filled (heap st2) v cells results (S k) /\
        filled (heap st2) sv (replicate (length cells) None) results k /\
        exists cells', heap st2 !! v = Some (OObj cells') /\
          slots_promoted (length h0) els cells cells' (S k))).
      + destruct (ndim ak =? 1) eqn:Erk.
        * apply wp_bind. apply wp_alloc. simpl.
          eapply (wp_fill_cell _ v cells results k); simpl; [done| |lia|done| |].
          -- eapply filled_prefix; [done|]. by apply prefix_app_r.
          -- unfold promote. rewrite Erk. apply num_at_alloc.
          -- intros cells0 Hc0 Hf'. split; [done|].
             split; [by apply same_except_insert, same_except_app|].
             split; [done|]. split.
             { eapply filled_insert_other; [|unfold sv, h0; lia|done].
               eapply filled_prefix; [done|]. by apply prefix_app_r. }
             eexists. split.
             { apply list_lookup_insert_eq. by eapply lookup_lt_Some. }
             rewrite lookup_app_l in Hc0 by (by eapply lookup_lt_Some).
             assert (cells0 = cells1) as -> by congruence.
             intros i a Hi Ha. destruct (decide (i = k)) as [->|Hne].
             ++ assert (a = ak) as -> by congruence. rewrite Erk.
                exists (length (heap st1)). split.
                ** apply list_lookup_insert_eq.
                   assert (cells1 !! k = Some (Some l)) as Hx by congruence.
                   by eapply lookup_lt_Some.
                ** destruct Hse as [Hse _]. done.
             ++ rewrite list_lookup_insert_ne by done. apply Hsl; [lia|done].
        * apply wp_ret. split; [done|]. split; [done|]. split.
          { eapply filled_skip; [done|done|done|].
            unfold promote. by rewrite Erk. }
          split; [done|]. exists cells1. split; [done|].
          intros i a Hi Ha. destruct (decide (i = k)) as [->|Hne].
          ++ assert (a = ak) as -> by congruence. rewrite Erk.
             assert (cells1 = cells1') as -> by congruence. done.
          ++ apply Hsl; [lia|done].
      + intros u st2 (Hw2 & Hse2 & Hfv2 & Hfs2 & cells2 & Hc2 & Hsl2).
        destruct (filled_prev _ _ _ _ _ _ Hfv2 Hrk) as (cells2' & l2 & Hc2' & Hk2 & Hl2).
        apply wp_bind. eapply wp_get_cell; [done|done|].
        apply wp_bind. apply (wp_cell_array _ _ _ _ _ Hl2).
        apply wp_bind. apply wp_alloc. simpl.
        eapply (wp_fill_cell _ sv _ results k); simpl; [done| | |done| |].
        * eapply filled_prefix; [done|]. by apply prefix_app_r.
        * rewrite length_replicate. lia.
        * apply num_at_alloc.
        * intros cells0 Hc0 Hf'. split; [done|].
          split; [apply same_except_insert_ge; [by apply same_except_app|done]|].
          split.
          { eapply filled_insert_other; [|unfold sv, h0; lia|done].
            eapply filled_prefix; [done|]. by apply prefix_app_r. }
          split; [done|]. exists cells2. split; [|done]. simpl.
          rewrite list_lookup_insert_ne by (unfold sv, h0; lia).
          by apply lookup_app_l_Some. }
  intros [] st' (Hw & Hse & Hfv & Hfs & cells' & Hc' & Hsl).
  apply wp_ret. apply (HQ _ _ cells'); try done.
  - by rewrite <- Hlen.
  - apply (filled_done _ _ cells); [by rewrite length_map|].
    fold results. by rewrite Hlr.
  - apply (filled_done _ _ (replicate (length cells) None)).
    + by rewrite length_replicate, length_map.
    + fold results. by rewrite Hlr.
Qed.

Lemma prefix_of_lookups (h h' : list obj) :
  length h <= length h' -> (forall l, l < length h -> h' !! l = h !! l) ->
  h `prefix_of` h'.
Proof.
  intros Hlen H. exists (drop (length h) h').
  rewrite <- (take_drop (length h) h') at 1. f_equal.
  apply list_eq. intros i. destruct (decide (i < length h)) as [Hi|Hi].
  - rewrite lookup_take_lt by done. by apply H.
  - rewrite lookup_take_ge by lia. symmetry. apply lookup_ge_None. lia.
Qed.

Lemma map_promote_ge2 els :
  Forall (fun a => 2 <= ndim a) els -> map promote els = els.
Proof.
  induction 1 as [|a els Ha HF IH]; [done|]. simpl.
  by rewrite IH, promote_shape_ge2.
Qed.


(** For elements with at least two axes, construction from an object array
    changes no existing object. *)
Lemma wp_init_obj_ge2 st v els (Q : Dirichlet -> state -> Prop) :
  tensors_at (heap st) v = Some (Ragged els) ->
  Forall (fun a => 2 <= ndim a) els ->
  (forall st' sv,
     extends st st' -> length (heap st) <= sv ->
     tensors_at (heap st') sv = Some (Ragged els) ->
     Q (mkDirichlet true sv) st') ->
  wp (__init__ PyNone (PyArr v)) st Q.
Proof.
  intros (cells & Hv & Hels)%tensors_at_ragged Hok HQ.
  eapply wp_init_obj; [done|done|].
  intros st' sv cells' Hw Hse Hsv Hv' Hsl Htv Hts.
  rewrite (map_promote_ge2 _ Hok) in Htv, Hts.
  assert (cells' = cells) as ->.
  { apply tensors_at_ragged in Htv as (c & Hc & Hcl).
    assert (c = cells') as -> by congruence.
    apply cells_at_length in Hcl. apply cells_at_length in Hels.
    apply list_eq. intros i. destruct (decide (i < length els)) as [Hi|Hi].
    - destruct (lookup_lt_is_Some_2 _ _ Hi) as [a Ha].
      specialize (Hsl i a Hi Ha).
      assert ((ndim a =? 1) = false) as Hr.
      { rewrite Forall_forall in Hok.
        assert (2 <= ndim a) by (apply Hok; by eapply list_elem_of_lookup_2).
        apply Nat.eqb_neq. lia. }
      by rewrite Hr in Hsl.
    - rewrite !lookup_ge_None_2 by lia. done. }
  apply HQ; [|done|done]. split; [|done].
  destruct Hse as [Hlen Hse]. apply prefix_of_lookups; [done|].
  intros l Hl. destruct (decide (l = v)) as [->|Hne]; [congruence|].
  by apply Hse.
Qed.


(** ** wnorm *)




Section Wnorm.

Variable fsum : list float -> float.



Lemma promote_promote a : promote (promote a) = promote a.
Proof.
  unfold promote at 2 3. destruct (Nat.eqb_spec (ndim a) 1) as [H|H].
  - apply promote_shape_ge2. unfold ndim in *. unfold expand_dims. simpl.
    destruct (shape a) as [|x [|y s]]; simpl in *; lia.
  - unfold promote. by destruct (Nat.eqb_spec (ndim a) 1).
Qed.

(** Reading element [i] of a ragged store: a new store holding a copy of
    the (rank-promoted) element. *)
Lemma wp_getitem_ragged st self cells i k l b (Q : pyval -> state -> Prop) :
  heap st !! values self = Some (OObj cells) ->
  norm_index (length cells) i = Some k ->
  cells !! k = Some (Some l) -> num_at (heap st) l = Some b ->
  (forall st' sv,
     extends st st' -> length (heap st) <= sv ->
     num_at (heap st') sv = Some (promote b) ->
     Q (PyStore (mkDirichlet false sv)) st') ->
  wp (__getitem__ self [i]) st Q.
Proof.
  intros Hc Hi Hk Hl HQ. unfold __getitem__.
  apply wp_bind. apply (wp_read _ _ _ _ Hc). rewrite Hi.
  apply wp_bind. apply (wp_get_cell _ _ _ _ _ _ Hc Hk).
  apply wp_bind. apply (wp_read_num _ _ _ _ Hl).
  apply wp_bind. destruct (ndim b =? 1) eqn:E.
  - apply wp_alloc. simpl. apply wp_bind.
    eapply wp_init_num; [apply num_at_alloc|].
    intros st' sv Hext Hsv Hn. apply wp_ret. apply HQ.
    + eapply extends_trans; [apply extends_alloc|done].
    + simpl in Hsv. rewrite length_app in Hsv. lia.
    + replace (promote b) with (promote (promote b)) by apply promote_promote.
      unfold promote at 2. by rewrite E.
  - apply wp_ret. apply wp_bind.
    eapply wp_init_num; [done|].
    intros st' sv Hext Hsv Hn. apply wp_ret. by apply HQ.
Qed.




End Wnorm.

(** ** contains_zeros and log *)


Lemma wp_any_cell_zero st l cells els k (Q : bool -> state -> Prop) :
  heap st !! l = Some (OObj cells) -> cells_at (heap st) cells = Some els ->
  Q (existsb any_zero (drop k els)) st ->
  wp (any_cell_zero l (seq k (length cells - k))) st Q.
Proof.
  intros Hc Hels. pose proof (cells_at_length _ _ _ Hels) as Hlen.
  remember (length cells - k) as m eqn:Em. revert k Em.
  induction m as [|m IH]; intros k Em HQ.
  - simpl. apply wp_ret. rewrite drop_ge in HQ by lia. done.
  - simpl.
    destruct (cells_at_lookup _ _ _ k Hels) as (c & a & Hck & Hl & Hak); [lia|].
    apply wp_bind. apply (wp_get_cell _ _ _ _ _ _ Hc Hck).
    apply wp_bind. apply (wp_cell_array _ _ _ _ _ Hl).
    rewrite (drop_S _ _ _ Hak) in HQ. simpl in HQ.
    destruct (any_zero a).
    + by apply wp_ret.
    + apply IH; [lia|done].
Qed.

Lemma wp_contains_zeros st self t (Q : bool -> state -> Prop) :
  store_at (heap st) self = Some t ->
  Q (tensors_any_zero t) st ->
  wp (contains_zeros self) st Q.
Proof.
  intros Hs HQ. unfold contains_zeros. destruct t as [a|els].
  - apply store_at_dense in Hs as [-> Ha]. simpl.
    apply wp_bind. apply (wp_read_num _ _ _ _ Ha). by apply wp_ret.
  - apply store_at_ragged in Hs as [-> Ht]. simpl.
    apply tensors_at_ragged in Ht as (cells & Hc & Hels).
    apply wp_bind. apply (wp_read_obj _ _ _ _ Hc).
    replace (length cells) with (length cells - 0) by lia.
    by eapply wp_any_cell_zero.
Qed.



Section Log.

Variable np_log : float -> float.



End Log.

(** ** Arithmetic operators *)

Lemma broadcast_shapes_length sa sb s :
  broadcast_shapes sa sb = Some s -> length s = length sa.
Proof.
  revert sb s. induction sa as [|x sa IH]; intros [|y sb] s; simpl; try done.
  - by intros [= <-].
  - destruct (broadcast_shapes sa sb) as [s'|] eqn:E; [|done].
    specialize (IH _ _ E).
    destruct (x =? y); [intros [= <-]; simpl; lia|].
    destruct (x =? 1); [intros [= <-]; simpl; lia|].
    destruct (y =? 1); [intros [= <-]; simpl; lia|done].
Qed.

Lemma length_pad_shape r s : length s <= r -> length (pad_shape r s) = r.
Proof.
  intros H. unfold pad_shape. rewrite length_app, length_replicate. lia.
Qed.

Lemma np_binop_ndim f a b r :
  np_binop f a b = inr r -> ndim r = Nat.max (ndim a) (ndim b).
Proof.
  unfold np_binop.
  destruct (broadcast_shapes _ _) as [s|] eqn:E; [|done].
  intros [= <-]. unfold ndim at 1. simpl.
  rewrite (broadcast_shapes_length _ _ _ E).
  apply length_pad_shape. unfold ndim. lia.
Qed.



Section Arith.

Variable f : float -> float -> float.






End Arith.


Lemma op_reflected_eq o self other :
  op_reflected o self other = op_method o self other.
Proof. by destruct o. Qed.

(** ** Indexing *)




Lemma wp_getitem st self t key item (Q : pyval -> state -> Prop) :
  store_at (heap st) self = Some t ->
  item_of t key = Some item ->
  (forall st' v,
     extends st st' ->
     read_result (heap st') item v ->
     match item with inl _ => st' = st | inr _ => fresh_in st v end ->
     Q v st') ->
  wp (__getitem__ self key) st Q.
Proof.
  intros Hs Hitem HQ. destruct t as [a|els]; simpl in Hitem.
  - apply store_at_dense in Hs as [Haoa Ha].
    destruct (np_getitem a key) as [e|r] eqn:Eg; [done|].
    injection Hitem as ->.
    unfold __getitem__. apply wp_bind. apply num_at_lookup in Ha.
    apply (wp_read _ _ _ _ Ha). rewrite Eg.
    destruct item as [x|sub].
    + apply wp_ret. apply HQ; [apply extends_refl|done|done].
    + apply wp_bind. apply wp_alloc. simpl.
      apply wp_bind.
      assert (Hprom : forall st1 v1,
        num_at (heap st1) v1 = Some (promote sub) ->
        extends (St (heap st ++ [ONum sub]) (warnings st)) st1 ->
        wp (d <- __init__ PyNone (PyArr v1) ;; ret (PyStore d)) st1 Q).
      { intros st1 v1 Hv1 Hext1. apply wp_bind.
        eapply wp_init_num; [done|].
        intros st' sv Hext Hsv Hn. rewrite promote_promote in Hn.
        apply wp_ret. apply HQ.
        - eapply extends_trans; [apply extends_alloc|].
          by eapply extends_trans.
        - exists (mkDirichlet false sv). split; [done|]. by apply store_at_dense.
        - exists sv. split; [done|].
          pose proof (extends_length _ _ Hext1) as H1. simpl in H1.
          rewrite length_app in H1. simpl in H1. lia. }
      unfold promote in Hprom. destruct (ndim sub =? 1).
      * apply wp_alloc. simpl. apply Hprom.
        -- simpl. apply num_at_alloc.
        -- apply (extends_alloc (St (heap st ++ [ONum sub]) (warnings st))).
      * apply wp_ret. apply Hprom.
        -- simpl. apply num_at_alloc.
        -- apply extends_refl.
  - apply store_at_ragged in Hs as [Haoa Ht].
    apply tensors_at_ragged in Ht as (cells & Hc & Hels).
    destruct key as [|i [|? ?]]; try done.
    pose proof (cells_at_length _ _ _ Hels) as Hlen.
    destruct (norm_index (length els) i) as [k|] eqn:Ei; [|done].
    destruct (els !! k) as [a|] eqn:Ea; [|done]. injection Hitem as <-.
    destruct (cells_at_lookup _ _ _ k Hels) as (l & a' & Hck & Hl & Ha').
    { apply lookup_lt_Some in Ea. lia. }
    assert (a' = a) as -> by congruence.
    eapply wp_getitem_ragged; [done|by rewrite Hlen|done|done|].
    intros st' sv Hext Hsv Hn. apply HQ; [done| |].
    + exists (mkDirichlet false sv). split; [done|]. by apply store_at_dense.
    + by exists sv.
Qed.

Lemma cells_at_insert h ls c0 c cells els k l v :
  h !! ls = Some (OObj c0) ->
  cells_at h cells = Some els -> num_at h l = Some v ->
  cells_at (<[ls := OObj c]> h) (<[k := Some l]> cells) = Some (<[k := v]> els).
Proof.
  intros Hls (locs & -> & HF)%cells_at_elim Hl.
  replace (<[k := Some l]> (map Some locs)) with (map Some (<[k := l]> locs)).
  2:{ apply (list_fmap_insert Some). }
  apply cells_at_intro. apply Forall2_insert.
  - eapply Forall2_num_in_impl; [|done]. intros l' a' H'.
    by erewrite num_at_insert_obj.
  - unfold num_in. by erewrite num_at_insert_obj.
Qed.


(** ** Construction from dimensions *)

Lemma ints_of_length ds zs : ints_of ds = Some zs -> length zs = length ds.
Proof.
  revert zs. induction ds as [|d ds IH]; intros zs; simpl.
  - by intros [= <-].
  - destruct d; try done. destruct (ints_of ds) as [zs'|]; [|done].
    simpl. intros [= <-]. simpl. f_equal. by apply IH.
Qed.

Lemma existsb_neg_forallb zs :
  forallb (fun z => (0 <=? z)%Z) zs = true ->
  existsb (fun z => (z <? 0)%Z) zs = false.
Proof.
  induction zs as [|z zs IH]; [done|]. simpl.
  intros [Hz Hr]%andb_true_iff. rewrite IH by done.
  apply Z.leb_le in Hz. rewrite orb_false_r. apply Z.ltb_ge. lia.
Qed.

Lemma np_zeros_dims_ints ds zs :
  ints_of ds = Some zs -> forallb (fun z => (0 <=? z)%Z) zs = true ->
  np_zeros_dims ds = inr (np_zeros (map Z.to_nat zs)).
Proof.
  intros Hi Hz. unfold np_zeros_dims, shape_of_dims.
  by rewrite Hi, existsb_neg_forallb.
Qed.

(** The code's [np.zeros] calls produce the tensor the specification
    prescribes for a flat list. *)
Lemma zeros_of_list_flat ds z :
  flat_zeros ds = Some z -> zeros_of_list ds = inr z.
Proof.
  unfold flat_zeros, dims_shape.
  destruct (ints_of ds) as [zs|] eqn:Hi; [|done].
  destruct (forallb _ zs) eqn:Hz; [|done].
  pose proof (ints_of_length _ _ Hi) as Hlen.
  destruct zs as [|d [|d2 zs]]; simpl; [done| |].
  - intros [= <-]. destruct ds as [|p [|? ?]]; try done.
    simpl in Hi. destruct p; try done. simpl in Hi. injection Hi as ->.
    simpl. apply (np_zeros_dims_ints [PyInt d; PyInt 1] [d; 1%Z]); [done|].
    simpl in *. by rewrite Hz.
  - intros [= <-]. destruct ds as [|p [|p2 ds]]; try done.
    unfold zeros_of_list. by apply (np_zeros_dims_ints _ (d :: d2 :: zs)).
Qed.

Lemma ragged_zeros_lookup els zs :
  ragged_zeros els = Some zs ->
  length zs = length els /\ forallb is_list els = true /\
  forall k el, els !! k = Some el ->
    exists di z, el = PyList di /\ flat_zeros di = Some z /\ zs !! k = Some z.
Proof.
  revert zs. induction els as [|el els IH]; intros zs; simpl.
  - intros [= <-]. repeat split; done.
  - destruct el as [| | |di| | |]; try done.
    destruct (flat_zeros di) as [z|] eqn:Ez; [|done].
    destruct (ragged_zeros els) as [zs'|] eqn:Er; [|done].
    intros [= <-]. destruct (IH _ eq_refl) as (H1 & H2 & H3).
    repeat split; simpl; [lia|done|].
    intros [|k] el' Hel'; simpl in *.
    + simplify_eq. by exists di, z.
    + by apply H3.
Qed.

Lemma ints_of_no_list els zs : ints_of els = Some zs -> existsb is_list els = false.
Proof.
  revert zs. induction els as [|el els IH]; intros zs; simpl; [done|].
  destruct el; try done. destruct (ints_of els) as [zs'|]; [|done].
  intros _. simpl. by eapply IH.
Qed.

Lemma ints_of_none_nonempty els : ints_of els = None -> els <> [].
Proof. by destruct els. Qed.

Lemma forallb_is_list_existsb els :
  els <> [] -> forallb is_list els = true -> existsb is_list els = true.
Proof.
  destruct els as [|el els]; [done|]. simpl. intros _ [H _]%andb_true_iff.
  by rewrite H.
Qed.

Lemma wp_init_dims st dims t (Q : Dirichlet -> state -> Prop) :
  dims_tensors dims = Some t ->
  (forall st' d,
     extends st st' -> length (heap st) <= values d ->
     store_at (heap st') d = Some t ->
     Q d st') ->
  wp (__init__ dims PyNone) st Q.
Proof.
  intros Hd HQ. unfold __init__.
  destruct dims as [|n| |els| | |]; simpl in Hd; try done; simpl.
  - (* an integer *)
    unfold construct_dims.
    destruct (dims_shape [n]) as [s|] eqn:Es; [|done]. injection Hd as <-.
    assert (Hz : flat_zeros [PyInt n] = Some (np_zeros s)).
    { unfold flat_zeros. simpl. by rewrite Es. }
    apply zeros_of_list_flat in Hz. simpl in Hz.
    apply wp_bind. apply (wp_lift _ _ _ _ Hz).
    apply wp_bind. apply wp_alloc. simpl. apply wp_ret.
    apply HQ; [apply extends_alloc|done|].
    apply store_at_dense. split; [done|]. simpl. apply num_at_alloc.
  - unfold construct_dims.
    destruct (ints_of els) as [zs|] eqn:Hi.
    + (* a flat list *)
      destruct (flat_zeros els) as [z|] eqn:Ez; [|done]. injection Hd as <-.
      rewrite (ints_of_no_list _ _ Hi).
      apply zeros_of_list_flat in Ez.
      apply wp_bind. apply (wp_lift _ _ _ _ Ez).
      apply wp_bind. apply wp_alloc. simpl. apply wp_ret.
      apply HQ; [apply extends_alloc|done|].
      apply store_at_dense. split; [done|]. simpl. apply num_at_alloc.
    + (* a list of lists *)
      destruct (ragged_zeros els) as [zs|] eqn:Er; [|done]. injection Hd as <-.
      destruct (ragged_zeros_lookup _ _ Er) as (Hlen & Hall & Hlook).
      rewrite (forallb_is_list_existsb _ (ints_of_none_nonempty _ Hi) Hall), Hall.
      simpl.
      apply wp_bind. apply wp_alloc. simpl.
      set (out := length (heap st)).
      apply wp_bind.
      eapply wp_mono.
      { apply (wp_for_range (fun k st' =>
          heap st `prefix_of` heap st' /\ warnings st' = warnings st /\
          filled (heap st') out (replicate (length els) None) zs k)).
        - simpl. split; [by apply prefix_app_r|]. split; [done|].
          apply filled_init. apply lookup_alloc.
        - intros k st' Hk (Hp & Hw & Hf).
          destruct (lookup_lt_is_Some_2 _ _ Hk) as [el Hel].
          destruct (Hlook _ _ Hel) as (di & z & -> & Hz & Hzk).
          rewrite Hel.
          apply wp_bind. eapply wp_lift; [by apply zeros_of_list_flat|].
          apply wp_bind. apply wp_alloc. simpl.
          eapply (wp_fill_cell _ out (replicate (length els) None) zs k);
            simpl; [done| | |done| |].
          + eapply filled_prefix; [done|]. by apply prefix_app_r.
          + rewrite length_replicate. lia.
          + apply num_at_alloc.
          + intros cells0 Hc0 Hf'. split; [|done].
            apply prefix_insert_ge; [|by apply prefix_length].
            etrans; [done|]. by apply prefix_app_r. }
      intros [] st' (Hp & Hw & Hf). simpl. apply wp_ret.
      apply HQ; [by split|done|].
      apply store_at_ragged. split; [done|]. simpl.
      apply (filled_done _ _ (replicate (length els) None)).
      * rewrite length_replicate. lia.
      * by rewrite Hlen.
Qed.

(** ** The specification, claim by claim *)

Lemma extends_new st st' :
  extends st st' -> (exists new, heap st' = heap st ++ new) /\ warnings st' = warnings st.
Proof. intros [[new ->] Hw]. split; [by exists new|done]. Qed.








Lemma floored_of_floored a : floored_of a (floored a).
Proof.
  unfold floored_of, floored, nd_map. simpl. split; [done|].
  split; [by rewrite length_map|].
  intros k x Hk. rewrite list_lookup_fmap, Hk. simpl. split; [done|].
  intros Hx. by rewrite (F64Facts.add_zero_exp_m16 _ Hx).
Qed.

(** C4.  For every store, in either representation, [remove_zeros] updates
    the receiver in place: every stored entry [x] becomes [x + np.exp(-16)],
    so an entry that was zero becomes exactly [np.exp(-16)]; shapes and the
    representation are as before, no other existing object is changed and
    no warning is issued. *)
Theorem remove_zeros_spec st self t :
  store_at (heap st) self = Some t ->
  exists st' t',
    remove_zeros self st = (inr tt, st') /\
    store_at (heap st') self = Some t' /\
    tensors_rel floored_of t t' /\
    same_except (values self) (heap st) (heap st') /\
    warnings st' = warnings st.
Proof.
  intros Hs. destruct t as [a|els].
  - pose proof Hs as [Haoa Ha]%store_at_dense.
    destruct (wp_run _ _ _ (wp_remove_zeros_dense st self a
      (fun _ st' => st' = St (<[values self := ONum (floored a)]> (heap st)) (warnings st))
      Ha eq_refl)) as ([] & st' & Hrun & ->).
    eexists. exists (Dense (floored a)). split; [done|]. simpl.
    split; [|split; [|split; [|done]]].
    + apply store_at_dense. split; [done|]. apply num_at_lookup.
      apply list_lookup_insert_eq. by eapply num_at_lt.
    + apply floored_of_floored.
    + apply same_except_insert, same_except_refl.
  - pose proof Hs as [Haoa Ht]%store_at_ragged.
    apply tensors_at_ragged in Ht as (cells & Hc & Hels).
    destruct (wp_run _ _ _ (wp_remove_zeros_ragged st self cells els
      (fun _ st' => warnings st' = warnings st /\
         same_except (values self) (heap st) (heap st') /\
         tensors_at (heap st') (values self) = Some (Ragged (map floored els)))
      Hc Hels ltac:(done))) as ([] & st' & Hrun & Hw & Hse & Ht').
    exists st', (Ragged (map floored els)). split; [done|].
    split; [|split; [|split; [done|done]]].
    + by apply store_at_ragged.
    + simpl. apply Forall2_fmap_r. apply Forall_Forall2_diag.
      apply Forall_true. apply floored_of_floored.
Qed.

(** C5.  Construction from [dims] yields exactly the zero-valued storage the
    specification prescribes ([dims_tensors]): shape [(n, 1)] for an integer
    [n]; the shape itself for a flat list of more than one integer and
    [(d, 1)] for the list [[d]]; for a list of lists, a ragged store whose
    [i]-th element is the zero tensor of the [i]-th inner list by the rule
    for flat lists.  The storage is new; nothing else changes. *)
Theorem construct_from_dims st dims t :
  dims_tensors dims = Some t ->
  exists d st',
    __init__ dims PyNone st = (inr d, st') /\
    store_at (heap st') d = Some t /\
    extends st st' /\ length (heap st) <= values d.
Proof.
  intros Hd.
  destruct (wp_run _ _ _ (wp_init_dims st dims t
    (fun d st' => extends st st' /\ length (heap st) <= values d /\
       store_at (heap st') d = Some t)
    Hd ltac:(done))) as (d & st' & Hrun & Hext & Hf & Hs).
  by exists d, st'.
Qed.

(** C6.  Construction with both [dims] and [values] raises at once and
    leaves the state as it was; with neither, it yields a dense store
    holding the [(1, 1)] zero tensor; [dims] that is neither an [int] nor a
    [list] raises; a list of [dims] in which some elements are lists and
    others are not raises instead of choosing a representation. *)
Theorem construct_errors st :
  (forall dims values,
     is_none dims = false -> is_none values = false ->
     __init__ dims values st
     = (inl (ValueError "please provide _either_ :dims: or :values:, not both"), st)) /\
  (exists d st',
     __init__ PyNone PyNone st = (inr d, st') /\
     store_at (heap st') d = Some (Dense (np_zeros [1; 1])) /\
     extends st st' /\ length (heap st) <= values d) /\
  (forall dims,
     match dims with PyNone | PyInt _ | PyList _ => False | _ => True end ->
     __init__ dims PyNone st
     = (inl (ValueError ":dims: must be either :list: or :int:"), st)) /\
  (forall els,
     existsb is_list els = true -> forallb is_list els = false ->
     __init__ (PyList els) PyNone st
     = (inl (ValueError ":list: of :dims: must only contains :lists:"), st)).
Proof.
  split; [|split; [|split]].
  - intros dims values Hd Hv. unfold __init__. by rewrite Hd, Hv.
  - eexists _, _. split; [reflexivity|]. simpl. split; [|split].
    + apply store_at_dense. split; [done|]. apply num_at_alloc.
    + apply extends_alloc.
    + done.
  - intros dims Hd. by destruct dims.
  - intros els He Ha. unfold __init__. simpl. unfold construct_dims.
    by rewrite He, Ha.
Qed.




(** C10.  Constructing a store from an object array mutates the caller's
    array: every slot whose element has rank 1 is rebound, in place, to a
    new array object, the column-shaped element, before the element is
    copied into the store; the other slots and all other existing objects
    are untouched. *)
Theorem construct_values_rebinds_slots st v cells els :
  heap st !! v = Some (OObj cells) ->
  cells_at (heap st) cells = Some els ->
  exists d st' cells',
    construct_values (PyArr v) st = (inr d, st') /\
    heap st' !! v = Some (OObj cells') /\
    same_except v (heap st) (heap st') /\
    store_at (heap st') d = Some (Ragged (map promote els)) /\
    tensors_at (heap st') v = Some (Ragged (map promote els)) /\
    forall i a, els !! i = Some a ->
      if ndim a =? 1 then
        exists e, cells' !! i = Some (Some e) /\ length (heap st) <= e /\
          num_at (heap st') e = Some (expand_dims a) /\
          cells' !! i <> cells !! i
      else cells' !! i = cells !! i.
Proof.
  intros Hv Hels.
  destruct (wp_run _ _ _ (wp_init_obj st v cells els
    (fun d st' => exists cells',
       heap st' !! v = Some (OObj cells') /\
       same_except v (heap st) (heap st') /\
       store_at (heap st') d = Some (Ragged (map promote els)) /\
       tensors_at (heap st') v = Some (Ragged (map promote els)) /\
       slots_promoted (length (heap st)) els cells cells' (length els))
    Hv Hels ltac:(intros st' sv cells' ? ? ? ? ? ? ?; exists cells';
                  split; [done|]; split; [done|];
                  split; [by apply store_at_ragged|]; split; done)))
    as (d & st' & Hrun & cells' & Hv' & Hse & Hd & Htv & Hsl).
  exists d, st', cells'. split; [exact Hrun|]. split; [done|]. split; [done|].
  split; [done|]. split; [done|].
  intros i a Ha. pose proof (lookup_lt_Some _ _ _ Ha) as Hi.
  specialize (Hsl i a Hi Ha). destruct (ndim a =? 1) eqn:E; [|done].
  destruct Hsl as (e & He & Hge). exists e. split; [done|]. split; [done|].
  split.
  - apply tensors_at_ragged in Htv as (c & Hc & Hcl).
    assert (c = cells') as -> by congruence.
    destruct (cells_at_lookup _ _ _ i Hcl) as (l & x & Hl & Hn & Hx).
    { by eapply lookup_lt_Some. }
    assert (l = e) as -> by congruence.
    rewrite list_lookup_fmap, Ha in Hx. simpl in Hx.
    unfold promote in Hx. rewrite E in Hx. congruence.
  - destruct (cells_at_lookup _ _ _ i Hels) as (l & x & Hl & Hn & Hx).
    { apply cells_at_length in Hels. lia. }
    rewrite He, Hl. intros [= ->]. apply num_at_lt in Hn. lia.
Qed.

(** ** The theorems at concrete inputs *)






Lemma remove_zeros_spec_witness :
  exists st',
    remove_zeros ex_ragged_store ex_ragged = (inr tt, st') /\
    store_at (heap st') ex_ragged_store
    = Some (Ragged [Nd [2; 1] [F64.exp_m16; (1 + F64.exp_m16)%float];
                    Nd [1; 2] [(2 + F64.exp_m16)%float; F64.exp_m16]]).
Proof.
  destruct (remove_zeros_spec ex_ragged ex_ragged_store
              (Ragged [Nd [2; 1] [0; 1]%float; Nd [1; 2] [2; 0]%float]) eq_refl)
    as (st' & t' & Hrun & _).
  exists st'. split; [exact Hrun|].
  vm_compute in Hrun. injection Hrun as <-. reflexivity.
Defined.

Lemma construct_from_dims_witness :
  (exists d st',
     __init__ (PyList [PyList [PyInt 2]; PyList [PyInt 3; PyInt 3]]) PyNone
       (St [] []) = (inr d, st') /\
     store_at (heap st') d
     = Some (Ragged [np_zeros [2; 1]; np_zeros [3; 3]])) /\
  (exists d st',
     __init__ (PyList [PyInt 3; PyInt 4]) PyNone (St [] []) = (inr d, st') /\
     store_at (heap st') d = Some (Dense (np_zeros [3; 4]))) /\
  (exists d st',
     __init__ (PyInt 3) PyNone (St [] []) = (inr d, st') /\
     store_at (heap st') d = Some (Dense (np_zeros [3; 1]))).
Proof.
  split; [|split].
  - destruct (construct_from_dims (St [] [])
                (PyList [PyList [PyInt 2]; PyList [PyInt 3; PyInt 3]]) _ eq_refl)
      as (d & st' & Hrun & Hs & _).
    by exists d, st'.
  - destruct (construct_from_dims (St [] []) (PyList [PyInt 3; PyInt 4]) _ eq_refl)
      as (d & st' & Hrun & Hs & _).
    by exists d, st'.
  - destruct (construct_from_dims (St [] []) (PyInt 3) _ eq_refl)
      as (d & st' & Hrun & Hs & _).
    by exists d, st'.
Defined.

Lemma construct_errors_witness :
  __init__ (PyInt 3) (PyArr 0) ex_dense
  = (inl (ValueError "please provide _either_ :dims: or :values:, not both"),
     ex_dense) /\
  __init__ PyOther PyNone ex_dense
  = (inl (ValueError ":dims: must be either :list: or :int:"), ex_dense) /\
  __init__ (PyList [PyInt 3; PyList [PyInt 2]]) PyNone ex_dense
  = (inl (ValueError ":list: of :dims: must only contains :lists:"), ex_dense).
Proof.
  destruct (construct_errors ex_dense) as (Hboth & _ & Htype & Hmixed).
  split; [|split].
  - by apply Hboth.
  - by apply Htype.
  - by apply Hmixed.
Defined.




Lemma construct_values_rebinds_slots_witness :
  exists d st',
    construct_values (PyArr 2) ex_collection = (inr d, st') /\
    tensors_at (heap ex_collection) 2
    = Some (Ragged [Nd [2] [1; 2]%float; Nd [2; 1] [3; 4]%float]) /\
    tensors_at (heap st') 2
    = Some (Ragged [Nd [2; 1] [1; 2]%float; Nd [2; 1] [3; 4]%float]).
Proof.
  destruct (construct_values_rebinds_slots ex_collection 2 [Some 0; Some 1]
              [Nd [2] [1; 2]%float; Nd [2; 1] [3; 4]%float] eq_refl eq_refl)
    as (d & st' & cells' & Hrun & _ & _ & _ & Htv & _).
  exists d, st'. split; [exact Hrun|]. split; [reflexivity|exact Htv].
Defined.

(** ** Further rules and heap lemmas *)

Lemma wp_no_exn {A} (m : M A) st (Q : A -> state -> Prop) e st' :
  wp m st Q -> m st <> (inl e, st').
Proof. unfold wp. intros H E. by rewrite E in H. Qed.



Lemma any_zero_spec a :
  any_zero a = true <-> exists x, In x (data a) /\ (x =? 0)%float = true.
Proof. unfold any_zero. apply existsb_exists. Qed.

Lemma tensors_any_zero_spec t :
  tensors_any_zero t = true <->
  exists a x, In a (arrays_of t) /\ In x (data a) /\ (x =? 0)%float = true.
Proof.
  destruct t as [a|els]; simpl.
  - rewrite any_zero_spec. split.
    + intros (x & Hx & Hz). exists a, x. auto.
    + intros (a' & x & [<-|[]] & Hx & Hz). by exists x.
  - rewrite existsb_exists. split.
    + intros (a & Ha & Hz). apply any_zero_spec in Hz as (x & Hx & Hz).
      by exists a, x.
    + intros (a & x & Ha & Hx & Hz). exists a. split; [done|].
      apply any_zero_spec. by exists x.
Qed.

Lemma wp_run_unit (m : M unit) st (Q : state -> Prop) :
  wp m st (fun _ st' => Q st') -> exists st', m st = (inr tt, st') /\ Q st'.
Proof. intros ([] & st' & H)%wp_run. by exists st'. Qed.

(** ** Framing: what an update of one object leaves alone *)

Lemma cells_at_same_except l h h' cells els :
  same_except l h h' -> cells_at h cells = Some els ->
  ~ In (Some l) cells -> cells_at h' cells = Some els.
Proof.
  intros [Hlen Hse] Hc Hnot. apply cells_at_Forall2 in Hc as (locs & -> & HF).
  apply cells_at_intro.
  assert (Hl : Forall (fun l' => l' <> l) locs).
  { apply Forall_forall. intros l' Hin%list_elem_of_In ->. apply Hnot.
    by apply in_map. }
  clear Hnot. induction HF as [|l' a locs els Hn HF IH]; [constructor|].
  inversion Hl; subst. constructor; [|by apply IH].
  unfold num_in, num_at in *. rewrite Hse; [done| |done].
  destruct (h !! l') eqn:E; [|done]. by eapply lookup_lt_Some.
Qed.

Lemma cells_at_not_obj h cells els l c :
  cells_at h cells = Some els -> h !! l = Some (OObj c) -> ~ In (Some l) cells.
Proof.
  intros (locs & -> & HF)%cells_at_Forall2 Hl Hin.
  apply in_map_iff in Hin as (l' & [= ->] & Hin).
  apply list_elem_of_In in Hin.
  apply list_elem_of_lookup in Hin as [i Hi].
  destruct (Forall2_lookup_l _ _ _ _ _ HF Hi) as (a & _ & Hn).
  unfold num_in, num_at in Hn. by rewrite Hl in Hn.
Qed.

Lemma tensors_at_same_except l h h' l2 t :
  same_except l h h' -> tensors_at h l2 = Some t -> l2 <> l ->
  (forall cells, h !! l2 = Some (OObj cells) -> ~ In (Some l) cells) ->
  tensors_at h' l2 = Some t.
Proof.
  intros Hse Ht Hne Hnot. pose proof Hse as [Hlen Hsame].
  unfold tensors_at in *.
  destruct (h !! l2) as [o|] eqn:E; [|done].
  rewrite Hsame, E; [|by eapply lookup_lt_Some|done].
  destruct o as [a|cells]; [done|].
  destruct (cells_at h cells) as [els|] eqn:Ec; [|done].
  by rewrite (cells_at_same_except _ _ _ _ _ Hse Ec (Hnot _ eq_refl)).
Qed.

Lemma store_at_same_except l h h' d t :
  same_except l h h' -> store_at h d = Some t -> values d <> l ->
  (forall cells, h !! values d = Some (OObj cells) -> ~ In (Some l) cells) ->
  store_at h' d = Some t.
Proof.
  intros Hse Hs Hne Hnot. unfold store_at in *.
  destruct (tensors_at h (values d)) as [t0|] eqn:Et; [|done].
  by rewrite (tensors_at_same_except _ _ _ _ _ Hse Et Hne Hnot).
Qed.

(** An update of an object array leaves every other store as it was. *)
Lemma store_at_same_except_obj l h h' c d t :
  same_except l h h' -> h !! l = Some (OObj c) ->
  store_at h d = Some t -> values d <> l -> store_at h' d = Some t.
Proof.
  intros Hse Hl Hs Hne. eapply store_at_same_except; [done..|].
  intros cells Hc.
  assert (exists els, cells_at h cells = Some els) as [els Hels].
  { unfold store_at, tensors_at in Hs. rewrite Hc in Hs.
    destruct (cells_at h cells); [by eexists|done]. }
  by eapply cells_at_not_obj.
Qed.

Lemma same_except_insert_self l h o : same_except l h (<[l := o]> h).
Proof. apply same_except_insert, same_except_refl. Qed.

(** [remove_zeros] in terms of the tensors of the receiver. *)
Lemma wp_remove_zeros st self t (Q : unit -> state -> Prop) :
  store_at (heap st) self = Some t ->
  (forall st',
     warnings st' = warnings st ->
     same_except (values self) (heap st) (heap st') ->
     store_at (heap st') self = Some (tensors_map floored t) ->
     Q tt st') ->
  wp (remove_zeros self) st Q.
Proof.
  intros Hs HQ. destruct t as [a|els].
  - pose proof Hs as [Haoa Ha]%store_at_dense.
    apply (wp_remove_zeros_dense _ _ _ _ Ha). apply HQ; simpl.
    + done.
    + apply same_except_insert_self.
    + apply store_at_dense. split; [done|]. apply num_at_lookup.
      apply list_lookup_insert_eq. by eapply num_at_lt.
  - pose proof Hs as [Haoa Ht]%store_at_ragged.
    apply tensors_at_ragged in Ht as (cells & Hc & Hels).
    apply (wp_remove_zeros_ragged _ _ _ _ _ Hc Hels).
    intros st1 Hw Hse Ht1. apply HQ; [done|done|]. by apply store_at_ragged.
Qed.

(** [remove_zeros] on a store leaves any other store of the same
    representation as it was. *)
Lemma wp_remove_zeros_frame st self t d t2 (Q : unit -> state -> Prop) :
  store_at (heap st) self = Some t ->
  store_at (heap st) d = Some t2 -> values d <> values self ->
  IS_AOA d = IS_AOA self ->
  (forall st',
     warnings st' = warnings st ->
     same_except (values self) (heap st) (heap st') ->
     store_at (heap st') self = Some (tensors_map floored t) ->
     store_at (heap st') d = Some t2 ->
     Q tt st') ->
  wp (remove_zeros self) st Q.
Proof.
  intros Hs Hd Hne Haoa HQ. apply (wp_remove_zeros _ _ _ _ Hs).
  intros st' Hw Hse Hs'. apply HQ; [done..|].
  destruct t as [a|els].
  - apply store_at_dense in Hs as [Hf Ha].
    eapply store_at_same_except; [done..|].
    intros cells Hc. unfold store_at, tensors_at in Hd. rewrite Hc in Hd.
    rewrite Haoa, Hf in Hd. by destruct (cells_at (heap st) cells).
  - apply store_at_ragged in Hs as [_ (cells & Hc & _)%tensors_at_ragged].
    by eapply store_at_same_except_obj.
Qed.

(** [copy] *)
Lemma wp_copy st self t (Q : Dirichlet -> state -> Prop) :
  store_at (heap st) self = Some t ->
  (forall st' d,
     extends st st' -> length (heap st) <= values d ->
     IS_AOA d = IS_AOA self ->
     store_at (heap st') d = Some (tensors_map promote t) ->
     Q d st') ->
  wp (copy self) st Q.
Proof.
  intros Hs HQ. unfold copy, np_copy. apply wp_bind, wp_bind.
  destruct t as [a|els].
  - pose proof Hs as [Haoa Ha]%store_at_dense.
    pose proof Ha as Hl%num_at_lookup.
    apply (wp_read _ _ _ _ Hl). apply wp_alloc.
    eapply wp_init_num; [apply num_at_alloc|]. simpl.
    intros st' sv Hext Hsv Hn. rewrite length_app in Hsv. simpl in Hsv.
    apply HQ; [|simpl; lia|done|by apply store_at_dense].
    eapply extends_trans; [apply extends_alloc|done].
  - pose proof Hs as [Haoa Ht]%store_at_ragged.
    apply tensors_at_ragged in Ht as (cells & Hc & Hels).
    apply (wp_read _ _ _ _ Hc). apply wp_alloc.
    eapply wp_init_obj.
    { simpl. apply lookup_alloc. }
    { simpl. eapply cells_at_prefix; [done|]. by apply prefix_app_r. }
    simpl. intros st' sv cells' Hw Hse Hsv _ _ _ Hts.
    rewrite length_app in Hsv. simpl in Hsv.
    apply HQ; [|simpl; lia|done|by apply store_at_ragged].
    split; [|done].
    eapply same_except_prefix; [done| |done]. by apply prefix_app_r.
Qed.

Lemma store_at_same_except_dense l h h' d a :
  same_except l h h' -> store_at h d = Some (Dense a) -> values d <> l ->
  store_at h' d = Some (Dense a).
Proof.
  intros Hse Hs Hne. eapply store_at_same_except; [done..|].
  intros cells Hc. apply store_at_dense in Hs as [_ Hn].
  unfold num_at in Hn. by rewrite Hc in Hn.
Qed.

(** A store of [st] is untouched by an update of an object created
    later. *)
Lemma store_at_same_except_new st h1 h2 l d t :
  store_at (heap st) d = Some t -> heap st `prefix_of` h1 ->
  same_except l h1 h2 -> length (heap st) <= l ->
  store_at h2 d = Some t.
Proof.
  intros Hs Hp Hse Hl. eapply store_at_prefix; [done|].
  by eapply same_except_prefix.
Qed.

Lemma norm_index_lt d i k : norm_index d i = Some k -> k < d.
Proof.
  unfold norm_index. repeat case_match; intros [= <-]; lia.
Qed.

Lemma setitem_ragged_run st r cells i k l a :
  heap st !! values r = Some (OObj cells) ->
  norm_index (length cells) i = Some k ->
  num_at (heap st) l = Some a ->
  __setitem__ r [i] (PyArr l) st
  = (inr tt, St (<[values r := OObj (<[k := Some l]> cells)]> (heap st))
                 (warnings st)).
Proof.
  intros Hc Hi Hl. unfold __setitem__, bind, read. rewrite Hc, Hi.
  unfold set_cell, bind, read_obj, bind, read. rewrite Hc. simpl.
  apply norm_index_lt in Hi. apply Nat.ltb_lt in Hi. by rewrite Hi.
Qed.

(** ** Keys in and out of range *)

Lemma norm_index_in_range d i :
  ((- Z.of_nat d <=? i) && (i <? Z.of_nat d))%Z = true ->
  exists n, norm_index d i = Some n.
Proof.
  intros [H1 H2]%andb_prop. apply Z.leb_le in H1. apply Z.ltb_lt in H2.
  unfold norm_index.
  destruct ((0 <=? i) && (i <? Z.of_nat d))%Z eqn:E1; [by eexists|].
  destruct ((- Z.of_nat d <=? i) && (i <? 0))%Z eqn:E2; [by eexists|].
  exfalso. apply andb_false_iff in E1, E2.
  rewrite Z.leb_gt, Z.ltb_ge in E1. rewrite Z.leb_gt, Z.ltb_ge in E2. lia.
Qed.

Lemma norm_index_out_of_range d i :
  ((- Z.of_nat d <=? i) && (i <? Z.of_nat d))%Z = false ->
  norm_index d i = None.
Proof.
  intros H. apply andb_false_iff in H. rewrite Z.leb_gt, Z.ltb_ge in H.
  unfold norm_index.
  destruct ((0 <=? i) && (i <? Z.of_nat d))%Z eqn:E1.
  { apply andb_prop in E1 as [E1 E1']. apply Z.leb_le in E1.
    apply Z.ltb_lt in E1'. lia. }
  destruct ((- Z.of_nat d <=? i) && (i <? 0))%Z eqn:E2; [|done].
  apply andb_prop in E2 as [E2 E2']. apply Z.leb_le in E2.
  apply Z.ltb_lt in E2'. lia.
Qed.

Lemma locate_in_range s key :
  key_in_range s key = true -> exists r, locate s key = Some r.
Proof.
  revert s. induction key as [|i key IH]; intros s H.
  - destruct s; simpl; by eexists.
  - destruct s as [|d s]; [done|]. simpl in *.
    apply andb_prop in H as [Hi Hk].
    destruct (norm_index_in_range _ _ Hi) as [n ->].
    destruct (IH _ Hk) as [[off rest] ->]. by eexists.
Qed.

Lemma locate_out_of_range s key :
  key_in_range s key = false -> locate s key = None.
Proof.
  revert s. induction key as [|i key IH]; intros s H.
  - by destruct s.
  - destruct s as [|d s]; [done|]. simpl in *.
    apply andb_false_iff in H as [Hi|Hk].
    + by rewrite (norm_index_out_of_range _ _ Hi).
    + rewrite (IH _ Hk). by destruct (norm_index d i).
Qed.

Lemma getitem_run_index_error st s t key :
  store_at (heap st) s = Some t ->
  key_in_range (reported_shape t) key = false ->
  __getitem__ s key st = (inl IndexError, st).
Proof.
  intros Hs Hk. unfold __getitem__, bind, read. destruct t as [a|els].
  - apply store_at_dense in Hs as [_ Ha%num_at_lookup]. rewrite Ha.
    unfold np_getitem. by rewrite (locate_out_of_range (shape a) _ Hk).
  - apply store_at_ragged in Hs as [_ (cells & Hc & Hels)%tensors_at_ragged].
    rewrite Hc. simpl in Hk.
    destruct key as [|i [|j key]]; [done| |done].
    rewrite andb_true_r in Hk. apply norm_index_out_of_range in Hk.
    by rewrite (cells_at_length _ _ _ Hels), Hk.
Qed.

Lemma setitem_run_index_error st s t key value v :
  store_at (heap st) s = Some t ->
  rhs_at (heap st) t value = Some v ->
  key_in_range (reported_shape t) key = false ->
  __setitem__ s key value st = (inl IndexError, st).
Proof.
  intros Hs Hv Hk. unfold __setitem__, bind, read. destruct t as [a|els].
  - apply store_at_dense in Hs as [_ Ha%num_at_lookup]. rewrite Ha.
    assert (Hset : np_setitem a key v = inl IndexError).
    { unfold np_setitem. by rewrite (locate_out_of_range (shape a) _ Hk). }
    destruct value as [| | | |l|d|]; simpl in Hv; try done.
    + injection Hv as <-. simpl. by rewrite Hset.
    + apply num_at_lookup in Hv. unfold read_num, bind, read. rewrite Hv.
      simpl. by rewrite Hset.
    + apply num_at_lookup in Hv. unfold read_num, bind, read. rewrite Hv.
      simpl. by rewrite Hset.
  - apply store_at_ragged in Hs as [_ (cells & Hc & Hels)%tensors_at_ragged].
    rewrite Hc. simpl in Hk.
    destruct key as [|i [|j key]]; [done| |done].
    rewrite andb_true_r in Hk. apply norm_index_out_of_range in Hk.
    by rewrite (cells_at_length _ _ _ Hels), Hk.
Qed.

Lemma item_of_in_range t key :
  (key = [] -> exists a, t = Dense a) ->
  key_in_range (reported_shape t) key = true ->
  exists item, item_of t key = Some item.
Proof.
  intros Hkey Hk. destruct t as [a|els]; simpl in *.
  - unfold np_getitem. destruct (locate_in_range _ _ Hk) as [[off rest] ->].
    destruct rest; by eexists.
  - destruct key as [|i [|j key]].
    + by destruct Hkey as [a Ha].
    + rewrite andb_true_r in Hk.
      destruct (norm_index_in_range _ _ Hk) as [n Hn]. rewrite Hn.
      pose proof (norm_index_lt _ _ _ Hn) as Hlt.
      destruct (lookup_lt_is_Some_2 els n Hlt) as [x ->]. by eexists.
    + simpl in Hk. by rewrite andb_false_r in Hk.
Qed.

(** What [__getitem__] does once a sub-array has been selected never
    fails. *)
Lemma wp_getitem_tail st sub :
  wp (v <- alloc (ONum sub) ;;
      v' <- (if ndim sub =? 1 then alloc (ONum (expand_dims sub)) else ret v) ;;
      d <- __init__ PyNone (PyArr v') ;;
      ret (PyStore d)) st (fun _ _ => True).
Proof.
  apply wp_bind, wp_alloc, wp_bind.
  destruct (ndim sub =? 1).
  - apply wp_alloc, wp_bind. eapply wp_init_num; [apply num_at_alloc|]. done.
  - apply wp_ret, wp_bind. eapply wp_init_num; [apply num_at_alloc|]. done.
Qed.

Lemma wp_getitem_cell_tail st l b :
  num_at (heap st) l = Some b ->
  wp (b <- read_num l ;;
      v' <- (if ndim b =? 1 then alloc (ONum (expand_dims b)) else ret l) ;;
      d <- __init__ PyNone (PyArr v') ;;
      ret (PyStore d)) st (fun _ _ => True).
Proof.
  intros Hl. apply wp_bind. apply (wp_read_num _ _ _ _ Hl). apply wp_bind.
  destruct (ndim b =? 1).
  - apply wp_alloc, wp_bind. eapply wp_init_num; [apply num_at_alloc|]. done.
  - apply wp_ret, wp_bind. eapply wp_init_num; [done|]. done.
Qed.

Lemma read_num_fail st l e st' :
  read_num l st = (inl e, st') -> st' = st /\ num_at (heap st) l = None.
Proof.
  unfold read_num, bind, read, num_at.
  destruct (heap st !! l) as [[a|c]|]; simpl; by intros [= <- <-].
Qed.

Lemma getitem_failure st s key e st' :
  __getitem__ s key st = (inl e, st') -> st' = st.
Proof.
  unfold __getitem__. unfold bind at 1. unfold read.
  destruct (heap st !! values s) as [[a|cells]|] eqn:E; simpl.
  - destruct (np_getitem a key) as [e0|[x|sub]]; simpl.
    + by intros [= <- <-].
    + done.
    + intros H. exfalso. by eapply wp_no_exn; [apply (wp_getitem_tail st sub)|].
  - destruct key as [|i [|j key]]; [by intros [= <- <-]| |by intros [= <- <-]].
    destruct (norm_index (length cells) i) as [n|]; [|by intros [= <- <-]].
    unfold bind at 1. unfold get_cell, bind, read_obj, bind, read. rewrite E.
    simpl. destruct (cells !! n) as [[l|]|]; simpl;
      [|done|by intros [= <- <-]].
    destruct (num_at (heap st) l) as [b|] eqn:El.
    + intros H. exfalso.
      by eapply wp_no_exn; [apply (wp_getitem_cell_tail st l b El)|].
    + destruct (read_num l st) as [[e1|b] st1] eqn:Er.
      * apply read_num_fail in Er as [-> _]. by intros [= <- <-].
      * exfalso. unfold read_num, bind, read, num_at in *.
        destruct (heap st !! l) as [[a|c]|]; simpl in *; done.
  - by intros [= <- <-].
Qed.

Lemma value_array_run st value (r : exn + ndarray) st1 :
  (match value with
   | PyFloat x => ret (scalar x)
   | PyArr l => read_num l
   | _ => raise OutOfModel
   end) st = (r, st1) -> st1 = st.
Proof.
  destruct value; simpl; try (by intros [= <- <-]).
  unfold read_num, bind, read.
  destruct (heap st !! l) as [[b|c]|]; simpl; by intros [= <- <-].
Qed.

Lemma setitem_failure st s key value e st' :
  __setitem__ s key value st = (inl e, st') -> st' = st.
Proof.
  unfold __setitem__. cbv zeta.
  generalize (match value with PyStore d => PyArr (values d) | _ => value end).
  clear value. intros value.
  unfold bind at 1. unfold read.
  destruct (heap st !! values s) as [[a|cells]|] eqn:E; simpl.
  - unfold bind at 1.
    match goal with |- context [match ?m st with _ => _ end] =>
      destruct (m st) as [[e1|v] st1] eqn:Ev end.
    + apply value_array_run in Ev as ->. by intros [= <- <-].
    + apply value_array_run in Ev as ->.
      unfold bind, lift. destruct (np_setitem a key v); simpl; [|done].
      by intros [= <- <-].
  - destruct key as [|i [|j key]]; [by intros [= <- <-]| |by intros [= <- <-]].
    destruct (norm_index (length cells) i) as [n|]; [|by intros [= <- <-]].
    unfold set_cell, bind, read_obj, bind, read.
    destruct value as [| | | |l|d|]; simpl; try (by intros [= <- <-]).
    all: rewrite E; simpl; destruct (n <? length cells); simpl;
      [done|by intros [= <- <-]].
  - by intros [= <- <-].
Qed.

(** ** Operands that cannot be broadcast together *)

Lemma broadcast_shapes_clash sa sb :
  shapes_clash sa sb -> broadcast_shapes sa sb = None.
Proof.
  intros (k & x & y & Ha & Hb & Hxy & Hx & Hy).
  revert sb k Ha Hb. induction sa as [|x0 sa IH]; intros sb k Ha Hb; [done|].
  destruct sb as [|y0 sb]; [done|]. simpl.
  destruct k as [|k]; simpl in Ha, Hb.
  - simplify_eq. destruct (broadcast_shapes sa sb); [|done].
    apply Nat.eqb_neq in Hxy, Hx, Hy. by rewrite Hxy, Hx, Hy.
  - by rewrite (IH _ _ Ha Hb).
Qed.

Lemma np_binop_clash f a b :
  ndim a = ndim b -> shapes_clash (shape a) (shape b) ->
  np_binop f a b = inl broadcast_error.
Proof.
  intros Hn Hc. unfold np_binop. rewrite <- Hn, Nat.max_id.
  unfold ndim at 1. rewrite pad_shape_same.
  rewrite Hn. unfold ndim. rewrite pad_shape_same.
  by rewrite (broadcast_shapes_clash _ _ Hc).
Qed.

Lemma np_arith_clash f st a b ta tb :
  store_at (heap st) a = Some ta -> store_at (heap st) b = Some tb ->
  operands_clash ta tb ->
  (v <- np_arith f (values a) (PyArr (values b)) ;; __init__ PyNone v) st
  = (inl broadcast_error, st).
Proof.
  intros Ha Hb Hc. unfold bind at 1.
  assert (np_arith f (values a) (PyArr (values b)) st = (inl broadcast_error, st))
    as ->; [|done].
  unfold np_arith, bind, read.
  destruct ta as [ta|els1], tb as [tb|els2]; try done.
  - apply store_at_dense in Ha as [_ Ha%num_at_lookup].
    apply store_at_dense in Hb as [_ Hb%num_at_lookup].
    destruct Hc as [Hn Hc]. rewrite Ha. unfold read_num, bind, read.
    rewrite Hb. simpl. by rewrite (np_binop_clash _ _ _ Hn Hc).
  - apply store_at_ragged in Ha as [_ (c1 & Ha & He1)%tensors_at_ragged].
    apply store_at_ragged in Hb as [_ (c2 & Hb & He2)%tensors_at_ragged].
    destruct Hc as (Hne & H1 & H2). rewrite Ha.
    unfold read_obj, bind, read. rewrite Hb. simpl.
    rewrite (cells_at_length _ _ _ He1), (cells_at_length _ _ _ He2).
    apply Nat.eqb_neq in Hne, H1, H2. by rewrite Hne, H1, H2.
Qed.

(** ** Construction from a flat list of dimensions *)

Lemma zeros_of_list_ints ds zs :
  ints_of ds = Some zs ->
  zeros_of_list ds
  = if existsb (fun z => (z <? 0)%Z) zs
    then inl (ValueError "negative dimensions are not allowed")
    else inr (np_zeros (map Z.to_nat (zeros_shape zs))).
Proof.
  intros Hz. unfold zeros_of_list, np_zeros_dims, shape_of_dims.
  destruct ds as [|d [|d' ds]].
  - simpl in Hz. by injection Hz as <-.
  - destruct d; try done. simpl in Hz. injection Hz as <-. simpl.
    rewrite !orb_false_r. by destruct (z <? 0)%Z.
  - rewrite Hz.
    assert (zeros_shape zs = zs) as ->.
    { simpl in Hz. destruct d, d'; try done. simpl in Hz.
      destruct (ints_of ds); [|done]. by injection Hz as <-. }
    by destruct (existsb _ zs).
Qed.

(** ** Rules of partial correctness *)

Section PartialRules.

Context {A B : Type}.

Lemma wlp_ret (a : A) st (Q : A -> state -> Prop) : Q a st -> wlp (ret a) st Q.
Proof. done. Qed.

Lemma wlp_raise e st (Q : A -> state -> Prop) : wlp (raise e) st Q.
Proof. done. Qed.

Lemma wlp_bind (m : M A) (k : A -> M B) st (Q : B -> state -> Prop) :
  wlp m st (fun a st' => wlp (k a) st' Q) -> wlp (bind m k) st Q.
Proof.
  unfold wlp, bind. destruct (m st) as [[e|a] st']; done.
Qed.

Lemma wlp_mono (m : M A) st (Q Q' : A -> state -> Prop) :
  wlp m st Q -> (forall a st', Q a st' -> Q' a st') -> wlp m st Q'.
Proof.
  unfold wlp. destruct (m st) as [[e|a] st']; [done|]. intros H HQ. by apply HQ.
Qed.

Lemma wlp_run (m : M A) st (Q : A -> state -> Prop) a st' :
  wlp m st Q -> m st = (inr a, st') -> Q a st'.
Proof. unfold wlp. intros H E. by rewrite E in H. Qed.

Lemma wlp_lift (r : exn + A) st (Q : A -> state -> Prop) :
  (forall a, r = inr a -> Q a st) -> wlp (lift r) st Q.
Proof. destruct r as [e|a]; [done|]. intros H. by apply H. Qed.

End PartialRules.

Lemma wlp_alloc o st (Q : loc -> state -> Prop) :
  Q (length (heap st)) (St (heap st ++ [o]) (warnings st)) -> wlp (alloc o) st Q.
Proof. done. Qed.

Lemma wlp_read l st (Q : obj -> state -> Prop) :
  (forall o, heap st !! l = Some o -> Q o st) -> wlp (read l) st Q.
Proof.
  unfold wlp, read. destruct (heap st !! l); [|done]. intros H. by apply H.
Qed.

Lemma wlp_read_num l st (Q : ndarray -> state -> Prop) :
  (forall a, num_at (heap st) l = Some a -> Q a st) -> wlp (read_num l) st Q.
Proof.
  intros H. apply wlp_bind, wlp_read. intros [a|c] Ho; [|done].
  apply wlp_ret, H. by apply num_at_lookup.
Qed.

Lemma wlp_read_obj l st (Q : list (option loc) -> state -> Prop) :
  (forall cells, heap st !! l = Some (OObj cells) -> Q cells st) ->
  wlp (read_obj l) st Q.
Proof.
  intros H. apply wlp_bind, wlp_read. intros [a|c] Ho; [done|].
  by apply wlp_ret, H.
Qed.

Lemma wlp_get_cell l i st (Q : option loc -> state -> Prop) :
  (forall cells c, heap st !! l = Some (OObj cells) -> cells !! i = Some c ->
     Q c st) ->
  wlp (get_cell l i) st Q.
Proof.
  intros H. apply wlp_bind, wlp_read_obj. intros cells Hc.
  destruct (cells !! i) as [c|] eqn:E; [|done]. by eapply wlp_ret, H.
Qed.

Lemma wlp_set_cell l i c st (Q : unit -> state -> Prop) :
  (forall cells, heap st !! l = Some (OObj cells) -> i < length cells ->
     Q tt (St (<[l := OObj (<[i := c]> cells)]> (heap st)) (warnings st))) ->
  wlp (set_cell l i c) st Q.
Proof.
  intros H. apply wlp_bind, wlp_read_obj. intros cells Hc.
  destruct (i <? length cells) eqn:E; [|done].
  apply Nat.ltb_lt in E. by apply H.
Qed.

Lemma wlp_cell_array e c st (Q : ndarray -> state -> Prop) :
  (forall l a, c = Some l -> num_at (heap st) l = Some a -> Q a st) ->
  wlp (cell_array e c) st Q.
Proof.
  intros H. destruct c as [l|]; [|done]. apply wlp_read_num.
  intros a Ha. by eapply H.
Qed.

Lemma wlp_for_each {A} (I : nat -> state -> Prop) (xs : list A)
    (body : A -> M unit) st :
  I 0 st ->
  (forall k x st', xs !! k = Some x -> I k st' ->
     wlp (body x) st' (fun _ st'' => I (S k) st'')) ->
  wlp (for_each xs body) st (fun _ st' => I (length xs) st').
Proof.
  revert I st. induction xs as [|x xs IH]; intros I st H0 Hstep; [done|].
  simpl. apply wlp_bind.
  eapply wlp_mono; [apply (Hstep 0 x st); done|].
  intros u st' H1. simpl in H1.
  apply (IH (fun k => I (S k))); [done|].
  intros k y st'' Hy HI. by apply (Hstep (S k)).
Qed.

Lemma wlp_for_range (I : nat -> state -> Prop) n (body : nat -> M unit) st :
  I 0 st ->
  (forall k st', k < n -> I k st' ->
     wlp (body k) st' (fun _ st'' => I (S k) st'')) ->
  wlp (for_each (seq 0 n) body) st (fun _ st' => I n st').
Proof.
  intros H0 Hstep.
  eapply wlp_mono.
  - apply (wlp_for_each I); [done|].
    intros k x st' Hx HI. apply lookup_seq in Hx as [-> Hk].
    by apply Hstep.
  - intros u st'. by rewrite length_seq.
Qed.

(** ** What the constructor establishes *)

Lemma ndim_expand_dims a : ndim (expand_dims a) = S (ndim a).
Proof.
  unfold ndim, expand_dims. simpl. destruct (shape a) as [|x s]; simpl; [done|].
  rewrite drop_0. done.
Qed.

Lemma ndim_promote a : ndim (promote a) <> 1.
Proof.
  unfold promote. destruct (ndim a =? 1) eqn:E.
  - apply Nat.eqb_eq in E. rewrite ndim_expand_dims. lia.
  - by apply Nat.eqb_neq in E.
Qed.

Lemma np_zeros_dims_ndim ds z : np_zeros_dims ds = inr z -> ndim z = length ds.
Proof.
  unfold np_zeros_dims, shape_of_dims.
  destruct (ints_of ds) as [zs|] eqn:E; [|done].
  destruct (existsb _ zs); [done|]. intros [= <-].
  unfold ndim. simpl. rewrite length_map. by eapply ints_of_length.
Qed.

Lemma zeros_of_list_ndim ds z : zeros_of_list ds = inr z -> ndim z <> 1.
Proof.
  unfold zeros_of_list. destruct ds as [|d [|d' ds]];
    intros H%np_zeros_dims_ndim; rewrite H; simpl; lia.
Qed.

Lemma building_init h n :
  building (h ++ [OObj (replicate n None)]) (length h) n 0.
Proof.
  exists [], []. rewrite Nat.sub_0_r. split; [apply lookup_alloc|].
  split; [done|]. split; constructor.
Qed.

Lemma building_app h new out n k :
  building h out n k -> building (h ++ new) out n k.
Proof.
  intros (locs & els & Ho & Hlen & HF & Hnd). exists locs, els.
  split; [by apply lookup_app_l_Some|]. split; [done|]. split; [|done].
  eapply Forall2_num_in_impl; [|done]. intros l a. apply num_at_app.
Qed.

Lemma building_insert_obj h out n k v c0 c :
  building h out n k -> v <> out -> h !! v = Some (OObj c0) ->
  building (<[v := OObj c]> h) out n k.
Proof.
  intros (locs & els & Ho & Hlen & HF & Hnd) Hne Hv. exists locs, els.
  split; [by rewrite list_lookup_insert_ne|]. split; [done|]. split; [|done].
  eapply Forall2_num_in_impl; [|done]. intros l a Hl.
  by erewrite num_at_insert_obj.
Qed.

Lemma building_step h out n k f a cells :
  building h out n k -> k < n -> num_at h f = Some a -> ndim a <> 1 ->
  h !! out = Some (OObj cells) ->
  building (<[out := OObj (<[k := Some f]> cells)]> h) out n (S k).
Proof.
  intros (locs & els & Ho & Hlen & HF & Hnd) Hk Hf Ha Hc.
  rewrite Ho in Hc. injection Hc as <-.
  exists (locs ++ [f]), (els ++ [a]).
  assert (Hnum : forall l x, num_at h l = Some x ->
            num_at (<[out := OObj (<[k := Some f]>
              (map Some locs ++ replicate (n - k) None))]> h) l = Some x).
  { intros l x Hl. by erewrite num_at_insert_obj. }
  split.
  { rewrite list_lookup_insert_eq; [|by eapply lookup_lt_Some].
    do 2 f_equal. rewrite insert_app_r_alt; [|rewrite length_map; lia].
    rewrite length_map, Hlen, Nat.sub_diag.
    replace (n - k) with (S (n - S k)) by lia. simpl.
    rewrite map_app. simpl. by rewrite <- app_assoc. }
  split; [rewrite length_app; simpl; lia|].
  split.
  - apply Forall2_app.
    + eapply Forall2_num_in_impl; [exact Hnum|done].
    + constructor; [|constructor]. by apply Hnum.
  - apply Forall_app. split; [done|]. by constructor.
Qed.

Lemma building_done h out n :
  building h out n n ->
  exists els, tensors_at h out = Some (Ragged els) /\
    Forall (fun a => ndim a <> 1) els.
Proof.
  intros (locs & els & Ho & Hlen & HF & Hnd). exists els. split; [|done].
  apply tensors_at_ragged. exists (map Some locs).
  rewrite Nat.sub_diag in Ho. simpl in Ho. rewrite app_nil_r in Ho.
  split; [done|]. by apply cells_at_intro.
Qed.

Lemma store_wf_dense h l a :
  num_at h l = Some a -> ndim a <> 1 -> store_wf h (mkDirichlet false l).
Proof.
  intros Hl Ha. exists (Dense a). split; [by apply store_at_dense|].
  by constructor.
Qed.

Lemma store_wf_ragged h l n :
  building h l n n -> store_wf h (mkDirichlet true l).
Proof.
  intros (els & Ht & Hnd)%building_done. exists (Ragged els).
  split; [by apply store_at_ragged|done].
Qed.

Lemma wlp_construct_values st values :
  wlp (construct_values values) st (fun d st' => store_wf (heap st') d).
Proof.
  destruct values as [| | | |v| |]; try apply wlp_raise.
  unfold construct_values. apply wlp_bind, wlp_read. intros [a|cells] Ho.
  - apply wlp_bind.
    apply (wlp_mono _ _ (fun v' st' => num_at (heap st') v' = Some (promote a))).
    { unfold promote. destruct (ndim a =? 1).
      - apply wlp_alloc. apply num_at_alloc.
      - apply wlp_ret. by apply num_at_lookup. }
    intros v' st' Hv'. apply wlp_bind, wlp_read_num. intros a' Ha'.
    rewrite Hv' in Ha'. injection Ha' as <-.
    apply wlp_bind, wlp_alloc, wlp_ret. simpl.
    eapply store_wf_dense; [apply num_at_alloc|apply ndim_promote].
  - assert (Hv : v < length (heap st)) by (by eapply lookup_lt_Some).
    apply wlp_bind. unfold np_empty_obj. apply wlp_alloc.
    set (sv := length (heap st)). set (n := length cells).
    assert (Hne : v <> sv) by (unfold sv; lia).
    apply wlp_bind.
    eapply wlp_mono.
    { apply (wlp_for_range (fun k st' => building (heap st') sv n k)).
      { apply building_init. }
      intros k st1 Hk HI.
      apply wlp_bind, wlp_get_cell. intros cv c Hcv Hc.
      apply wlp_bind, wlp_cell_array. intros l array -> Hl.
      apply wlp_bind.
      destruct (ndim array =? 1) eqn:En.
      - apply Nat.eqb_eq in En.
        apply wlp_bind, wlp_alloc, wlp_set_cell. simpl.
        intros cv1 Hcv1 Hlt.
        apply wlp_bind, wlp_get_cell. simpl. intros cv2 c2 Hcv2 Hc2.
        pose proof (lookup_lt_Some _ _ _ Hcv) as Hv1.
        rewrite list_lookup_insert_eq in Hcv2;
          [|rewrite length_app; simpl; lia].
        injection Hcv2 as <-.
        rewrite list_lookup_insert_eq in Hc2; [|done]. injection Hc2 as <-.
        apply wlp_bind, wlp_cell_array. simpl. intros l2 a2 [= <-] Ha2.
        erewrite num_at_insert_obj in Ha2; [|done].
        rewrite num_at_alloc in Ha2. injection Ha2 as <-.
        apply wlp_bind, wlp_alloc, wlp_set_cell. simpl.
        intros cs Hcs Hlts.
        eapply building_step; [|done| | |done].
        + apply building_app. eapply building_insert_obj; [|done|done].
          by apply building_app.
        + apply num_at_alloc.
        + rewrite ndim_expand_dims. lia.
      - apply Nat.eqb_neq in En. apply wlp_ret.
        apply wlp_bind, wlp_get_cell. intros cv2 c2 Hcv2 Hc2.
        rewrite Hcv in Hcv2. injection Hcv2 as <-.
        rewrite Hc in Hc2. injection Hc2 as <-.
        apply wlp_bind, wlp_cell_array. intros l2 a2 [= <-] Ha2.
        rewrite Hl in Ha2. injection Ha2 as <-.
        apply wlp_bind, wlp_alloc, wlp_set_cell. simpl.
        intros cs Hcs Hlts.
        eapply building_step; [|done| |done|done].
        + by apply building_app.
        + apply num_at_alloc. }
    intros [] st' Hb. apply wlp_ret. simpl. by eapply store_wf_ragged.
Qed.

Lemma wlp_construct_dims st dims :
  wlp (construct_dims dims) st (fun d st' => store_wf (heap st') d).
Proof.
  destruct dims as [|n| |els| | |]; try apply wlp_raise.
  - simpl. apply wlp_bind, wlp_lift. intros z Hz.
    apply wlp_bind, wlp_alloc, wlp_ret. simpl.
    eapply store_wf_dense; [apply num_at_alloc|].
    apply np_zeros_dims_ndim in Hz. rewrite Hz. simpl. lia.
  - unfold construct_dims. destruct (existsb is_list els).
    + destruct (negb (forallb is_list els)); [apply wlp_raise|].
      apply wlp_bind. unfold np_empty_obj. apply wlp_alloc.
      set (sv := length (heap st)). set (n := length els).
      apply wlp_bind.
      eapply wlp_mono.
      { apply (wlp_for_range (fun k st' => building (heap st') sv n k)).
        { apply building_init. }
        intros k st1 Hk HI.
        destruct (els !! k) as [[| | |di| | |]|]; try apply wlp_raise.
        apply wlp_bind, wlp_lift. intros z Hz.
        apply wlp_bind, wlp_alloc, wlp_set_cell. simpl. intros cs Hcs Hlt.
        eapply building_step; [|done| | |done].
        - by apply building_app.
        - apply num_at_alloc.
        - by eapply zeros_of_list_ndim. }
      intros [] st' Hb. apply wlp_ret. simpl. by eapply store_wf_ragged.
    + apply wlp_bind, wlp_lift. intros z Hz.
      apply wlp_bind, wlp_alloc, wlp_ret. simpl.
      eapply store_wf_dense; [apply num_at_alloc|].
      by eapply zeros_of_list_ndim.
Qed.

Lemma wlp_init st dims values :
  wlp (__init__ dims values) st (fun d st' => store_wf (heap st') d).
Proof.
  unfold __init__.
  destruct (negb (is_none values) && negb (is_none dims)); [apply wlp_raise|].
  destruct (is_none values && is_none dims).
  { apply wlp_bind, wlp_alloc, wlp_ret. simpl.
    eapply store_wf_dense; [apply num_at_alloc|]. done. }
  destruct (negb (is_none values)).
  - apply wlp_construct_values.
  - apply wlp_construct_dims.
Qed.

(** ** Logarithms of a store without zeros *)





(** ** Zero-valued tensors *)

Lemma nth_replicate_default {A} n k (x : A) : nth k (replicate n x) x = x.
Proof.
  revert k. induction n as [|n IH]; intros [|k]; simpl; by try done.
Qed.

Lemma entry_zeros s i j : entry (np_zeros s) i j = 0%float.
Proof. unfold entry, np_zeros. simpl. apply nth_replicate_default. Qed.

Lemma column_zeros c d0 m j :
  column c d0 (replicate m 0%float) j = replicate d0 0%float.
Proof.
  unfold column.
  assert (H : forall l : list nat,
            map (fun i => nth (i * c + j) (replicate m 0%float) 0%float) l
            = replicate (length l) 0%float).
  { induction l as [|i l IH]; [done|].
    simpl. by rewrite nth_replicate_default, IH. }
  by rewrite H, length_seq.
Qed.

Lemma col_sum_zeros fsum s j :
  col_sum fsum (np_zeros s) j = fsum (replicate (nrows (np_zeros s)) 0%float).
Proof. unfold col_sum, np_zeros. simpl. by rewrite column_zeros. Qed.

Lemma tensor_ok_zeros s : 2 <= length s -> tensor_ok (np_zeros s) = true.
Proof.
  intros Hs. unfold tensor_ok, nd_ok, np_zeros, ndim. simpl.
  rewrite length_replicate, Nat.eqb_refl.
  by destruct s as [|? [|? ?]]; simpl in *; try lia.
Qed.

Lemma dims_shape_length zs s : dims_shape zs = Some s -> 2 <= length s.
Proof.
  unfold dims_shape. destruct (forallb _ zs); [|done].
  destruct zs as [|z [|z' zs]]; intros [= <-]; simpl; lia.
Qed.

Lemma flat_zeros_inv ds z :
  flat_zeros ds = Some z -> exists s, z = np_zeros s /\ 2 <= length s.
Proof.
  unfold flat_zeros. destruct (ints_of ds) as [zs|]; [|done].
  destruct (dims_shape zs) as [s|] eqn:E; [|done]. intros [= <-].
  exists s. split; [done|]. by eapply dims_shape_length.
Qed.

Lemma ragged_zeros_inv els zs :
  ragged_zeros els = Some zs ->
  Forall (fun z => exists s, z = np_zeros s /\ 2 <= length s) zs.
Proof.
  revert zs. induction els as [|el els IH]; intros zs; simpl.
  - intros [= <-]. constructor.
  - destruct el; try done.
    destruct (flat_zeros l) as [z|] eqn:Ez; [|done].
    destruct (ragged_zeros els) as [zs'|]; [|done]. intros [= <-].
    constructor; [by eapply flat_zeros_inv|by apply IH].
Qed.

Lemma dims_tensors_inv dims t :
  dims_tensors dims = Some t ->
  Forall (fun z => exists s, z = np_zeros s /\ 2 <= length s) (arrays_of t).
Proof.
  unfold dims_tensors. destruct dims as [|n| |els| | |]; try done.
  - destruct (dims_shape [n]) as [s|] eqn:E; [|done]. intros [= <-].
    constructor; [|constructor]. exists s. split; [done|].
    by eapply dims_shape_length.
  - destruct (ints_of els).
    + destruct (flat_zeros els) as [z|] eqn:E; [|done]. intros [= <-].
      constructor; [|constructor]. by eapply flat_zeros_inv.
    + destruct (ragged_zeros els) as [zs|] eqn:E; [|done]. intros [= <-].
      by eapply ragged_zeros_inv.
Qed.

Lemma tensors_ok_arrays t :
  Forall (fun a => tensor_ok a = true) (arrays_of t) -> tensors_ok t = true.
Proof.
  destruct t as [a|els]; simpl.
  - by inversion 1.
  - intros H. apply forallb_forall. intros a Ha%list_elem_of_In.
    by eapply Forall_forall in H.
Qed.

Lemma tensors_rel_arrays (R R' : ndarray -> ndarray -> Prop) P t t' :
  Forall P (arrays_of t) -> tensors_rel R t t' ->
  (forall a r, P a -> R a r -> R' a r) -> tensors_rel R' t t'.
Proof.
  intros HP HR Himp. destruct t as [a|els], t' as [r|rs]; simpl in *; try done.
  - inversion HP; subst. by apply Himp.
  - induction HR as [|a r els rs Har HR IH]; [constructor|].
    inversion HP; subst. constructor; [by apply Himp|by apply IH].
Qed.

Lemma promote_id a : ndim a <> 1 -> promote a = a.
Proof. unfold promote. intros H%Nat.eqb_neq. by rewrite H. Qed.

Lemma tensors_map_promote_id t :
  Forall (fun a => ndim a <> 1) (arrays_of t) -> tensors_map promote t = t.
Proof.
  destruct t as [a|els]; simpl.
  - inversion 1; subst. by rewrite promote_id.
  - intros H. f_equal. induction H as [|a l Ha H IH]; [done|].
    simpl. by rewrite promote_id, IH.
Qed.

(** ** Stores returned by the methods *)

Lemma wlp_any {A} (m : M A) st : wlp m st (fun _ _ => True).
Proof. unfold wlp. by destruct (m st) as [[e|a] st']. Qed.

Ltac wlp_skip :=
  apply wlp_bind; eapply wlp_mono; [apply wlp_any|]; intros ? ? _.

Lemma wlp_wrap st v :
  wlp (d <- __init__ PyNone v ;; ret (PyStore d)) st
    (fun r st' => forall d, r = PyStore d -> store_wf (heap st') d).
Proof.
  apply wlp_bind. eapply wlp_mono; [apply wlp_init|].
  intros d st' Hd. apply wlp_ret. by intros d' [= <-].
Qed.

Lemma wlp_store_arith f st self other :
  wlp (match other with
       | PyStore o =>
           v <- np_arith f (values self) (PyArr (values o)) ;;
           __init__ PyNone v
       | _ =>
           v <- np_arith f (values self) other ;;
           __init__ PyNone v
       end) st (fun d st' => store_wf (heap st') d).
Proof. destruct other; wlp_skip; apply wlp_init. Qed.

Lemma wlp_getitem st self key :
  wlp (__getitem__ self key) st
    (fun r st' => forall d, r = PyStore d -> store_wf (heap st') d).
Proof.
  unfold __getitem__. apply wlp_bind, wlp_read. intros [a|cells] Ho.
  - destruct (np_getitem a key) as [e|[x|sub]]; [apply wlp_raise|by apply wlp_ret|].
    do 2 wlp_skip. apply wlp_wrap.
  - destruct key as [|i [|j key]]; try apply wlp_raise.
    destruct (norm_index (length cells) i); [|apply wlp_raise].
    wlp_skip. destruct a as [l|]; [|by apply wlp_ret].
    do 2 wlp_skip. apply wlp_wrap.
Qed.

Lemma wlp_wnorm fsum st self :
  wlp (wnorm fsum self false) st
    (fun r st' => forall d, r = PyStore d -> store_wf (heap st') d).
Proof.
  unfold wnorm. destruct (IS_AOA self).
  - do 3 wlp_skip. apply wlp_wrap.
  - do 4 wlp_skip. apply wlp_wrap.
Qed.

Lemma wlp_log np_log st self :
  wlp (log np_log self false) st
    (fun r st' => forall d, r = PyStore d -> store_wf (heap st') d).
Proof. unfold log. do 3 wlp_skip. apply wlp_wrap. Qed.

Lemma wlp_copy st self :
  wlp (copy self) st (fun d st' => store_wf (heap st') d).
Proof. unfold copy. wlp_skip. apply wlp_init. Qed.

(** ** A ragged store of one element as an operand *)

Lemma wp_arith_obj_single f st self c1 x l cells2 els2 rs
    (Q : Dirichlet -> state -> Prop) :
  heap st !! values self = Some (OObj [Some c1]) ->
  num_at (heap st) c1 = Some x -> 2 <= ndim x ->
  heap st !! l = Some (OObj cells2) ->
  cells_at (heap st) cells2 = Some els2 ->
  Forall2 (fun y r => np_binop f x y = inr r) els2 rs ->
  (forall st' sv,
     extends st st' -> length (heap st) <= sv ->
     tensors_at (heap st') sv = Some (Ragged rs) ->
     Q (mkDirichlet true sv) st') ->
  wp (v <- np_arith f (values self) (PyArr l) ;; __init__ PyNone v) st Q.
Proof.
  intros Hc1 Hx Hx2 Hc2 Hels2 Hrs HQ.
  pose proof (cells_at_length _ _ _ Hels2) as Hlen2.
  pose proof (Forall2_length _ _ _ Hrs) as Hlenr.
  apply wp_bind. unfold np_arith.
  apply wp_bind. apply (wp_read _ _ _ _ Hc1).
  apply wp_bind. apply (wp_read_obj _ _ _ _ Hc2).
  apply wp_bind.
  apply (wp_mono _ _ (fun n st' => n = length cells2 /\ st' = st)).
  { change (length [Some c1]) with 1.
    destruct (Nat.eqb_spec 1 (length cells2)) as [E|E].
    - by apply (wp_ret 1).
    - by apply (wp_ret (length cells2)). }
  intros n st0 [-> ->].
  apply wp_bind. apply wp_alloc. simpl.
  set (out := length (heap st)).
  apply wp_bind.
  eapply wp_mono.
  { apply (wp_for_range (fun k st' =>
      heap st `prefix_of` heap st' /\ warnings st' = warnings st /\
      filled (heap st') out (replicate (length cells2) None) rs k)).
    - simpl. split; [by apply prefix_app_r|]. split; [done|].
      apply filled_init. apply lookup_alloc.
    - intros k st' Hk (Hp & Hw & Hf).
      destruct (cells_at_lookup _ _ _ k Hels2 Hk) as (l2 & b & Hck2 & Hn2 & Hb).
      destruct (Forall2_lookup_l _ _ _ _ _ Hrs Hb) as (r & Hr & Hbin).
      replace (if length cells2 =? 1 then 0 else k) with k.
      2:{ destruct (Nat.eqb_spec (length cells2) 1); lia. }
      apply wp_bind. eapply wp_get_cell; [by eapply prefix_lookup_Some|done|].
      apply wp_bind. eapply wp_cell_array; [by eapply num_at_prefix|].
      apply wp_bind. eapply wp_get_cell; [by eapply prefix_lookup_Some|done|].
      apply wp_bind. eapply wp_cell_array; [by eapply num_at_prefix|].
      apply wp_bind. unfold cell_binop.
      apply wp_bind. apply (wp_lift _ _ _ _ Hbin).
      assert ((ndim x =? 0) = false) as -> by (apply Nat.eqb_neq; lia). simpl.
      apply wp_alloc. simpl.
      eapply (wp_fill_cell _ out (replicate (length cells2) None) rs k);
        simpl; [done| | |done| |].
      + eapply filled_prefix; [done|]. by apply prefix_app_r.
      + rewrite length_replicate. lia.
      + apply num_at_alloc.
      + intros cells0 Hc0 Hf'. split; [|done].
        apply prefix_insert_ge; [|by apply prefix_length].
        etrans; [done|]. by apply prefix_app_r. }
  intros [] st' (Hp & Hw & Hf). simpl. apply wp_ret.
  assert (Htout : tensors_at (heap st') out = Some (Ragged rs)).
  { apply (filled_done _ _ (replicate (length cells2) None)).
    - rewrite length_replicate. lia.
    - replace (length rs) with (length cells2) by lia. done. }
  eapply wp_init_obj_ge2; [done| |].
  { apply Forall_forall. intros r Hr.
    apply list_elem_of_lookup in Hr as [i Hi].
    destruct (Forall2_lookup_r _ _ _ _ _ Hrs Hi) as (y & Hy & Hbin).
    rewrite (np_binop_ndim _ _ _ _ Hbin). lia. }
  intros st2 sv Hext Hsv Hts. apply HQ; [|  |done].
  - destruct Hext as [Hp2 Hw2]. split; [by etrans|congruence].
  - pose proof (prefix_length _ _ Hp). lia.
Qed.

(** ** Rules for computations with a frame *)

Section FrameRules.

Context {A B : Type} (K : state -> Prop).

Lemma wfr_ret (a : A) st (Q : A -> state -> Prop) : Q a st -> wfr K (ret a) st Q.
Proof. done. Qed.

Lemma wfr_raise e st (Q : A -> state -> Prop) : K st -> wfr K (raise e) st Q.
Proof. done. Qed.

Lemma wfr_bind (m : M A) (k : A -> M B) st (Q : B -> state -> Prop) :
  wfr K m st (fun a st' => wfr K (k a) st' Q) -> wfr K (bind m k) st Q.
Proof.
  unfold wfr, bind. destruct (m st) as [[e|a] st']; done.
Qed.

Lemma wfr_mono (m : M A) st (Q Q' : A -> state -> Prop) :
  wfr K m st Q -> (forall a st', Q a st' -> Q' a st') -> wfr K m st Q'.
Proof.
  unfold wfr. destruct (m st) as [[e|a] st']; [done|]. intros H HQ. by apply HQ.
Qed.

Lemma wfr_lift (r : exn + A) st (Q : A -> state -> Prop) :
  K st -> (forall a, r = inr a -> Q a st) -> wfr K (lift r) st Q.
Proof. destruct r as [e|a]; [done|]. intros _ H. by apply H. Qed.

(** Whatever the outcome, the final state is in the frame. *)
Lemma wfr_final (m : M A) st (Q : A -> state -> Prop) r st' :
  wfr K m st Q -> (forall a st', Q a st' -> K st') -> m st = (r, st') -> K st'.
Proof.
  unfold wfr. intros H HQ E. rewrite E in H. destruct r as [e|a]; [done|].
  by eapply HQ.
Qed.

End FrameRules.

Section FramePrimitives.

Context (K : state -> Prop).

Lemma wfr_alloc o st (Q : loc -> state -> Prop) :
  Q (length (heap st)) (St (heap st ++ [o]) (warnings st)) ->
  wfr K (alloc o) st Q.
Proof. done. Qed.

Lemma wfr_write l o st (Q : unit -> state -> Prop) :
  Q tt (St (<[l := o]> (heap st)) (warnings st)) -> wfr K (write l o) st Q.
Proof. done. Qed.

Lemma wfr_read l st (Q : obj -> state -> Prop) :
  K st -> (forall o, heap st !! l = Some o -> Q o st) -> wfr K (read l) st Q.
Proof.
  unfold wfr, read. destruct (heap st !! l); [|done]. intros _ H. by apply H.
Qed.

Lemma wfr_read_num l st (Q : ndarray -> state -> Prop) :
  K st -> (forall a, num_at (heap st) l = Some a -> Q a st) ->
  wfr K (read_num l) st Q.
Proof.
  intros HK H. apply wfr_bind, wfr_read; [done|]. intros [a|c] Ho.
  - apply wfr_ret, H. by apply num_at_lookup.
  - by apply wfr_raise.
Qed.

Lemma wfr_read_obj l st (Q : list (option loc) -> state -> Prop) :
  K st -> (forall cells, heap st !! l = Some (OObj cells) -> Q cells st) ->
  wfr K (read_obj l) st Q.
Proof.
  intros HK H. apply wfr_bind, wfr_read; [done|]. intros [a|c] Ho.
  - by apply wfr_raise.
  - by apply wfr_ret, H.
Qed.

Lemma wfr_get_cell l i st (Q : option loc -> state -> Prop) :
  K st ->
  (forall cells c, heap st !! l = Some (OObj cells) -> cells !! i = Some c ->
     Q c st) ->
  wfr K (get_cell l i) st Q.
Proof.
  intros HK H. apply wfr_bind, wfr_read_obj; [done|]. intros cells Hc.
  destruct (cells !! i) as [c|] eqn:E.
  - by eapply wfr_ret, H.
  - by apply wfr_raise.
Qed.

Lemma wfr_set_cell l i c st (Q : unit -> state -> Prop) :
  K st ->
  (forall cells, heap st !! l = Some (OObj cells) -> i < length cells ->
     Q tt (St (<[l := OObj (<[i := c]> cells)]> (heap st)) (warnings st))) ->
  wfr K (set_cell l i c) st Q.
Proof.
  intros HK H. apply wfr_bind, wfr_read_obj; [done|]. intros cells Hc.
  destruct (i <? length cells) eqn:E.
  - apply Nat.ltb_lt in E. by apply wfr_write, H.
  - by apply wfr_raise.
Qed.

Lemma wfr_cell_array e c st (Q : ndarray -> state -> Prop) :
  K st ->
  (forall l a, c = Some l -> num_at (heap st) l = Some a -> Q a st) ->
  wfr K (cell_array e c) st Q.
Proof.
  intros HK H. destruct c as [l|]; [|by apply wfr_raise].
  apply wfr_read_num; [done|]. intros a Ha. by eapply H.
Qed.

Lemma wfr_for_each {A} (I : nat -> state -> Prop) (xs : list A)
    (body : A -> M unit) st :
  I 0 st ->
  (forall k x st', xs !! k = Some x -> I k st' ->
     wfr K (body x) st' (fun _ st'' => I (S k) st'')) ->
  wfr K (for_each xs body) st (fun _ st' => I (length xs) st').
Proof.
  revert I st. induction xs as [|x xs IH]; intros I st H0 Hstep; [done|].
  simpl. apply wfr_bind.
  eapply wfr_mono; [apply (Hstep 0 x st); done|].
  intros u st' H1. simpl in H1.
  apply (IH (fun k => I (S k))); [done|].
  intros k y st'' Hy HI. by apply (Hstep (S k)).
Qed.

Lemma wfr_for_range (I : nat -> state -> Prop) n (body : nat -> M unit) st :
  I 0 st ->
  (forall k st', k < n -> I k st' ->
     wfr K (body k) st' (fun _ st'' => I (S k) st'')) ->
  wfr K (for_each (seq 0 n) body) st (fun _ st' => I n st').
Proof.
  intros H0 Hstep.
  eapply wfr_mono.
  - apply (wfr_for_each I); [done|].
    intros k x st' Hx HI. apply lookup_seq in Hx as [-> Hk].
    by apply Hstep.
  - intros u st'. by rewrite length_seq.
Qed.

(** A loop every step of which keeps the frame. *)
Lemma wfr_loop_keeps n (body : nat -> M unit) st :
  K st ->
  (forall k st', k < n -> K st' ->
     wfr K (body k) st' (fun _ st'' => K st'')) ->
  wfr K (for_each (seq 0 n) body) st (fun _ st' => K st').
Proof.
  intros HK Hstep. by apply (wfr_for_range (fun _ st' => K st')).
Qed.

End FramePrimitives.

(** ** The frame of the constructor and of [remove_zeros]

    [K] is kept by the creation of an object and by the update of an object
    at or beyond [n0]. *)

Section FrameConstructor.

Context (K : state -> Prop) (n0 : nat).
Hypothesis K_alloc :
  forall st o, K st -> K (St (heap st ++ [o]) (warnings st)).
Hypothesis K_fresh :
  forall st l o, K st -> n0 <= l -> K (St (<[l := o]> (heap st)) (warnings st)).
Hypothesis K_len : forall st, K st -> n0 <= length (heap st).


Lemma wfr_construct_dims dims st :
  K st ->
  wfr K (construct_dims dims) st (fun d st' => K st' /\ n0 <= values d).
Proof.
  intros HK. pose proof (K_len _ HK) as Hlen.
  destruct dims as [|n| |els| | |]; try by apply wfr_raise.
  - simpl. apply wfr_bind, wfr_lift; [done|]. intros z _.
    apply wfr_bind, wfr_alloc, wfr_ret. simpl. split; [by apply K_alloc|done].
  - unfold construct_dims. destruct (existsb is_list els).
    + destruct (negb (forallb is_list els)); [by apply wfr_raise|].
      apply wfr_bind. unfold np_empty_obj. apply wfr_alloc.
      apply wfr_bind.
      eapply wfr_mono.
      { apply wfr_loop_keeps; [by apply K_alloc|]. intros k st1 _ HK1.
        destruct (els !! k) as [[| | |di| | |]|]; try by apply wfr_raise.
        apply wfr_bind, wfr_lift; [done|]. intros z _.
        apply wfr_bind, wfr_alloc, wfr_set_cell; [by apply K_alloc|].
        intros cs _ _. apply K_fresh; [by apply K_alloc|done]. }
      intros [] st' HK'. apply wfr_ret. simpl. by split.
    + apply wfr_bind, wfr_lift; [done|]. intros z _.
      apply wfr_bind, wfr_alloc, wfr_ret. simpl. split; [by apply K_alloc|done].
Qed.

Lemma wfr_construct_values vals st :
  K st ->
  (forall v cells, vals = PyArr v -> heap st !! v = Some (OObj cells) ->
     forall st1 o, K st1 -> K (St (<[v := o]> (heap st1)) (warnings st1))) ->
  wfr K (construct_values vals) st (fun d st' => K st' /\ n0 <= values d).
Proof.
  intros HK Hv. pose proof (K_len _ HK) as Hlen.
  destruct vals as [| | | |v| |]; try by apply wfr_raise.
  unfold construct_values. apply wfr_bind, wfr_read; [done|].
  intros [a|cells] Ho.
  - apply wfr_bind.
    apply (wfr_mono _ _ _ (fun _ st' => K st' /\ n0 <= length (heap st'))).
    { destruct (ndim a =? 1).
      - apply wfr_alloc. split; [by apply K_alloc|]. simpl.
        rewrite length_app. lia.
      - by apply wfr_ret. }
    intros v' st1 [HK1 Hl1]. apply wfr_bind, wfr_read_num; [done|].
    intros a' _. apply wfr_bind, wfr_alloc, wfr_ret. simpl.
    split; [by apply K_alloc|done].
  - specialize (Hv v cells eq_refl Ho).
    apply wfr_bind. unfold np_empty_obj. apply wfr_alloc.
    apply wfr_bind.
    eapply wfr_mono.
    { apply wfr_loop_keeps; [by apply K_alloc|]. intros k st1 _ HK1.
      apply wfr_bind, wfr_get_cell; [done|]. intros cs c _ _.
      apply wfr_bind, wfr_cell_array; [done|]. intros l array _ _.
      apply wfr_bind.
      apply (wfr_mono _ _ _ (fun _ st' => K st')).
      { destruct (ndim array =? 1).
        - apply wfr_bind, wfr_alloc, wfr_set_cell; [by apply K_alloc|].
          intros cs1 _ _. apply Hv. by apply K_alloc.
        - by apply wfr_ret. }
      intros [] st2 HK2.
      apply wfr_bind, wfr_get_cell; [done|]. intros cs2 c2 _ _.
      apply wfr_bind, wfr_cell_array; [done|]. intros l2 a2 _ _.
      apply wfr_bind, wfr_alloc, wfr_set_cell; [by apply K_alloc|].
      intros cs3 _ _. apply K_fresh; [by apply K_alloc|done]. }
    intros [] st' HK'. apply wfr_ret. simpl. by split.
Qed.

Lemma wfr_init dims vals st :
  K st ->
  (forall v cells, vals = PyArr v -> heap st !! v = Some (OObj cells) ->
     forall st1 o, K st1 -> K (St (<[v := o]> (heap st1)) (warnings st1))) ->
  wfr K (__init__ dims vals) st (fun d st' => K st' /\ n0 <= values d).
Proof.
  intros HK Hv. unfold __init__.
  destruct (negb (is_none vals) && negb (is_none dims)); [by apply wfr_raise|].
  destruct (is_none vals && is_none dims).
  { apply wfr_bind, wfr_alloc, wfr_ret. simpl.
    split; [by apply K_alloc|by apply K_len]. }
  destruct (negb (is_none vals)).
  - by apply wfr_construct_values.
  - by apply wfr_construct_dims.
Qed.

End FrameConstructor.

(** ** Methods that only create objects

    The frame is [extends st0]: the objects of [st0] are as they were and
    no warning has been issued. *)

Lemma ext_alloc st0 st o :
  extends st0 st -> extends st0 (St (heap st ++ [o]) (warnings st)).
Proof. intros H. eapply extends_trans; [done|apply extends_alloc]. Qed.

Lemma ext_fresh st0 st l o :
  extends st0 st -> length (heap st0) <= l ->
  extends st0 (St (<[l := o]> (heap st)) (warnings st)).
Proof.
  intros [Hp Hw] Hl. split; [|done]. simpl. by apply prefix_insert_ge.
Qed.

Lemma wfr_init_ext st0 dims vals st :
  extends st0 st ->
  (forall v, vals = PyArr v ->
     length (heap st0) <= v \/ exists a, num_at (heap st) v = Some a) ->
  wfr (extends st0) (__init__ dims vals) st
    (fun d st' => extends st0 st' /\ length (heap st0) <= values d).
Proof.
  intros HK Hv.
  apply (wfr_init (extends st0) (length (heap st0))); try done.
  - apply ext_alloc.
  - apply ext_fresh.
  - apply extends_length.
  - intros v cells -> Hc st1 o HK1. destruct (Hv v eq_refl) as [Hf|[a Ha]].
    + by apply ext_fresh.
    + apply num_at_lookup in Ha. by rewrite Hc in Ha.
Qed.












(** ** The frame of the methods that update the receiver *)













(** ** Further properties of the class *)

(** X1.  [contains_zeros] returns [True] exactly when some entry of some
    tensor of the store compares equal to [0.0]; it changes nothing. *)
Theorem contains_zeros_spec st self t :
  store_at (heap st) self = Some t ->
  exists b,
    contains_zeros self st = (inr b, st) /\
    (b = true <->
     exists a x, In a (arrays_of t) /\ In x (data a) /\ (x =? 0)%float = true).
Proof.
  intros Hs.
  destruct (wp_run (contains_zeros self) st
              (fun b st' => b = tensors_any_zero t /\ st' = st))
    as (b & st' & Hrun & -> & ->).
  { by apply (wp_contains_zeros _ _ _ _ Hs). }
  exists (tensors_any_zero t). split; [done|]. apply tensors_any_zero_spec.
Qed.


(** X3.  Construction from a numeric array copies it: the store holds the
    (rank-promoted) entries in a new array object, and the caller's array
    is as it was, also after the store has been updated in place by
    [remove_zeros]. *)
Theorem construct_values_copies st v a :
  num_at (heap st) v = Some a ->
  exists d st' st'',
    __init__ PyNone (PyArr v) st = (inr d, st') /\
    extends st st' /\ length (heap st) <= values d /\
    store_at (heap st') d = Some (Dense (promote a)) /\
    remove_zeros d st' = (inr tt, st'') /\
    store_at (heap st'') d = Some (Dense (floored (promote a))) /\
    num_at (heap st'') v = Some a.
Proof.
  intros Hv.
  destruct (wp_run (__init__ PyNone (PyArr v)) st
    (fun d st' => extends st st' /\ length (heap st) <= values d /\
       store_at (heap st') d = Some (Dense (promote a))))
    as (d & st' & Hrun & Hext & Hd & Hs).
  { eapply wp_init_num; [done|]. intros st' sv Hext Hsv Hn.
    split; [done|]. split; [done|]. by apply store_at_dense. }
  destruct (wp_run (remove_zeros d) st'
    (fun _ st'' => store_at (heap st'') d = Some (Dense (floored (promote a))) /\
       num_at (heap st'') v = Some a))
    as ([] & st'' & Hrun2 & Hs2 & Hv2).
  { apply (wp_remove_zeros _ _ _ _ Hs). intros st'' _ Hse Hs2.
    split; [done|]. destruct Hext as [Hp _].
    pose proof (same_except_prefix _ _ _ _ Hse Hp Hd) as Hp2.
    by eapply num_at_prefix. }
  by exists d, st', st''.
Qed.

(** X4.  [copy] returns a new store of the same representation over new
    storage holding the (rank-promoted) tensors of the receiver, which are
    the tensors themselves when none has rank 1; no existing object is
    changed. *)
Theorem copy_spec st self t :
  store_at (heap st) self = Some t ->
  exists d st',
    copy self st = (inr d, st') /\
    extends st st' /\ length (heap st) <= values d /\
    IS_AOA d = IS_AOA self /\
    store_at (heap st') d = Some (tensors_map promote t) /\
    store_at (heap st') self = Some t /\
    (Forall (fun a => ndim a <> 1) (arrays_of t) -> tensors_map promote t = t).
Proof.
  intros Hs. apply wp_run. apply (wp_copy _ _ _ _ Hs).
  intros st' d Hext Hd Haoa Hsd. repeat (split; [done|]).
  split; [eapply store_at_prefix; [done|]; by destruct Hext|].
  apply tensors_map_promote_id.
Qed.

(** X5.  A copy and its original are independent: flooring the copy in
    place with [remove_zeros] leaves the tensors of the original as they
    were, and flooring the original leaves those of the copy. *)
Theorem copy_independent st self t :
  store_at (heap st) self = Some t ->
  exists d st1,
    copy self st = (inr d, st1) /\
    (exists st2,
       remove_zeros d st1 = (inr tt, st2) /\
       store_at (heap st2) d = Some (tensors_map floored (tensors_map promote t)) /\
       store_at (heap st2) self = Some t) /\
    (exists st2,
       remove_zeros self st1 = (inr tt, st2) /\
       store_at (heap st2) self = Some (tensors_map floored t) /\
       store_at (heap st2) d = Some (tensors_map promote t)).
Proof.
  intros Hs.
  destruct (wp_run (copy self) st
    (fun d st1 => extends st st1 /\ length (heap st) <= values d /\
       IS_AOA d = IS_AOA self /\
       store_at (heap st1) d = Some (tensors_map promote t)))
    as (d & st1 & Hrun & Hext & Hd & Haoa & Hsd).
  { by apply (wp_copy _ _ _ _ Hs). }
  exists d, st1. split; [done|].
  assert (Hs1 : store_at (heap st1) self = Some t).
  { eapply store_at_prefix; [done|]. by destruct Hext. }
  split.
  - apply wp_run_unit.
    apply (wp_remove_zeros _ _ _ _ Hsd). intros st2 _ Hse Hs2.
    split; [done|].
    eapply (store_at_same_except_new st); [exact Hs| |exact Hse|exact Hd].
    by destruct Hext.
  - assert (Hne : values d <> values self).
    { assert (values self < length (heap st)); [|lia].
      unfold store_at, tensors_at in Hs.
      destruct (heap st !! values self) eqn:E; [|done].
      by eapply lookup_lt_Some. }
    apply wp_run_unit.
    by apply (wp_remove_zeros_frame _ _ _ _ _ _ Hs1 Hsd Hne Haoa).
Qed.

(** X6.  Indexing a sub-tensor returns a copy, not a view: the store
    [s[key]] and the store [s] are independent; flooring either of them in
    place with [remove_zeros] leaves the tensors of the other as they
    were. *)
Theorem getitem_returns_copy st s t key sub :
  store_at (heap st) s = Some t ->
  item_of t key = Some (inr sub) ->
  exists e st1,
    __getitem__ s key st = (inr (PyStore e), st1) /\
    store_at (heap st1) e = Some (Dense (promote sub)) /\
    store_at (heap st1) s = Some t /\
    (exists st2,
       remove_zeros e st1 = (inr tt, st2) /\
       store_at (heap st2) e = Some (Dense (floored (promote sub))) /\
       store_at (heap st2) s = Some t) /\
    (exists st2,
       remove_zeros s st1 = (inr tt, st2) /\
       store_at (heap st2) s = Some (tensors_map floored t) /\
       store_at (heap st2) e = Some (Dense (promote sub))).
Proof.
  intros Hs Hitem.
  destruct (wp_run (__getitem__ s key) st
    (fun v st1 => exists e, v = PyStore e /\ extends st st1 /\
       length (heap st) <= values e /\
       store_at (heap st1) e = Some (Dense (promote sub))))
    as (v & st1 & Hrun & e & -> & Hext & He & Hse).
  { apply (wp_getitem _ _ _ _ _ _ Hs Hitem). simpl.
    intros st1 v Hext (e & -> & Hse) (l & [= <-] & Hl). by exists e. }
  exists e, st1. split; [done|]. split; [done|].
  assert (Hs1 : store_at (heap st1) s = Some t).
  { eapply store_at_prefix; [done|]. by destruct Hext. }
  split; [done|].
  assert (Hne : values e <> values s).
  { assert (values s < length (heap st)); [|lia].
    unfold store_at, tensors_at in Hs.
    destruct (heap st !! values s) eqn:E; [|done].
    by eapply lookup_lt_Some. }
  split.
  - apply wp_run_unit.
    apply (wp_remove_zeros _ _ _ _ Hse). intros st2 _ Hex Hs2.
    split; [done|].
    eapply (store_at_same_except_new st); [exact Hs| |exact Hex|exact He].
    by destruct Hext.
  - apply wp_run_unit.
    apply (wp_remove_zeros _ _ _ _ Hs1). intros st2 _ Hex Hs2.
    split; [done|]. by eapply store_at_same_except_dense.
Qed.

(** X7.  Assigning a dense store [d] to a slot of a ragged store [r]
    stores a reference to the array of [d], not a copy: after [r[i] = d],
    flooring [d] in place with [remove_zeros] also changes element [i] of
    [r]. *)
Theorem setitem_ragged_aliases st r els d a i k :
  store_at (heap st) r = Some (Ragged els) ->
  store_at (heap st) d = Some (Dense a) ->
  norm_index (length els) i = Some k ->
  exists st1 st2 els2,
    __setitem__ r [i] (PyStore d) st = (inr tt, st1) /\
    store_at (heap st1) r = Some (Ragged (<[k := a]> els)) /\
    remove_zeros d st1 = (inr tt, st2) /\
    store_at (heap st2) d = Some (Dense (floored a)) /\
    store_at (heap st2) r = Some (Ragged els2) /\
    els2 !! k = Some (floored a).
Proof.
  intros Hr Hd Hi.
  pose proof Hr as [Haoa (cells & Hc & Hels)%tensors_at_ragged]%store_at_ragged.
  pose proof Hd as [Hdf Hda]%store_at_dense.
  pose proof (cells_at_length _ _ _ Hels) as Hlen.
  assert (Hk : k < length cells) by (rewrite Hlen; by eapply norm_index_lt).
  set (cells1 := <[k := Some (values d)]> cells).
  set (h1 := <[values r := OObj cells1]> (heap st)).
  set (h2 := <[values d := ONum (floored a)]> h1).
  assert (Hne : values d <> values r).
  { intros E. unfold num_at in Hda. by rewrite E, Hc in Hda. }
  assert (Hc1 : h1 !! values r = Some (OObj cells1)).
  { apply list_lookup_insert_eq. by eapply lookup_lt_Some. }
  assert (Hels1 : cells_at h1 cells1 = Some (<[k := a]> els)).
  { by eapply cells_at_insert. }
  assert (Hda1 : num_at h1 (values d) = Some a).
  { unfold h1. by erewrite num_at_insert_obj. }
  exists (St h1 (warnings st)), (St h2 (warnings st)).
  assert (Hnum2 : forall l x, num_at h1 l = Some x ->
            exists y, num_at h2 l = Some y /\ (l = values d -> y = floored a)).
  { intros l x Hl. unfold h2, num_at.
    destruct (decide (l = values d)) as [->|Hn].
    - exists (floored a). rewrite list_lookup_insert_eq; [done|].
      by eapply num_at_lt.
    - exists x. rewrite list_lookup_insert_ne; [|done]. split; [done|done]. }
  apply cells_at_Forall2 in Hels1 as (locs1 & Hlocs1 & HF1).
  assert (exists els2, Forall2 (fun l y => num_at h2 l = Some y /\
                                  (l = values d -> y = floored a)) locs1 els2)
    as [els2 HF2].
  { clear -HF1 Hnum2. induction HF1 as [|l x locs0 els0 Hl HF IH].
    - exists []. constructor.
    - destruct IH as [els2 IH]. destruct (Hnum2 _ _ Hl) as (y & Hy).
      exists (y :: els2). by constructor. }
  exists els2.
  split.
  { transitivity (__setitem__ r [i] (PyArr (values d)) st); [reflexivity|].
    apply (setitem_ragged_run st r cells i k (values d) a Hc); [|done].
    by rewrite Hlen. }
  split.
  { apply store_at_ragged. split; [done|]. apply tensors_at_ragged.
    exists cells1. split; [done|]. apply cells_at_Forall2. by exists locs1. }
  split.
  { unfold remove_zeros, bind, read. simpl.
    apply num_at_lookup in Hda1. by rewrite Hda1. }
  split.
  { apply store_at_dense. split; [done|]. apply num_at_lookup. simpl.
    apply list_lookup_insert_eq. by eapply num_at_lt. }
  split.
  { apply store_at_ragged. split; [done|]. apply tensors_at_ragged.
    exists cells1. simpl. split.
    - unfold h2. by rewrite list_lookup_insert_ne.
    - rewrite Hlocs1. apply cells_at_intro.
      eapply Forall2_impl; [exact HF2|]. by intros l y [H _]. }
  assert (Hlk : locs1 !! k = Some (values d)).
  { assert (Hck : cells1 !! k = Some (Some (values d))).
    { apply list_lookup_insert_eq. done. }
    rewrite Hlocs1, list_lookup_fmap in Hck.
    destruct (locs1 !! k); simpl in Hck; by simplify_eq. }
  destruct (Forall2_lookup_l _ _ _ _ _ HF2 Hlk) as (y & Hy & _ & Hyd).
  by rewrite Hy, Hyd.
Qed.


(** X9.  Bounds of indexing.  A key within the bounds of the array of
    values (no more indices than axes, every index [i] of an axis of
    length [d] with [-d <= i < d]; for a ragged store, the array of values
    is the one-axis array of its elements) can be read; a key out of bounds
    makes both reading and writing raise [IndexError], and nothing is
    changed. *)
Theorem indexing_bounds st s t key :
  store_at (heap st) s = Some t ->
  (key = [] -> exists a, t = Dense a) ->
  (key_in_range (reported_shape t) key = true ->
     exists v st', __getitem__ s key st = (inr v, st')) /\
  (key_in_range (reported_shape t) key = false ->
     __getitem__ s key st = (inl IndexError, st) /\
     forall value v, rhs_at (heap st) t value = Some v ->
       __setitem__ s key value st = (inl IndexError, st)).
Proof.
  intros Hs Hkey. split.
  - intros Hk. destruct (item_of_in_range _ _ Hkey Hk) as [item Hitem].
    destruct (wp_run (__getitem__ s key) st (fun _ _ => True))
      as (v & st' & Hrun & _); [|by exists v, st'].
    by apply (wp_getitem _ _ _ _ _ _ Hs Hitem).
  - intros Hk. split; [by eapply getitem_run_index_error|].
    intros value v Hv. by eapply setitem_run_index_error.
Qed.

(** X10.  Indexing that fails changes nothing: whenever [__getitem__] or
    [__setitem__] raises an exception of Python, the heap and the warnings
    are as before the call; in particular an assignment that cannot be
    broadcast leaves no partial write. *)
Theorem indexing_failure_changes_nothing st s key :
  (forall e st', __getitem__ s key st = (inl e, st') ->
     e <> OutOfModel -> st' = st) /\
  (forall value e st', __setitem__ s key value st = (inl e, st') ->
     e <> OutOfModel -> st' = st).
Proof.
  split.
  - intros e st' H _. by eapply getitem_failure.
  - intros value e st' H _. by eapply setitem_failure.
Qed.

(** X11.  Operands that cannot be broadcast together make every operator,
    direct or reflected, raise [ValueError]; no object is created and
    nothing is changed.  This is the case of two dense stores of equal rank
    whose lengths differ on some axis, neither being 1, and of two ragged
    stores of different lengths, neither being 1. *)
Theorem arithmetic_mismatch_raises (o : operator) st a b ta tb :
  store_at (heap st) a = Some ta -> store_at (heap st) b = Some tb ->
  operands_clash ta tb ->
  op_method o a (PyStore b) st = (inl broadcast_error, st) /\
  op_reflected o a (PyStore b) st = (inl broadcast_error, st).
Proof.
  intros Ha Hb Hc. split; destruct o; simpl;
    unfold __add__, __sub__, __mul__, __radd__, __rsub__, __rmul__;
    by eapply np_arith_clash.
Qed.

(** X12.  Construction from a flat list of integers: a negative dimension
    makes the constructor raise [ValueError] without creating anything;
    otherwise the store is dense and zero-valued, of shape [(d, 1)] for the
    list [[d]] and of the listed shape for any other list, the empty list
    included (a tensor without axes).  An integer [n] behaves as the list
    [[n]]. *)
Theorem construct_dims_flat st els zs :
  ints_of els = Some zs ->
  (if existsb (fun z => (z <? 0)%Z) zs
   then __init__ (PyList els) PyNone st
        = (inl (ValueError "negative dimensions are not allowed"), st)
   else exists d st',
     __init__ (PyList els) PyNone st = (inr d, st') /\
     extends st st' /\ length (heap st) <= values d /\
     store_at (heap st') d
     = Some (Dense (np_zeros (map Z.to_nat (zeros_shape zs))))) /\
  forall n, zs = [n] -> __init__ (PyInt n) PyNone st = __init__ (PyList els) PyNone st.
Proof.
  intros Hz. pose proof (ints_of_no_list _ _ Hz) as Hnl.
  pose proof (zeros_of_list_ints _ _ Hz) as Hzl.
  split.
  - unfold __init__. simpl. unfold construct_dims. rewrite Hnl.
    unfold bind at 1. rewrite Hzl.
    destruct (existsb (fun z => (z <? 0)%Z) zs); simpl; [done|].
    eexists _, _. split; [done|]. simpl.
    split; [apply extends_alloc|]. split; [done|].
    apply store_at_dense. split; [done|]. apply num_at_alloc.
  - intros n ->. pose proof (ints_of_length _ _ Hz) as Hlen.
    destruct els as [|[] [|]]; try done.
    simpl in Hz. by injection Hz as ->.
Qed.

(** X13.  The properties [shape] and [ndim] are those of the array of
    values and change nothing: a dense store reports the shape of its
    tensor, a ragged store the single axis of its collection, whose length
    is the number of elements, so that its [ndim] is 1 whatever the shapes
    of the elements. *)
Theorem shape_ndim_spec st s t :
  store_at (heap st) s = Some t ->
  Property.shape s st = (inr (reported_shape t), st) /\
  Property.ndim s st = (inr (length (reported_shape t)), st) /\
  (IS_AOA s = true -> Property.ndim s st = (inr 1, st)).
Proof.
  intros Hs. unfold Property.shape, Property.ndim, bind, read.
  destruct t as [a|els].
  - apply store_at_dense in Hs as [Haoa Ha%num_at_lookup]. rewrite Ha.
    repeat split; try done. by rewrite Haoa.
  - apply store_at_ragged in Hs as [_ (cells & Hc & Hels)%tensors_at_ragged].
    rewrite Hc. simpl. by rewrite (cells_at_length _ _ _ Hels).
Qed.


(** X15.  A store fresh from [dims] normalizes to uniform columns: when
    the array library's sum of zeros is zero, [normalize] on the store
    built from non-negative dimensions returns, for each tensor, a tensor
    of the same shape all of whose entries are [1 / nrows]. *)
Theorem normalize_zero_store_uniform (fsum : list float -> float) st dims t :
  (forall n, (fsum (replicate n 0%float) =? 0)%float = true) ->
  dims_tensors dims = Some t ->
  exists d st1 l st2 t',
    __init__ dims PyNone st = (inr d, st1) /\
    store_at (heap st1) d = Some t /\
    normalize fsum d st1 = (inr l, st2) /\
    tensors_at (heap st2) l = Some t' /\
    tensors_rel (fun a r => shape r = shape a /\
      forall i j, i < nrows a -> j < ncols a ->
        entry r i j = (1 / F64.of_nat (nrows a))%float) t t'.
Proof.
  intros Hsum Hdims.
  pose proof (dims_tensors_inv _ _ Hdims) as Hz.
  assert (Hok : tensors_ok t = true).
  { apply tensors_ok_arrays. eapply Forall_impl; [exact Hz|].
    intros a (s & -> & Hs). by apply tensor_ok_zeros. }
  destruct (wp_run (__init__ dims PyNone) st
    (fun d st1 => store_at (heap st1) d = Some t))
    as (d & st1 & Hrun1 & Hs1).
  { apply (wp_init_dims _ _ _ _ Hdims). by intros st1 d _ _ Hs1. }
  destruct (wp_run (normalize fsum d) st1
    (fun l st2 => exists t', tensors_at (heap st2) l = Some t' /\
       tensors_rel (normalized_of fsum) t t'))
    as (l & st2 & Hrun2 & t' & Ht' & Hrel).
  { apply (wp_normalize _ _ _ _ _ Hs1 Hok).
    intros st2 l t' _ _ Ht' Hrel _. by exists t'. }
  exists d, st1, l, st2, t'. repeat (split; [done|]).
  eapply tensors_rel_arrays; [exact Hz|exact Hrel|].
  intros a r (s & -> & _) (Hshape & _ & Hent). split; [done|].
  intros i j Hi Hj. rewrite (Hent i j Hi Hj). cbv zeta.
  rewrite entry_zeros, col_sum_zeros.
  by rewrite (F64Facts.div_zero_zero_nan 0%float _ eq_refl (Hsum _)).
Qed.

(** X16.  Every store the constructor returns is well formed, whatever its
    arguments: the tag [IS_AOA] agrees with the kind of the array of
    values, every cell of a ragged store refers to a numeric array, and no
    tensor has rank 1; so the property [ndim] of the store is 1 exactly
    when the store is ragged. *)
Theorem constructor_establishes_invariant st dims values d st' :
  __init__ dims values st = (inr d, st') ->
  exists t n,
    store_at (heap st') d = Some t /\
    Forall (fun a => ndim a <> 1) (arrays_of t) /\
    Property.ndim d st' = (inr n, st') /\
    (n = 1 <-> IS_AOA d = true).
Proof.
  intros Hrun.
  destruct (wlp_run _ _ _ _ _ (wlp_init st dims values) Hrun)
    as (t & Hs & Hnd).
  exists t, (length (reported_shape t)). split; [done|]. split; [done|].
  unfold Property.ndim, bind, read. destruct t as [a|els].
  - apply store_at_dense in Hs as [Haoa Ha%num_at_lookup]. rewrite Ha, Haoa.
    split; [done|]. simpl. inversion Hnd; subst. unfold ndim in *. split; done.
  - apply store_at_ragged in Hs
      as [Haoa (cells & Hc & Hels)%tensors_at_ragged].
    rewrite Hc, Haoa. simpl. done.
Qed.

(** X17.  Every store a method returns is well formed: for [copy], the six
    operators, [__getitem__], and [wnorm] and [log] when they wrap their
    result, the tag of the returned store agrees with the kind of its array
    of values, the cells of a ragged result refer to numeric arrays, and no
    tensor of the result has rank 1. *)
Theorem methods_return_well_formed_stores st self :
  (forall d st', copy self st = (inr d, st') -> store_wf (heap st') d) /\
  (forall o other d st',
     op_method o self other st = (inr d, st') -> store_wf (heap st') d) /\
  (forall o other d st',
     op_reflected o self other st = (inr d, st') -> store_wf (heap st') d) /\
  (forall key d st',
     __getitem__ self key st = (inr (PyStore d), st') ->
     store_wf (heap st') d) /\
  (forall fsum d st',
     wnorm fsum self false st = (inr (PyStore d), st') ->
     store_wf (heap st') d) /\
  (forall np_log d st',
     log np_log self false st = (inr (PyStore d), st') ->
     store_wf (heap st') d).
Proof.
  split; [|split; [|split; [|split; [|split]]]].
  - intros d st' H. exact (wlp_run _ _ _ _ _ (wlp_copy st self) H).
  - intros o other d st' H.
    apply (wlp_run (op_method o self other) st
             (fun d st' => store_wf (heap st') d)); [|done].
    destruct o; apply wlp_store_arith.
  - intros o other d st' H.
    apply (wlp_run (op_reflected o self other) st
             (fun d st' => store_wf (heap st') d)); [|done].
    destruct o; apply wlp_store_arith.
  - intros key d st' H.
    exact (wlp_run _ _ _ _ _ (wlp_getitem st self key) H d eq_refl).
  - intros fsum d st' H.
    exact (wlp_run _ _ _ _ _ (wlp_wnorm fsum st self) H d eq_refl).
  - intros np_log d st' H.
    exact (wlp_run _ _ _ _ _ (wlp_log np_log st self) H d eq_refl).
Qed.

(** X18.  A ragged store of a single element is broadcast as an operand:
    combined by an operator with a ragged store of any number of elements,
    it yields a new ragged store with one element per element of the
    operand, the single element combined with each of them; nothing else
    is changed. *)
Theorem ragged_single_broadcasts (o : operator) st a b x els rs :
  store_at (heap st) a = Some (Ragged [x]) ->
  store_at (heap st) b = Some (Ragged els) ->
  2 <= ndim x ->
  Forall2 (fun y r => np_binop (op_fun o) x y = inr r) els rs ->
  exists d st',
    op_method o a (PyStore b) st = (inr d, st') /\
    extends st st' /\ length (heap st) <= values d /\
    store_at (heap st') d = Some (Ragged rs) /\
    length rs = length els.
Proof.
  intros Ha Hb Hx Hrs.
  apply store_at_ragged in Ha as [_ (c1 & Hc1 & Hels1)%tensors_at_ragged].
  apply store_at_ragged in Hb as [_ (c2 & Hc2 & Hels2)%tensors_at_ragged].
  apply cells_at_elim in Hels1 as (locs & -> & HF).
  inversion HF as [|l1 x' locs' els' Hl1 HF' E1 E2]; subst.
  inversion HF'; subst.
  apply wp_run.
  assert (Hgoal : wp (v <- np_arith (op_fun o) (values a) (PyArr (values b)) ;;
                      __init__ PyNone v) st
            (fun d st' => extends st st' /\ length (heap st) <= values d /\
               store_at (heap st') d = Some (Ragged rs) /\
               length rs = length els)).
  { eapply wp_arith_obj_single; [exact Hc1|exact Hl1|done|exact Hc2|done|done|].
    intros st' sv Hext Hsv Hts. split; [done|]. split; [done|].
    split; [by apply store_at_ragged|]. symmetry. by eapply Forall2_length. }
  by destruct o.
Qed.


(** X20.  The frame of the constructor: whether it returns or raises, it
    issues no warning and changes no existing object, except the slots of
    an object array passed as [values]; a numeric array passed as [values]
    is as it was. *)
Theorem constructor_frame st dims vals r st' :
  __init__ dims vals st = (r, st') -> r <> inl OutOfModel ->
  warnings st' = warnings st /\
  match vals with
  | PyArr v =>
      same_except v (heap st) (heap st') /\
      forall a, num_at (heap st) v = Some a -> heap st `prefix_of` heap st'
  | _ => heap st `prefix_of` heap st'
  end.
Proof.
  intros H _.
  assert (Hother : (forall v, vals = PyArr v ->
                      exists a, num_at (heap st) v = Some a) ->
                   extends st st').
  { intros Hv.
    refine (wfr_final _ _ _ _ _ _
              (wfr_init_ext st dims vals st (extends_refl st) _) _ H).
    - intros v E. right. by apply Hv.
    - by intros d st1 [H1 _]. }
  destruct vals as [| | | |v| |];
    try (destruct Hother as [Hp Hw]; [by intros v [=]|by split]).
  set (K := fun st1 : state =>
              same_except v (heap st) (heap st1) /\ warnings st1 = warnings st).
  assert (HK : K st') .
  { refine (wfr_final K _ _ (fun _ st1 => K st1) _ _ _ _ H); [|done].
    eapply wfr_mono.
    - apply (wfr_init K (length (heap st))).
      + intros st1 o [H1 H2]. split; [by apply same_except_app|done].
      + intros st1 l o [H1 H2] Hl. split; [|done].
        by apply same_except_insert_ge.
      + intros st1 [[H1 _] _]. done.
      + split; [apply same_except_refl|done].
      + intros v' cells [= <-] _ st1 o [H1 H2]. split; [|done].
        by apply same_except_insert.
    - by intros d st1 [H1 _]. }
  destruct HK as [Hse Hw]. split; [done|]. split; [done|].
  intros a Ha. apply Hother. intros v' [= <-]. by exists a.
Qed.


(** ** The further properties on the examples *)

Lemma contains_zeros_spec_witness :
  exists b,
    contains_zeros ex_ragged_store ex_ragged = (inr b, ex_ragged) /\
    (b = true <->
     exists a x,
       In a [Nd [2; 1] [0; 1]%float; Nd [1; 2] [2; 0]%float] /\
       In x (data a) /\ (x =? 0)%float = true).
Proof.
  exact (contains_zeros_spec ex_ragged ex_ragged_store
           (Ragged [Nd [2; 1] [0; 1]%float; Nd [1; 2] [2; 0]%float]) eq_refl).
Defined.


Lemma construct_values_copies_witness :
  exists d st' st'',
    __init__ PyNone (PyArr 2) ex_pair = (inr d, st') /\
    extends ex_pair st' /\ length (heap ex_pair) <= values d /\
    store_at (heap st') d = Some (Dense (Nd [2; 1] [7; 8]%float)) /\
    remove_zeros d st' = (inr tt, st'') /\
    store_at (heap st'') d = Some (Dense (floored (Nd [2; 1] [7; 8]%float))) /\
    num_at (heap st'') 2 = Some (Nd [2] [7; 8]%float).
Proof.
  exact (construct_values_copies ex_pair 2 (Nd [2] [7; 8]%float) eq_refl).
Defined.

Lemma copy_spec_witness :
  exists d st',
    copy ex_ragged_store ex_ragged = (inr d, st') /\
    extends ex_ragged st' /\ length (heap ex_ragged) <= values d /\
    IS_AOA d = true /\
    store_at (heap st') d
    = Some (Ragged [Nd [2; 1] [0; 1]%float; Nd [1; 2] [2; 0]%float]) /\
    store_at (heap st') ex_ragged_store
    = Some (Ragged [Nd [2; 1] [0; 1]%float; Nd [1; 2] [2; 0]%float]).
Proof.
  destruct (copy_spec ex_ragged ex_ragged_store
              (Ragged [Nd [2; 1] [0; 1]%float; Nd [1; 2] [2; 0]%float]) eq_refl)
    as (d & st' & Hrun & Hext & Hd & Haoa & Hsd & Hs & _).
  by exists d, st'.
Defined.

Lemma copy_independent_witness :
  exists d st1,
    copy ex_dense_store ex_dense = (inr d, st1) /\
    (exists st2,
       remove_zeros d st1 = (inr tt, st2) /\
       store_at (heap st2) d
       = Some (Dense (floored (Nd [2; 2] [0; 2; 4; 0]%float))) /\
       store_at (heap st2) ex_dense_store
       = Some (Dense (Nd [2; 2] [0; 2; 4; 0]%float))) /\
    (exists st2,
       remove_zeros ex_dense_store st1 = (inr tt, st2) /\
       store_at (heap st2) ex_dense_store
       = Some (Dense (floored (Nd [2; 2] [0; 2; 4; 0]%float))) /\
       store_at (heap st2) d = Some (Dense (Nd [2; 2] [0; 2; 4; 0]%float))).
Proof.
  exact (copy_independent ex_dense ex_dense_store
           (Dense (Nd [2; 2] [0; 2; 4; 0]%float)) eq_refl).
Defined.

Lemma getitem_returns_copy_witness :
  exists e st1,
    __getitem__ ex_left [0%Z] ex_pair = (inr (PyStore e), st1) /\
    store_at (heap st1) e = Some (Dense (Nd [2; 1] [1; 2]%float)) /\
    store_at (heap st1) ex_left = Some (Dense (Nd [2; 2] [1; 2; 3; 4]%float)) /\
    (exists st2,
       remove_zeros e st1 = (inr tt, st2) /\
       store_at (heap st2) e
       = Some (Dense (floored (Nd [2; 1] [1; 2]%float))) /\
       store_at (heap st2) ex_left
       = Some (Dense (Nd [2; 2] [1; 2; 3; 4]%float))) /\
    (exists st2,
       remove_zeros ex_left st1 = (inr tt, st2) /\
       store_at (heap st2) ex_left
       = Some (Dense (floored (Nd [2; 2] [1; 2; 3; 4]%float))) /\
       store_at (heap st2) e = Some (Dense (Nd [2; 1] [1; 2]%float))).
Proof.
  exact (getitem_returns_copy ex_pair ex_left
           (Dense (Nd [2; 2] [1; 2; 3; 4]%float)) [0%Z] (Nd [2] [1; 2]%float)
           eq_refl eq_refl).
Defined.

Lemma setitem_ragged_aliases_witness :
  exists st1 st2 els2,
    __setitem__ ex_mixed_ragged [1%Z] (PyStore ex_mixed_dense) ex_mixed
    = (inr tt, st1) /\
    store_at (heap st1) ex_mixed_ragged
    = Some (Ragged [Nd [2; 1] [0; 1]%float; Nd [2; 2] [1; 2; 3; 4]%float]) /\
    remove_zeros ex_mixed_dense st1 = (inr tt, st2) /\
    store_at (heap st2) ex_mixed_dense
    = Some (Dense (floored (Nd [2; 2] [1; 2; 3; 4]%float))) /\
    store_at (heap st2) ex_mixed_ragged = Some (Ragged els2) /\
    els2 !! 1 = Some (floored (Nd [2; 2] [1; 2; 3; 4]%float)).
Proof.
  exact (setitem_ragged_aliases ex_mixed ex_mixed_ragged
           [Nd [2; 1] [0; 1]%float; Nd [1; 2] [2; 0]%float]
           ex_mixed_dense (Nd [2; 2] [1; 2; 3; 4]%float) 1%Z 1
           eq_refl eq_refl eq_refl).
Defined.


Lemma indexing_bounds_witness :
  (exists v st', __getitem__ ex_dense_store [(-2)%Z; 1%Z] ex_dense = (inr v, st')) /\
  __getitem__ ex_dense_store [2%Z] ex_dense = (inl IndexError, ex_dense) /\
  __setitem__ ex_dense_store [0%Z; 0%Z; 0%Z] (PyFloat 1) ex_dense
  = (inl IndexError, ex_dense).
Proof.
  pose (t := Dense (Nd [2; 2] [0; 2; 4; 0]%float)).
  split; [|split].
  - apply (indexing_bounds ex_dense ex_dense_store t [(-2)%Z; 1%Z] eq_refl);
      [discriminate|reflexivity].
  - apply (indexing_bounds ex_dense ex_dense_store t [2%Z] eq_refl);
      [discriminate|reflexivity].
  - eapply (indexing_bounds ex_dense ex_dense_store t [0%Z; 0%Z; 0%Z] eq_refl);
      [discriminate|reflexivity|reflexivity].
Defined.

Lemma indexing_failure_changes_nothing_witness :
  exists e,
    __setitem__ ex_left [0%Z] (PyStore ex_right) ex_pair = (inl e, ex_pair).
Proof.
  destruct (__setitem__ ex_left [0%Z] (PyStore ex_right) ex_pair)
    as [[e|u] st'] eqn:E.
  - exists e.
    rewrite (proj2 (indexing_failure_changes_nothing ex_pair ex_left [0%Z])
               _ _ _ E); [reflexivity|].
    vm_compute in E. injection E as <- _. discriminate.
  - vm_compute in E. discriminate.
Defined.

Lemma arithmetic_mismatch_raises_witness :
  __add__ ex_left (PyStore ex_right) ex_clash = (inl broadcast_error, ex_clash) /\
  __radd__ ex_left (PyStore ex_right) ex_clash = (inl broadcast_error, ex_clash).
Proof.
  apply (arithmetic_mismatch_raises Add ex_clash ex_left ex_right
           (Dense (Nd [2; 2] [1; 2; 3; 4]%float))
           (Dense (Nd [3; 2] [1; 2; 3; 4; 5; 6]%float)));
    [reflexivity|reflexivity|].
  split; [reflexivity|]. exists 0, 2, 3. repeat split; [lia..].
Defined.

Lemma construct_dims_flat_witness :
  __init__ (PyList [PyInt 3; PyInt (-1)]) PyNone ex_dense
  = (inl (ValueError "negative dimensions are not allowed"), ex_dense) /\
  exists d st',
    __init__ (PyList []) PyNone ex_dense = (inr d, st') /\
    extends ex_dense st' /\ length (heap ex_dense) <= values d /\
    store_at (heap st') d = Some (Dense (Nd [] [0%float])).
Proof.
  split.
  - exact (proj1 (construct_dims_flat ex_dense [PyInt 3; PyInt (-1)]
                    [3; -1]%Z eq_refl)).
  - exact (proj1 (construct_dims_flat ex_dense [] [] eq_refl)).
Defined.

Lemma shape_ndim_spec_witness :
  Property.shape ex_ragged_store ex_ragged = (inr [2], ex_ragged) /\
  Property.ndim ex_ragged_store ex_ragged = (inr 1, ex_ragged) /\
  (IS_AOA ex_ragged_store = true ->
   Property.ndim ex_ragged_store ex_ragged = (inr 1, ex_ragged)).
Proof.
  exact (shape_ndim_spec ex_ragged ex_ragged_store
           (Ragged [Nd [2; 1] [0; 1]%float; Nd [1; 2] [2; 0]%float]) eq_refl).
Defined.


Lemma seq_sum_zeros n : (seq_sum (replicate n 0%float) =? 0)%float = true.
Proof.
  destruct n as [|n]; [reflexivity|]. simpl.
  induction n as [|n IH]; [reflexivity|]. simpl.
  change (0 + 0)%float with 0%float. exact IH.
Qed.

Lemma normalize_zero_store_uniform_witness :
  exists d st1 l st2 t',
    __init__ (PyList [PyInt 2; PyInt 3]) PyNone ex_dense = (inr d, st1) /\
    store_at (heap st1) d = Some (Dense (np_zeros [2; 3])) /\
    normalize seq_sum d st1 = (inr l, st2) /\
    tensors_at (heap st2) l = Some t' /\
    tensors_rel (fun a r => shape r = shape a /\
      forall i j, i < nrows a -> j < ncols a ->
        entry r i j = (1 / F64.of_nat (nrows a))%float)
      (Dense (np_zeros [2; 3])) t'.
Proof.
  exact (normalize_zero_store_uniform seq_sum ex_dense
           (PyList [PyInt 2; PyInt 3]) (Dense (np_zeros [2; 3]))
           seq_sum_zeros eq_refl).
Defined.

Lemma constructor_establishes_invariant_witness :
  exists d st' t,
    __init__ (PyList [PyList [PyInt 2]; PyList [PyInt 3; PyInt 3]]) PyNone
      ex_dense = (inr d, st') /\
    store_at (heap st') d = Some t /\
    Forall (fun a => ndim a <> 1) (arrays_of t) /\
    Property.ndim d st' = (inr 1, st').
Proof.
  destruct (__init__ (PyList [PyList [PyInt 2]; PyList [PyInt 3; PyInt 3]])
              PyNone ex_dense) as [[e|d] st'] eqn:E.
  { vm_compute in E. discriminate. }
  destruct (constructor_establishes_invariant _ _ _ _ _ E)
    as (t & n & Hs & Hnd & Hn & Hiff).
  exists d, st', t. split; [reflexivity|]. split; [exact Hs|].
  split; [exact Hnd|].
  assert (n = 1) as <-; [|exact Hn].
  apply Hiff. vm_compute in E. by injection E as <- <-.
Defined.

Lemma methods_return_well_formed_stores_witness :
  exists d st',
    __getitem__ ex_ragged_store [1%Z] ex_ragged = (inr (PyStore d), st') /\
    store_wf (heap st') d.
Proof.
  destruct (__getitem__ ex_ragged_store [1%Z] ex_ragged) as [[e|[| | | | |d|]] st']
    eqn:E; try (vm_compute in E; discriminate).
  exists d, st'. split; [reflexivity|].
  destruct (methods_return_well_formed_stores ex_ragged ex_ragged_store)
    as (_ & _ & _ & H & _).
  exact (H _ _ _ E).
Defined.

Lemma ragged_single_broadcasts_witness :
  exists d st',
    __mul__ (mkDirichlet true 4) (PyStore ex_mixed_ragged) ex_single
    = (inr d, st') /\
    extends ex_single st' /\ length (heap ex_single) <= values d /\
    store_at (heap st') d
    = Some (Ragged [Nd [2; 2] [0; 0; 3; 4]%float;
                    Nd [2; 2] [2; 0; 6; 0]%float]) /\
    length [Nd [2; 2] [0; 0; 3; 4]%float; Nd [2; 2] [2; 0; 6; 0]%float]
    = length [Nd [2; 1] [0; 1]%float; Nd [1; 2] [2; 0]%float].
Proof.
  apply (ragged_single_broadcasts Mul ex_single (mkDirichlet true 4)
           ex_mixed_ragged (Nd [2; 2] [1; 2; 3; 4]%float));
    [reflexivity|reflexivity|unfold ndim; simpl; lia|].
  repeat constructor.
Defined.


Lemma constructor_frame_witness :
  exists st',
    __init__ PyNone (PyArr 1) ex_partial = (inl AttributeError, st') /\
    warnings st' = [] /\
    same_except 1 (heap ex_partial) (heap st') /\
    heap st' !! 1 = Some (OObj [Some 3; None]).
Proof.
  destruct (__init__ PyNone (PyArr 1) ex_partial) as [r st'] eqn:E.
  assert (Hr : r = inl AttributeError /\
               heap st' !! 1 = Some (OObj [Some 3; None])).
  { vm_compute in E. injection E as <- <-. by split. }
  destruct Hr as [-> Hc].
  destruct (constructor_frame ex_partial PyNone (PyArr 1) _ st' E)
    as (Hw & Hse & _); [discriminate|].
  exists st'. split; [reflexivity|]. split; [exact Hw|].
  split; [exact Hse|exact Hc].
Defined.

